(** * merge.py: the Flathub merge action, embedded and verified

    A shallow embedding of [src/merge.py].  Python [str] values are
    [string]s whose characters are code points below 256; every call that
    leaves the process (GitHub REST and GraphQL, pygit2, the [git push]
    subprocess, the file parsers) is a step of a state-and-exception
    monad over a [World] that records what was called, in order. *)

From Stdlib Require Import ZArith Lia Ascii.
From stdpp Require Import base gmap strings list pretty.

Open Scope string_scope.

(** ** Characters and strings, as the regular expressions see them *)

Module Chars.

Definition code (c : ascii) : N := N_of_ascii c.

Definition between (lo hi : N) (c : ascii) : bool :=
  ((lo <=? code c) && (code c <=? hi))%N.

Definition is_digit : ascii -> bool := between 48 57.
Definition is_lower : ascii -> bool := between 97 122.
Definition is_upper : ascii -> bool := between 65 90.

Definition is_char (d c : ascii) : bool := bool_decide (c = d).
Arguments is_char d%_char c%_char.

(** [[a-fA-F0-9]] *)
Definition is_hex (c : ascii) : bool :=
  between 97 102 c || between 65 70 c || is_digit c.

(** [[a-zA-Z0-9-]] *)
Definition is_handle_char (c : ascii) : bool :=
  is_lower c || is_upper c || is_digit c || is_char "-" c.

(** The alphanumeric code points of the range 128..255 (what
    [str.isalnum] accepts there). *)
Definition is_latin1_alnum (c : ascii) : bool :=
  is_char "170" c || between 178 179 c || is_char "181" c
  || between 185 186 c || between 188 190 c
  || between 192 214 c || between 216 246 c || between 248 255 c.

(** [\w] of a [str] pattern: alphanumeric or underscore. *)
Definition is_word (c : ascii) : bool :=
  is_lower c || is_upper c || is_digit c || is_char "_" c
  || is_latin1_alnum c.

(** [[\w.-]] *)
Definition is_branch_char (c : ascii) : bool :=
  is_word c || is_char "." c || is_char "-" c.

(** [str.isspace] on one character. *)
Definition is_space (c : ascii) : bool :=
  between 9 13 c || between 28 32 c || is_char "133" c || is_char "160" c.

(** [.] without DOTALL: anything but a newline. *)
Definition is_dot (c : ascii) : bool := negb (is_char "010" c).

End Chars.

Module Str.

(** The longest prefix of [s] made of characters satisfying [p], and
    what follows it. *)
Fixpoint span (p : ascii -> bool) (s : string) : string * string :=
  match s with
  | EmptyString => (EmptyString, EmptyString)
  | String c s' =>
      if p c then let '(a, b) := span p s' in (String c a, b)
      else (EmptyString, s)
  end.

(** As [span], but at most [n] characters are taken. *)
Fixpoint span_upto (n : nat) (p : ascii -> bool) (s : string) : string :=
  match n, s with
  | S n', String c s' => if p c then String c (span_upto n' p s') else EmptyString
  | _, _ => EmptyString
  end.

Fixpoint forallb (p : ascii -> bool) (s : string) : bool :=
  match s with
  | EmptyString => true
  | String c s' => p c && forallb p s'
  end.

Fixpoint take (n : nat) (s : string) : string :=
  match n, s with
  | S n', String c s' => String c (take n' s')
  | _, _ => EmptyString
  end.

Fixpoint drop (n : nat) (s : string) : string :=
  match n, s with
  | S n', String _ s' => drop n' s'
  | _, _ => s
  end.

(** [s.startswith(p)], returning what follows the prefix. *)
Fixpoint strip_prefix (p s : string) : option string :=
  match p, s with
  | EmptyString, _ => Some s
  | String a p', String b s' => if bool_decide (a = b) then strip_prefix p' s' else None
  | String _ _, EmptyString => None
  end.

Definition startswith (s p : string) : bool :=
  match strip_prefix p s with Some _ => true | None => false end.

(** [s.endswith(p)] *)
Definition endswith (s p : string) : bool :=
  (String.length p <=? String.length s)%nat
  && bool_decide (drop (String.length s - String.length p) s = p).

(** [s.count(c)] for a one-character [c]. *)
Fixpoint count (c : ascii) (s : string) : nat :=
  match s with
  | EmptyString => 0
  | String a s' => (if bool_decide (a = c) then 1 else 0) + count c s'
  end.

Definition is_empty (s : string) : bool :=
  match s with EmptyString => true | _ => false end.

(** [s.strip()]: the whitespace of both ends is removed. *)
Fixpoint lstrip (s : string) : string :=
  match s with
  | EmptyString => EmptyString
  | String c s' => if Chars.is_space c then lstrip s' else s
  end.

Fixpoint rstrip (s : string) : string :=
  match s with
  | EmptyString => EmptyString
  | String c s' =>
      match rstrip s' with
      | EmptyString => if Chars.is_space c then EmptyString else String c EmptyString
      | r => String c r
      end
  end.

Definition strip (s : string) : string := rstrip (lstrip s).

(** [s.split(sep)] for a one-character [sep]. *)
Fixpoint split (sep : ascii) (s : string) : list string :=
  match s with
  | EmptyString => [EmptyString]
  | String c s' =>
      if bool_decide (c = sep) then EmptyString :: split sep s'
      else
        match split sep s' with
        | x :: xs => String c x :: xs
        | [] => [String c EmptyString]
        end
  end.

End Str.

(** ** Values that cross the process boundary *)

(** Exceptions the program can see.  Only some are caught somewhere in
    [merge.py]; the others travel up to the interpreter. *)
Inductive exn :=
  | GithubException (status : Z)
  | GLibError (message : string)
  | YAMLError (message : string)
  | CalledProcessError (output : string)
  | TypeError
  | KeyError (key : string)
  | IndexError
  | AttributeError
  | OtherError (what : string).

(** [str(err)], as far as the exception is modelled. *)
Definition str_exn (e : exn) : string :=
  match e with
  | GithubException status => pretty status
  | GLibError message => message
  | YAMLError message => message
  | CalledProcessError output => output
  | TypeError => "TypeError"
  | KeyError key => key
  | IndexError => "IndexError"
  | AttributeError => "AttributeError"
  | OtherError what => what
  end.

Inductive outcome (A : Type) :=
  | Ret (a : A)
  | Raise (e : exn).
Arguments Ret {A} a.
Arguments Raise {A} e.

(** A value found under a key of a manifest, as far as Python's truth
    test and [==] against a [str] can tell values apart. *)
Inductive pyval :=
  | VNone
  | VBool (b : bool)
  | VInt (n : Z)
  | VStr (s : string)
  | VOther (truth : bool).

Definition truthy (v : pyval) : bool :=
  match v with
  | VNone => false
  | VBool b => b
  | VInt n => negb (n =? 0)%Z
  | VStr s => negb (Str.is_empty s)
  | VOther t => t
  end.

(** [a or b] on values that may be absent ([dict.get] gives [None]). *)
Definition py_or (a b : option pyval) : option pyval :=
  match a with
  | Some v => if truthy v then a else b
  | None => b
  end.

(** What a parser hands back for a manifest: a [dict] or anything else. *)
Inductive manifest :=
  | MDict (d : gmap string pyval)
  | MOther.

(** What [open] and [yaml.safe_load] do with a file: the document is
    loaded, the load raises [yaml.YAMLError], or one of the two raises
    another exception ([OSError], [UnicodeDecodeError]). *)
Inductive yaml_outcome :=
  | YamlLoaded (m : manifest)
  | YamlFailed (message : string)
  | YamlRaised (e : exn).

(** State of a [Json.Parser] after [load_from_file]: the error it raised,
    if any, and what [get_root] returns afterwards. *)
Record json_outcome := {
  json_error : option string;
  json_root : option manifest
}.

Record DirEntry := {
  entry_name : string;
  entry_is_file : bool;
  entry_yaml : yaml_outcome;
  entry_json : json_outcome
}.

Record IssueInfo := {
  issue_has_pull_request : bool;
  issue_number : Z
}.

Record CommentInfo := {
  comment_body : string;
  comment_user_login : string
}.

(** The event payload, with the keys [merge.py] reads. *)
Record GithubEvent := {
  ev_action : option string;
  ev_issue : option IssueInfo;
  ev_comment : option CommentInfo;
  ev_other_keys : bool
}.

Definition empty_event : GithubEvent :=
  {| ev_action := None; ev_issue := None; ev_comment := None;
     ev_other_keys := false |}.

Inductive event_file :=
  | EventOSError
  | EventJSONDecodeError
  | EventLoaded (e : GithubEvent).

Record PullRequest := {
  pr_number : Z;
  pr_state : string;
  pr_head_sha : string;
  pr_head_label : string;
  pr_head_repo_clone_url : option string;
  pr_user_login : string
}.

Record Branch := {
  branch_commit_sha : string;
  branch_protected : option bool
}.

Record Repository := {
  Repository_name : string;
  Repository_html_url : string
}.

Record Clone := {
  clone_head_target : string
}.

Definition repo_handle (name : string) : Repository :=
  {| Repository_name := name;
     Repository_html_url := "https://github.com/flathub/" +:+ name |}.

(** What the hosting service and the fork answer at one moment. *)
Record Service := {
  srv_pull : Z -> PullRequest;
  srv_is_member : string -> string -> bool;
  srv_branch : string -> string -> Branch;
  srv_issue_locked : Z -> bool;
  srv_repo_id : string -> string;
  srv_fork_head : string -> string -> string
}.

(** ** The trace *)

Inductive level := INFO | ERROR.

Inductive api_call :=
  | GetOrganization (login : string)
  | OrgGetRepo (name : string)
  | OrgCreateRepo (name : string)
  | RepoEdit (name homepage : string) (delete_branch_on_merge : bool)
  | GetUser (login : string)
  | RepoGetPull (number : Z)
  | OrgGetTeamBySlug (slug : string)
  | TeamHasInMembers (team user : string)
  | RepoRemoveFromCollaborators (repo user : string)
  | RepoGetBranch (repo branch : string)
  | RepoAddToCollaborators (repo user permission : string)
  | TeamUpdateTeamRepository (team repo permission : string)
  | PullSetLabels (number : Z) (label : string)
  | PullCreateIssueComment (number : Z) (body : string)
  | PullEdit (number : Z) (state : string)
  | RepoGetIssue (number : Z)
  | IssueLock (number : Z) (reason : string)
  | GqlGetRepoId (repo : string)
  | GqlAddBranchProtection (repository_id pattern : string)
  | CloneRepository (url path checkout_branch : string)
  | SubmodulesUpdate
  | RemotesCreate (name url : string)
  | GitPush (cwd refspec : string).

Inductive Event :=
  | Log (lvl : level) (message : string)
  | Call (c : api_call)
  | Sleep (seconds : Z)
  | TmpdirCreated (path : string)
  | TmpdirRemoved (path : string).

(** ** The world the program runs in *)

Record World := {
  INPUT_TOKEN : option string;
  GITHUB_EVENT_PATH : option string;
  open_event_file : string -> event_file;
  mkdtemp : string;
  listdir : string -> list DirEntry;
  (** names of the repositories of the organization *)
  org_repos : gset string;
  (** the answers of the service when the n-th call is made *)
  service : nat -> Service;
  (** the exception, if any, with which the n-th call fails *)
  faults : nat -> option exn;
  clock : nat;
  trace : list Event
}.

Definition emit (e : Event) (w : World) : World :=
  {| INPUT_TOKEN := INPUT_TOKEN w; GITHUB_EVENT_PATH := GITHUB_EVENT_PATH w;
     open_event_file := open_event_file w; mkdtemp := mkdtemp w;
     listdir := listdir w; org_repos := org_repos w; service := service w;
     faults := faults w; clock := clock w; trace := trace w ++ [e] |}.

Definition tick (w : World) : World :=
  {| INPUT_TOKEN := INPUT_TOKEN w; GITHUB_EVENT_PATH := GITHUB_EVENT_PATH w;
     open_event_file := open_event_file w; mkdtemp := mkdtemp w;
     listdir := listdir w; org_repos := org_repos w; service := service w;
     faults := faults w; clock := S (clock w); trace := trace w |}.

Definition add_repo (name : string) (w : World) : World :=
  {| INPUT_TOKEN := INPUT_TOKEN w; GITHUB_EVENT_PATH := GITHUB_EVENT_PATH w;
     open_event_file := open_event_file w; mkdtemp := mkdtemp w;
     listdir := listdir w; org_repos := {[ name ]} ∪ org_repos w;
     service := service w; faults := faults w; clock := clock w;
     trace := trace w |}.

(** ** The monad: state, exceptions, and Python's [try]/[except] *)

Definition M (A : Type) : Type := World -> outcome A * World.

#[export] Instance M_ret : MRet M := fun A a w => (Ret a, w).

#[export] Instance M_bind : MBind M := fun A B f m w =>
  match m w with
  | (Ret a, w') => f a w'
  | (Raise e, w') => (Raise e, w')
  end.

Definition raise {A : Type} (e : exn) : M A := fun w => (Raise e, w).

(** [try: body / except ...: handler]; the handler says which exceptions
    it catches by returning [Some]. *)
Definition try_except {A : Type} (body : M A) (handler : exn -> option (M A)) : M A :=
  fun w =>
    match body w with
    | (Ret a, w') => (Ret a, w')
    | (Raise e, w') =>
        match handler e with
        | Some h => h w'
        | None => (Raise e, w')
        end
    end.

Definition log (lvl : level) (message : string) : M unit :=
  fun w => (Ret tt, emit (Log lvl message) w).

Definition sleep (seconds : Z) : M unit :=
  fun w => (Ret tt, emit (Sleep seconds) w).

(** A call that leaves the process: it is recorded, the clock advances,
    and it either fails as the world says or returns the service's
    answer of that moment. *)
Definition request {A : Type} (c : api_call) (answer : Service -> A) : M A :=
  fun w =>
    let w' := tick (emit (Call c) w) in
    match faults w (clock w) with
    | Some e => (Raise e, w')
    | None => (Ret (answer (service w (clock w))), w')
    end.

Definition get_world : M World := fun w => (Ret w, w).

(** [with tempfile.TemporaryDirectory() as tmpdir: body]: the directory
    is removed however the body ends. *)
Definition with_tmpdir {A : Type} (body : string -> M A) : M A :=
  fun w =>
    let path := mkdtemp w in
    match body path (emit (TmpdirCreated path) w) with
    | (r, w') => (r, emit (TmpdirRemoved path) w')
    end.

(** ** [os.path] and [glob] on one directory *)

Module Path.

Definition join (dirname name : string) : string :=
  if Str.endswith dirname "/" then dirname +:+ name
  else dirname +:+ "/" +:+ name.

(** What precedes the last dot of [s], if [s] has a dot. *)
Fixpoint before_last_dot (s : string) : option string :=
  match s with
  | EmptyString => None
  | String c s' =>
      match before_last_dot s' with
      | Some r => Some (String c r)
      | None => if Chars.is_char "." c then Some EmptyString else None
      end
  end.

(** [os.path.splitext(name)[0]] of a base name: the name without its last
    extension, where leading dots never start an extension. *)
Definition splitext_root (name : string) : string :=
  let '(dots, rest) := Str.span (Chars.is_char ".") name in
  match before_last_dot rest with
  | Some r => dots +:+ r
  | None => name
  end.

(** The glob of the pattern star-dot-[ext] in one directory, as entries
    in the order the directory is read: the star does not match a
    leading dot. *)
Definition glob (entries : list DirEntry) (ext : string) : list DirEntry :=
  List.filter
    (fun f => negb (Str.startswith (entry_name f) ".")
              && Str.endswith (entry_name f) ("." +:+ ext))
    entries.

End Path.

#[export] Instance pyval_eq_dec : EqDecision pyval.
Proof. solve_decision. Defined.

#[export] Instance exn_eq_dec : EqDecision exn.
Proof. solve_decision. Defined.

(** ** Reading manifests (lines 30-107) *)

Definition _read_json_flatpak_manifest (f : DirEntry) : M manifest :=
  if entry_is_file f && Str.endswith (entry_name f) ".json" then
    match json_error (entry_json f) with
    | Some message =>
        log ERROR ("Failed to load JSON Flatpak manifest: " +:+ message)
    | None => mret tt
    end;;
    (* json.loads(Json.to_string(parser.get_root(), False)) runs whether
       or not the load failed; without a root it raises TypeError *)
    match json_root (entry_json f) with
    | Some m => mret m
    | None => raise TypeError
    end
  else mret (MDict ∅).

Definition _read_yaml_flatpak_manifest (f : DirEntry) : M manifest :=
  if entry_is_file f
     && (Str.endswith (entry_name f) ".yml" || Str.endswith (entry_name f) ".yaml")
  then
    match entry_yaml f with
    | YamlLoaded m => mret m
    | YamlFailed message =>
        log ERROR ("Failed to load YAML Flatpak manifest: " +:+ message);;
        mret (MDict ∅)
    (* only [yaml.YAMLError] is caught *)
    | YamlRaised e => raise e
    end
  else mret (MDict ∅).

Definition _read_flatpak_manifest (f : DirEntry) : M manifest :=
  if Str.endswith (entry_name f) ".yaml" || Str.endswith (entry_name f) ".yml"
  then _read_yaml_flatpak_manifest f
  else _read_json_flatpak_manifest f.

Definition is_truthy (v : option pyval) : bool :=
  match v with Some x => truthy x | None => false end.

Definition _get_id_from_flatpak_manifest (path : string) (f : DirEntry)
  : M (option pyval) :=
  manifest ← _read_flatpak_manifest f;
  let appid :=
    match manifest with
    | MDict d => py_or (d !! "app-id") (d !! "id")
    | MOther => None
    end in
  (if negb (is_truthy appid)
   then log ERROR ("Manifest " +:+ path +:+ " does not contain 'app-id' or 'id'")
   else mret tt);;
  mret appid.

(** The [for filename in files] loop of [detect_appid]. *)
Fixpoint detect_appid_loop (dirname : string) (files : list DirEntry)
  : M (option string * option string) :=
  match files with
  | [] => mret (None, None)
  | f :: rest =>
      let manifest_file := entry_name f in
      log INFO ("Checking file " +:+ manifest_file +:+ " for Flatpak ID");;
      appid ← _get_id_from_flatpak_manifest (Path.join dirname manifest_file) f;
      if is_truthy appid
         && bool_decide (appid = Some (VStr (Path.splitext_root manifest_file)))
      then
        let id := Path.splitext_root manifest_file in
        log INFO ("Detected Flatpak ID " +:+ id +:+ " and manifest file "
                  +:+ manifest_file);;
        mret (Some manifest_file, Some id)
      else detect_appid_loop dirname rest
  end.

Definition candidate_files (entries : list DirEntry) : list DirEntry :=
  List.filter entry_is_file
    (List.concat (List.map (Path.glob entries) ["yml"; "yaml"; "json"])).

Definition detect_appid (dirname : string) : M (option string * option string) :=
  w ← get_world;
  let files := candidate_files (listdir w dirname) in
  match files with
  | [] =>
      log ERROR ("Found no valid Flatpak manifest files in " +:+ dirname);;
      mret (None, None)
  | _ => detect_appid_loop dirname files
  end.

(** ** The event (lines 110-131, 329-338) *)

Definition load_github_event : M GithubEvent :=
  w ← get_world;
  match GITHUB_EVENT_PATH w with
  | Some github_event_path =>
      if Str.is_empty github_event_path then mret empty_event
      else
        match open_event_file w github_event_path with
        | EventLoaded e => mret e
        | EventOSError =>
            log ERROR ("Failed to open GITHUB_EVENT_PATH " +:+ github_event_path
                       +:+ ": {}");;
            mret empty_event
        | EventJSONDecodeError =>
            log ERROR ("Failed to parse GITHUB_EVENT_PATH " +:+ github_event_path
                       +:+ ": {}");;
            mret empty_event
        end
  | None => mret empty_event
  end.

(** [not event] for a dict: it has no key at all. *)
Definition event_is_empty (e : GithubEvent) : bool :=
  match ev_action e, ev_issue e, ev_comment e with
  | None, None, None => negb (ev_other_keys e)
  | _, _, _ => false
  end.

(** [d[key]] *)
Definition subscript {A : Type} (key : string) (v : option A) : M A :=
  match v with
  | Some a => mret a
  | None => raise (KeyError key)
  end.

Definition is_valid_event (event : GithubEvent) : M bool :=
  if event_is_empty event then mret false
  else
    action ← subscript "action" (ev_action event);
    if negb (bool_decide (action = "created")) then
      log INFO "The event is not a comment";;
      mret false
    else
      issue ← subscript "issue" (ev_issue event);
      if negb (issue_has_pull_request issue) then
        log INFO "The issue is not a pull request";;
        mret false
      else mret true.

(** ** The command (lines 134-177) *)

Module Regex.

(** [(?::([\w.-]+))?] at the start of [s]: the group and what remains.
    The class excludes the space that must follow, so the longest run is
    the only one a match can use. *)
Definition optional_branch (s : string) : option string * string :=
  match s with
  | String ":" s' =>
      let '(b, rest) := Str.span Chars.is_branch_char s' in
      if Str.is_empty b then (None, s) else (Some b, rest)
  | _ => (None, s)
  end.

(** [command_pattern.search(s)] for the pattern of line 143: the three
    groups of the match, if there is one.  The pattern is, in order: the
    start of the string, the text /merge, the optional branch group, a
    space and head=, forty characters of the hexadecimal class (group 2),
    any run of characters that are not newlines (group 3), and the end
    of the string or the place before a last newline (no flag is
    set). *)
Definition command_pattern_search (s : string)
  : option (option string * string * string) :=
  match Str.strip_prefix "/merge" s with
  | None => None
  | Some s1 =>
      let '(g1, s2) := optional_branch s1 in
      match Str.strip_prefix " head=" s2 with
      | None => None
      | Some s3 =>
          let g2 := Str.take 40 s3 in
          if (String.length g2 =? 40)%nat && Str.forallb Chars.is_hex g2 then
            let '(g3, tail) := Str.span Chars.is_dot (Str.drop 40 s3) in
            if bool_decide (tail = "") || bool_decide (tail = String "010" "")
            then Some (g1, g2, g3)
            else None
          else None
      end
  end.

(** The handles of line 173: every match of an at-sign followed by one
    to thirty-nine characters of [[a-zA-Z0-9-]], without the at-sign.
    Matches are found left to right, each as long as it can be, and do
    not overlap; [skip] counts the characters of the last match still to
    be passed. *)
Fixpoint findall_handles (skip : nat) (s : string) : list string :=
  match s with
  | EmptyString => []
  | String c s' =>
      match skip with
      | S k => findall_handles k s'
      | O =>
          if Chars.is_char "@" c then
            let h := Str.span_upto 39 Chars.is_handle_char s' in
            if Str.is_empty h then findall_handles 0 s'
            else h :: findall_handles (String.length h) s'
          else findall_handles 0 s'
      end
  end.

End Regex.

Definition nl : string := String "010" "".

Fixpoint repr_items (l : list string) : string :=
  match l with
  | [] => ""
  | [x] => "'" +:+ x +:+ "'"
  | x :: rest => "'" +:+ x +:+ "', " +:+ repr_items rest
  end.

Definition repr_list (l : list string) : string := "[" +:+ repr_items l +:+ "]".

Definition parse_merge_command (github_comment : string)
  : M (option string * option string * option (list string)) :=
  if negb (Str.startswith github_comment "/merge") then
    log INFO "The comment does not start with '/merge'";;
    mret (None, None, None)
  else
    match Regex.command_pattern_search github_comment with
    | None =>
        log INFO ("The comment is not a valid '/merge' command." +:+ nl
          +:+ "Format: '/merge:<optional target repo default branch, default: master> "
          +:+ "head=<pr head commit sha 40 chars> "
          +:+ "<optional extra collaborators @foo @baz, default: pr author>'");;
        mret (None, None, None)
    | Some (g1, g2, g3) =>
        let branch_match := default "master" g1 in
        let target_repo_default_branch :=
          if bool_decide (branch_match = "master") || bool_decide (branch_match = "beta")
          then branch_match
          else "branch/" +:+ branch_match in
        log INFO ("Got target branch " +:+ target_repo_default_branch
                  +:+ " from comment");;
        let pr_head_sha := g2 in
        log INFO ("Got PR HEAD SHA " +:+ pr_head_sha +:+ " from comment");;
        let rest_comment := g3 in
        let additional_colbs := Regex.findall_handles 0 rest_comment in
        log INFO ("Got additional collaborators " +:+ repr_list additional_colbs
                  +:+ " from comment");;
        mret (Some target_repo_default_branch, Some pr_head_sha,
              Some additional_colbs)
    end.

(** ** Handles of remote objects *)

Record Organization := { org_login : string }.
Record Team := { Team_slug : string }.
Record NamedUser := { NamedUser_login : string }.
Record Issue := { iss_number : Z; iss_locked : bool }.

(** [for x in l: body(x)] *)
Fixpoint for_each {A : Type} (l : list A) (body : A -> M unit) : M unit :=
  match l with
  | [] => mret tt
  | x :: rest => body x;; for_each rest body
  end.

(** [org.get_repo(name)]: the service answers with the repository of
    that name, or with status 404 when the organization has none. *)
Definition org_get_repo (org : Organization) (name : string) : M Repository :=
  request (OrgGetRepo name) (fun _ => tt);;
  w ← get_world;
  if bool_decide (name ∈ org_repos w) then mret (repo_handle name)
  else raise (GithubException 404).

(** [org.create_repo(name)]: names are unique in an organization; the
    service refuses a second repository of a name with status 422. *)
Definition org_create_repo (org : Organization) (name : string) : M Repository :=
  request (OrgCreateRepo name) (fun _ => tt);;
  w ← get_world;
  if bool_decide (name ∈ org_repos w) then raise (GithubException 422)
  else fun w' => (Ret (repo_handle name), add_repo name w').

Definition repo_get_pull (repo : Repository) (number : Z) : M PullRequest :=
  request (RepoGetPull number) (fun s => srv_pull s number).

Definition org_get_team_by_slug (org : Organization) (slug : string) : M Team :=
  request (OrgGetTeamBySlug slug) (fun _ => {| Team_slug := slug |}).

(** ** Provisioning (lines 180-220) *)

Definition get_repo_in_org (org : Organization) (repo_name : string)
  : M (option Repository) :=
  try_except
    (repo ← org_get_repo org repo_name; mret (Some repo))
    (fun err =>
       match err with
       | GithubException status =>
           Some (if (status =? 404)%Z then
                   log INFO ("Repository " +:+ repo_name
                             +:+ " does not exist in the organization");;
                   mret None
                 else
                   log ERROR ("Unexpected error from GitHub while fetching repository "
                              +:+ repo_name +:+ ": " +:+ str_exn err);;
                   mret None)
       | _ => None
       end).

Definition repo_exists_in_org (org : Organization) (repo_name : string) : M bool :=
  r ← get_repo_in_org org repo_name;
  mret (bool_decide (r ≠ None)).

Definition create_new_flathub_repo (org : Organization) (repo_name : string)
  : M (option Repository) :=
  found ← repo_exists_in_org org repo_name;
  if (found : bool) then mret None
  else
    try_except
      (log INFO ("Creating repository " +:+ repo_name);;
       repo ← org_create_repo org repo_name;
       sleep 5;;
       request (RepoEdit (repo_name)
                  ("https://flathub.org/apps/details/" +:+ repo_name) true)
               (fun _ => tt);;
       mret (Some repo))
      (fun err =>
         match err with
         | GithubException _ =>
             Some (log ERROR ("Failed to create or edit GitHub repository "
                              +:+ repo_name +:+ ": " +:+ str_exn err);;
                   mret None)
         | _ => None
         end).

(** ** Publication (lines 223-295, 392-434) *)

Definition push_to_flathub_remote (repo_path local_branch remote_branch : string)
  : M bool :=
  try_except
    (log INFO "Pushing changes to the new Flathub repo";;
     request (GitPush repo_path (local_branch +:+ ":" +:+ remote_branch))
             (fun _ => tt);;
     mret true)
    (fun err =>
       match err with
       | CalledProcessError output =>
           Some (log ERROR ("Git push failed:" +:+ nl +:+ Str.strip output);;
                 mret false)
       | _ => None
       end).

(** The two GraphQL requests of [set_protected_branch]; the response of
    the mutation is what the function returns, and its only caller drops
    it. *)
Definition set_protected_branch (token repo branch : string) : M unit :=
  repo_id ← request (GqlGetRepoId repo) (fun s => srv_repo_id s repo);
  request (GqlAddBranchProtection repo_id branch) (fun _ => tt).

Definition protected_patterns : list string :=
  ["master"; "main"; "stable"; "branch/*"; "beta"; "beta/*"].

Definition finalize_new_flathub_repo
    (cloned_repo_obj : Clone) (remote_repo_obj : Repository)
    (repo_name github_token pr_branch target_remote_branch approved_pr_sha
       clone_path : string) : M bool :=
  log INFO "Adding Flathub remote";;
  request (RemotesCreate "flathub"
             ("https://x-access-token:" +:+ github_token
              +:+ "@github.com/flathub/" +:+ repo_name))
          (fun _ => tt);;
  pushed ← push_to_flathub_remote clone_path pr_branch target_remote_branch;
  if negb pushed then mret false
  else
    log INFO "Removing 'flathubbot' from collaborators";;
    request (RepoRemoveFromCollaborators
               (Repository_name remote_repo_obj) "flathubbot")
            (fun _ => tt);;
    log INFO "Setting protected branches";;
    for_each protected_patterns
      (fun branch => set_protected_branch github_token repo_name branch);;
    remote_branch_obj ←
      request (RepoGetBranch (Repository_name remote_repo_obj)
                 target_remote_branch)
              (fun s => srv_branch s (Repository_name remote_repo_obj)
                          target_remote_branch);
    let remote_head_sha := branch_commit_sha remote_branch_obj in
    if negb (bool_decide (remote_head_sha = approved_pr_sha)) then
      log ERROR ("Remote HEAD SHA " +:+ remote_head_sha
                 +:+ " does not match approved SHA " +:+ approved_pr_sha);;
      mret false
    else if negb (bool_decide (branch_protected remote_branch_obj = Some true)) then
      log ERROR ("Remote branch " +:+ target_remote_branch +:+ " is not protected");;
      mret false
    else mret true.

(** ** Access grant (lines 298-327) *)

(** The value of [teams_to_add] when the [try] block is entered. *)
Definition teams_to_add (name : string) : list string :=
  (["trusted-maintainers"]
   ++ (if Str.startswith name "org.kde." then ["KDE"]
       else if Str.startswith name "org.gnome."
               && bool_decide (Str.count "." name = 2)
            then ["GNOME"]
            else []))%list.

Definition add_all_collaborators
    (org : Organization) (created_repo_obj : Repository)
    (collaborators : list string) : M bool :=
  let teams := teams_to_add (Repository_name created_repo_obj) in
  try_except
    (for_each collaborators
       (fun user =>
          log INFO ("Adding user " +:+ user +:+ " to collaborators");;
          request (RepoAddToCollaborators (Repository_name created_repo_obj)
                     user "push")
                  (fun _ => tt));;
     for_each teams
       (fun team =>
          log INFO ("Adding team " +:+ team +:+ " to collaborators");;
          team_slug ← org_get_team_by_slug org team;
          request (TeamUpdateTeamRepository (Team_slug team_slug)
                     (Repository_name created_repo_obj) "push")
                  (fun _ => tt));;
     mret true)
    (fun err =>
       match err with
       | GithubException _ =>
           Some (log ERROR ("Failed to set collaborators to GitHub repository: "
                            +:+ str_exn err);;
                 mret false)
       | _ => None
       end).

(** ** Authorization (lines 341-354) *)

(** [str(user)] of a [NamedUser], which is its [repr]: the name of the
    class and the login between double quotes. *)
Definition str_NamedUser (user : NamedUser) : string :=
  "NamedUser(login=" +:+ String "034" (NamedUser_login user)
  +:+ String "034" ")".

Definition has_in_members (team : Team) (user : NamedUser) : M bool :=
  request (TeamHasInMembers (Team_slug team) (NamedUser_login user))
          (fun s => srv_is_member s (Team_slug team) (NamedUser_login user)).

Definition is_authorized_commenter (org : Organization) (comment_author : NamedUser)
  : M bool :=
  admins ← org_get_team_by_slug org "admins";
  reviewers ← org_get_team_by_slug org "reviewers";
  is_admin ← has_in_members admins comment_author;
  (* [or] asks the reviewers team only when the first answer is False *)
  member ← (if (is_admin : bool) then mret true
            else has_in_members reviewers comment_author);
  if negb member then
    log ERROR ("GitHub comment author " +:+ str_NamedUser comment_author
               +:+ " is not a reviewer or an admin");;
    mret false
  else mret true.

(** ** Source acquisition (lines 357-389) *)

Definition clone_pr_fork
    (parent_repo_obj : Repository) (pr_id : Z)
    (fork_url pr_branch approved_head_sha clone_path : string)
  : M (option Clone) :=
  log INFO ("Cloning the public fork " +:+ fork_url +:+ " from the PR branch "
            +:+ pr_branch);;
  clone ← request (CloneRepository fork_url clone_path pr_branch)
            (fun s => {| clone_head_target := srv_fork_head s fork_url pr_branch |});
  let clone_head_sha := clone_head_target clone in
  request SubmodulesUpdate (fun _ => tt);;
  pr_tmp ← repo_get_pull parent_repo_obj pr_id;
  if negb (bool_decide (pr_state pr_tmp = "open")) then
    log ERROR "The PR state is unexpectedly not open";;
    mret None
  else if negb (bool_decide (clone_head_sha = approved_head_sha))
          || negb (bool_decide (pr_head_sha pr_tmp = approved_head_sha)) then
    log ERROR ("SHA mismatch: Clone HEAD " +:+ clone_head_sha +:+ ", PR HEAD "
               +:+ pr_head_sha pr_tmp +:+ ", Expected " +:+ approved_head_sha);;
    mret None
  else mret (Some clone).

(** ** Closure (lines 437-483) *)

Definition get_issue_from_pr (pr_obj : PullRequest) : M (option Issue) :=
  try_except
    (issue ← request (RepoGetIssue (pr_number pr_obj))
               (fun s => {| iss_number := pr_number pr_obj;
                            iss_locked := srv_issue_locked s (pr_number pr_obj) |});
     mret (Some issue))
    (fun err =>
       match err with
       | GithubException _ =>
           Some (log ERROR ("Failed to get issue from PR #"
                            +:+ pretty (pr_number pr_obj) +:+ ": " +:+ str_exn err);;
                 mret None)
       | _ => None
       end).

Definition close_comment (created_repo_obj : Repository) : string :=
  let maint_doc_url := "https://docs.flathub.org/docs/for-app-authors/maintenance" in
  let verif_doc_url := "https://docs.flathub.org/docs/for-app-authors/verification" in
  let blog_url := "https://docs.flathub.org/blog" in
  "A repository for this submission has been created: "
  +:+ Repository_html_url created_repo_obj +:+ " "
  +:+ "and it will be published to Flathub within a few hours." +:+ nl
  +:+ "You will receive an [invite](" +:+ Repository_html_url created_repo_obj
  +:+ "/invitations) "
  +:+ "to be a collaborator on the repository. Please make sure to enable "
  +:+ "2FA on GitHub and accept the invite within a week." +:+ nl
  +:+ "Please go through the [App maintenance guide](" +:+ maint_doc_url +:+ ") "
  +:+ "if you have never maintained an app on Flathub before." +:+ nl
  +:+ "If you are the original developer (or an authorized party), please "
  +:+ "[verify your app](" +:+ verif_doc_url +:+ ") "
  +:+ "to let users know it's coming from you." +:+ nl
  +:+ "Please follow the [Flathub blog](" +:+ blog_url +:+ ") for the latest "
  +:+ "announcements." +:+ nl
  +:+ "Thanks!".

Definition close_pr (pr_obj : PullRequest) (created_repo_obj : Repository) : M bool :=
  try_except
    (log INFO "Closing the pull request";;
     request (PullSetLabels (pr_number pr_obj) "ready") (fun _ => tt);;
     request (PullCreateIssueComment (pr_number pr_obj)
                (close_comment created_repo_obj))
             (fun _ => tt);;
     request (PullEdit (pr_number pr_obj) "closed") (fun _ => tt);;
     issue_obj ← get_issue_from_pr pr_obj;
     match issue_obj with
     | Some issue =>
         if negb (iss_locked issue)
         then request (IssueLock (iss_number issue) "resolved") (fun _ => tt)
         else mret tt
     | None => mret tt
     end;;
     mret true)
    (fun err =>
       match err with
       | GithubException _ =>
           Some (log ERROR ("Unexpected error from GitHub while closing PR: "
                            +:+ str_exn err);;
                 mret false)
       | _ => None
       end).

(** ** The orchestrator (lines 486-583) *)

(** A [str | None] that passes Python's truth test. *)
Definition nonempty (s : option string) : option string :=
  match s with
  | Some x => if Str.is_empty x then None else Some x
  | None => None
  end.

Definition main : M Z :=
  w ← get_world;
  match nonempty (INPUT_TOKEN w) with
  | None =>
      log ERROR "Token is not set";;
      mret 1%Z
  | Some github_token =>
  github_event ← load_github_event;
  valid ← is_valid_event github_event;
  if negb valid then mret 1%Z else
  comment ← subscript "comment" (ev_comment github_event);
  let github_comment := comment_body comment in
  parsed ← parse_merge_command github_comment;
  match parsed : option string * option string * option (list string) with
  | (branch, sha, colbs) =>
  match nonempty branch, nonempty sha, colbs with
  | Some target_repo_default_branch, Some approved_pr_head_sha, Some additional_colbs =>
  org ← request (GetOrganization "flathub") (fun _ => {| org_login := "flathub" |});
  flathub ← org_get_repo org "flathub";
  comment_author ←
    request (GetUser (comment_user_login comment))
            (fun _ => {| NamedUser_login := comment_user_login comment |});
  issue ← subscript "issue" (ev_issue github_event);
  let pr_id := issue_number issue in
  pr ← repo_get_pull flathub pr_id;
  pr_branch ← match Str.split ":" (pr_head_label pr) with
              | _ :: b :: _ => mret b
              | _ => raise IndexError
              end;
  fork_url ← match pr_head_repo_clone_url pr with
             | Some url => mret url
             | None => raise AttributeError
             end;
  let pr_author := pr_user_login pr in
  let additional_colbs := (additional_colbs ++ [pr_author])%list in
  authorized ← is_authorized_commenter org comment_author;
  if negb authorized then mret 1%Z else
  with_tmpdir (fun tmpdir =>
    cloned ← clone_pr_fork flathub pr_id fork_url pr_branch
               approved_pr_head_sha tmpdir;
    match cloned with
    | None => mret 1%Z
    | Some cloned_obj =>
    detected ← detect_appid tmpdir;
    match nonempty (fst detected), nonempty (snd detected) with
    | Some manifest_file, Some appid =>
    created ← create_new_flathub_repo org appid;
    match created with
    | None =>
        log ERROR "Failed to get GitHub repo after creation";;
        mret 1%Z
    | Some created_repo_obj =>
    published ← finalize_new_flathub_repo cloned_obj created_repo_obj appid
                  github_token pr_branch target_repo_default_branch
                  approved_pr_head_sha tmpdir;
    if negb published then mret 1%Z else
    granted ← add_all_collaborators org created_repo_obj additional_colbs;
    if negb granted then mret 1%Z else
    pr_now ← repo_get_pull flathub pr_id;
    if negb (bool_decide (pr_state pr_now = "open")) then
      log ERROR "The PR state is unexpectedly not open";;
      mret 1%Z
    else
    closed ← close_pr pr created_repo_obj;
    if negb closed then mret 1%Z else
    pr_after ← repo_get_pull flathub pr_id;
    if negb (bool_decide (pr_state pr_after = "closed")) then
      log ERROR "The PR state is unexpectedly not closed";;
      mret 1%Z
    else mret 0%Z
    end
    | _, _ =>
        log ERROR "Failed to detect manifest file or appid";;
        mret 1%Z
    end
    end)
  | _, _, _ => mret 1%Z
  end
  end
  end.

(** [raise SystemExit(main())]: the exit status is what [main] returns;
    an exception nobody caught ends the interpreter with status 1. *)
Definition exit_status (r : outcome Z) : Z :=
  match r with
  | Ret code => code
  | Raise _ => 1%Z
  end.

(** * Vocabulary of the specification *)

Definition result {A : Type} (m : M A) (w : World) : outcome A := (m w).1.
Definition after {A : Type} (m : M A) (w : World) : World := (m w).2.

(** A discipline is a preorder on worlds that one emitted event keeps,
    when the event is [ok], and that a tick of the clock keeps.  A
    computation [steps] in it when each of its runs relates the world
    before to the world after. *)
Class Discipline (R : relation World) (ok : Event -> Prop) := {
  discipline_preorder :: PreOrder R;
  discipline_emit : forall e w, ok e -> R w (emit e w);
  discipline_tick : forall w, R w (tick w)
}.

Definition steps (R : relation World) {A : Type} (m : M A) : Prop :=
  forall w, R w (after m w).

(** The trace only grows. *)
Definition extends (w w' : World) : Prop :=
  exists evs, trace w' = (trace w ++ evs)%list.

(** No call fails from now on. *)
Definition calm (w : World) : Prop := forall i, faults w i = None.

(** The text before the head token has no space in it. *)
Definition no_space (s : string) : bool :=
  Str.forallb (fun c => negb (Chars.is_char " " c)) s.

(** The team grants of a trace, in order: team and permission. *)
Definition team_grants (evs : list Event) : list (string * string) :=
  omap (fun e => match e with
                 | Call (TeamUpdateTeamRepository team _ permission) =>
                     Some (team, permission)
                 | _ => None
                 end) evs.

(** ** Worlds for the examples *)

Definition sha_a : string := "aaaaaaaaaaaaaaaaaaaaaaaaaaaaaaaaaaaaaaaa".
Definition sha_b : string := "bbbbbbbbbbbbbbbbbbbbbbbbbbbbbbbbbbbbbbbb".

Definition sample_pull (state head : string) (number : Z) : PullRequest :=
  {| pr_number := number; pr_state := state; pr_head_sha := head;
     pr_head_label := "alice:topic";
     pr_head_repo_clone_url := Some "https://github.com/alice/flathub.git";
     pr_user_login := "alice" |}.

(** A service whose fork is at [fork_head], whose review request is at
    [pr_head], and whose branches are at [branch_head]. *)
Definition sample_service (state fork_head pr_head branch_head : string) : Service :=
  {| srv_pull := sample_pull state pr_head;
     srv_is_member := fun team _ => bool_decide (team = "reviewers");
     srv_branch := fun _ _ =>
       {| branch_commit_sha := branch_head; branch_protected := Some true |};
     srv_issue_locked := fun _ => false;
     srv_repo_id := fun _ => "R_1";
     srv_fork_head := fun _ _ => fork_head |}.

Definition sample_event (body : string) : GithubEvent :=
  {| ev_action := Some "created";
     ev_issue := Some {| issue_has_pull_request := true; issue_number := 7 |};
     ev_comment := Some {| comment_body := body; comment_user_login := "rev" |};
     ev_other_keys := true |}.

Definition sample_world (files : list DirEntry) (repos : gset string)
    (srv : nat -> Service) (flt : nat -> option exn) : World :=
  {| INPUT_TOKEN := Some "tok"; GITHUB_EVENT_PATH := Some "/event.json";
     open_event_file := fun _ => EventLoaded (sample_event ("/merge head=" +:+ sha_a));
     mkdtemp := "/tmp/clone"; listdir := fun _ => files;
     org_repos := repos; service := srv; faults := flt;
     clock := 0; trace := [] |}.

Definition idle_world : World :=
  sample_world [] ∅ (fun _ => sample_service "open" sha_a sha_a sha_a)
    (fun _ => None).

(** The patterns for which the branch-protection mutation was sent, in
    order. *)
Definition protection_attempts (evs : list Event) : list string :=
  omap (fun e => match e with
                 | Call (GqlAddBranchProtection _ pattern) => Some pattern
                 | _ => None
                 end) evs.

(** The messages logged at level ERROR, in order. *)
Definition error_logs (evs : list Event) : list string :=
  omap (fun e => match e with
                 | Log ERROR message => Some message
                 | _ => None
                 end) evs.

(** A world in which only the call number [n] fails. *)
Definition fails_at (n : nat) (e : exn) : nat -> option exn :=
  fun i => if bool_decide (i = n) then Some e else None.

(** ** Directories for the examples *)

Definition no_json : json_outcome := {| json_error := None; json_root := None |}.

(** A JSON file that does not parse: the load raises, and the parser has
    no root afterwards. *)
Definition bad_json_file (name : string) : DirEntry :=
  {| entry_name := name; entry_is_file := true;
     entry_yaml := YamlFailed "not read as YAML";
     entry_json := {| json_error := Some "unexpected character"; json_root := None |} |}.

(** A JSON manifest declaring [id] under the key [id]. *)
Definition json_manifest_file (name id : string) : DirEntry :=
  {| entry_name := name; entry_is_file := true;
     entry_yaml := YamlFailed "not read as YAML";
     entry_json := {| json_error := None;
                      json_root := Some (MDict {[ "id" := VStr id ]}) |} |}.

(** A YAML file that does not parse. *)
Definition bad_yaml_file (name : string) : DirEntry :=
  {| entry_name := name; entry_is_file := true;
     entry_yaml := YamlFailed "mapping values are not allowed here";
     entry_json := no_json |}.

(** A YAML manifest declaring [id] under the key [app-id]. *)
Definition yaml_manifest_file (name id : string) : DirEntry :=
  {| entry_name := name; entry_is_file := true;
     entry_yaml := YamlLoaded (MDict {[ "app-id" := VStr id ]});
     entry_json := no_json |}.

Definition world_with_files (files : list DirEntry) : World :=
  sample_world files {[ "flathub" ]}
    (fun _ => sample_service "open" sha_a sha_a sha_a) (fun _ => None).

(** ** Mutations of the review request *)

(** The calls that change the review request or its thread: labelling,
    commenting, closing, locking. *)
Definition mutates_review_request (e : Event) : bool :=
  match e with
  | Call (PullSetLabels _ _) => true
  | Call (PullCreateIssueComment _ _) => true
  | Call (PullEdit _ _) => true
  | Call (IssueLock _ _) => true
  | _ => false
  end.

(** The first thing the closure step does. *)
Definition closure_entered : Event := Log INFO "Closing the pull request".

(** From [w] to [w'] the trace grew, and it grew by events that leave
    the review request alone unless the closure step was entered. *)
Definition closure_guarded (w w' : World) : Prop :=
  exists evs,
    trace w' = (trace w ++ evs)%list
    /\ (Forall (fun e => mutates_review_request e = false) evs
        \/ closure_entered ∈ evs).

#[export] Instance level_eq_dec : EqDecision level.
Proof. solve_decision. Defined.

#[export] Instance api_call_eq_dec : EqDecision api_call.
Proof. solve_decision. Defined.

#[export] Instance Event_eq_dec : EqDecision Event.
Proof. solve_decision. Defined.

(** ** What lies behind provisioning *)

(** The calls of the publication, grant and closure steps. *)
Definition downstream (e : Event) : bool :=
  match e with
  | Call (RemotesCreate _ _) | Call (GitPush _ _)
  | Call (RepoRemoveFromCollaborators _ _)
  | Call (GqlGetRepoId _) | Call (GqlAddBranchProtection _ _)
  | Call (RepoGetBranch _ _) => true
  | Call (RepoAddToCollaborators _ _ _)
  | Call (TeamUpdateTeamRepository _ _ _) => true
  | Call (PullSetLabels _ _) | Call (PullCreateIssueComment _ _)
  | Call (PullEdit _ _) | Call (RepoGetIssue _) | Call (IssueLock _ _) => true
  | _ => false
  end.

(** From [w] to [w'] the local files are the same and the trace grew by
    events before publication only; with [keep_repos], the repositories
    of the organization are the same too. *)
Definition upstream (keep_repos : bool) (w w' : World) : Prop :=
  listdir w' = listdir w
  /\ mkdtemp w' = mkdtemp w
  /\ (keep_repos = true -> org_repos w' = org_repos w)
  /\ exists evs,
       trace w' = (trace w ++ evs)%list
       /\ Forall (fun e => downstream e = false) evs.

(** Started anywhere upstream of [w0], the computation ends with exit
    status 1, still upstream of [w0]. *)
Definition stops (w0 : World) (m : M Z) : Prop :=
  forall w, upstream true w0 w ->
    exit_status (result m w) = 1%Z /\ upstream true w0 (after m w).

(** The result of the computation does not depend on the world. *)
Definition pure_result {A : Type} (m : M A) : Prop :=
  forall w1 w2, result m w1 = result m w2.

#[export] Instance outcome_eq_dec {A : Type} `{EqDecision A} : EqDecision (outcome A).
Proof. solve_decision. Defined.

(** ** Candidates of the resolver *)

(** Reading the candidate does not raise. *)
Definition reads_cleanly (dirname : string) (w : World) (f : DirEntry) : Prop :=
  exists v,
    result (_get_id_from_flatpak_manifest (Path.join dirname (entry_name f)) f) w
    = Ret v.

(** The identifier the candidate declares is a non-empty string, and it
    is the base name of the file without its extension. *)
Definition self_named (dirname : string) (w : World) (f : DirEntry) : bool :=
  bool_decide
    (result (_get_id_from_flatpak_manifest (Path.join dirname (entry_name f)) f) w
     = Ret (Some (VStr (Path.splitext_root (entry_name f)))))
  && negb (Str.is_empty (Path.splitext_root (entry_name f))).

(** * Vocabulary for the further properties *)

(** ** The command format *)

(** A handle as the collaborator pattern takes it whole: one to
    thirty-nine characters of [[a-zA-Z0-9-]]. *)
Definition valid_handle (h : string) : bool :=
  negb (Str.is_empty h)
  && (String.length h <=? 39)%nat
  && Str.forallb Chars.is_handle_char h.

(** A branch qualifier as the command pattern takes it whole: one or
    more characters of the class of group 1. *)
Definition valid_qualifier (b : string) : bool :=
  negb (Str.is_empty b) && Str.forallb Chars.is_branch_char b.

(** A head identifier: forty hexadecimal characters. *)
Definition valid_sha (s : string) : bool :=
  (String.length s =? 40)%nat && Str.forallb Chars.is_hex s.

(** The mentions of a command: each handle behind a space and an
    at-sign. *)
Fixpoint mentions (handles : list string) : string :=
  match handles with
  | [] => ""
  | h :: rest => " @" +:+ h +:+ mentions rest
  end.

(** The command as the format line of the parser describes it. *)
Definition format_command (qualifier : option string) (sha : string)
    (handles : list string) : string :=
  "/merge"
  +:+ match qualifier with Some b => ":" +:+ b | None => "" end
  +:+ " head=" +:+ sha +:+ mentions handles.


(** The calls of a trace, in order. *)
Definition calls (evs : list Event) : list api_call :=
  omap (fun e => match e with Call c => Some c | _ => None end) evs.

(** What was added to the trace between [w] and [w']. *)
Definition since (w w' : World) : list Event :=
  drop (length (trace w)) (trace w').

(** From [w] to [w'] the environment, the service and the local files
    are the same, and the trace grew by [allowed] events only. *)
Definition frame (allowed : Event -> bool) (w w' : World) : Prop :=
  INPUT_TOKEN w' = INPUT_TOKEN w
  /\ GITHUB_EVENT_PATH w' = GITHUB_EVENT_PATH w
  /\ open_event_file w' = open_event_file w
  /\ service w' = service w
  /\ mkdtemp w' = mkdtemp w
  /\ listdir w' = listdir w
  /\ exists evs,
       trace w' = (trace w ++ evs)%list
       /\ Forall (fun e => allowed e = true) evs.

(** Started anywhere in the frame of [w0], the computation ends with
    exit status 1, still in the frame of [w0]. *)
Definition halts (allowed : Event -> bool) (w0 : World) (m : M Z) : Prop :=
  forall w, frame allowed w0 w ->
    exit_status (result m w) = 1%Z /\ frame allowed w0 (after m w).

Definition is_log (e : Event) : bool :=
  match e with Log _ _ => true | _ => false end.

(** Log lines, and the calls that only ask the service for something. *)
Definition reads_only (e : Event) : bool :=
  match e with
  | Log _ _ => true
  | Call (GetOrganization _) | Call (OrgGetRepo _) | Call (GetUser _)
  | Call (RepoGetPull _) | Call (OrgGetTeamBySlug _)
  | Call (TeamHasInMembers _ _) => true
  | _ => false
  end.

Definition outside_tmpdir (e : Event) : bool :=
  match e with
  | TmpdirCreated _ | TmpdirRemoved _ => false
  | _ => true
  end.

(** No temporary directory is made, or one is made and its removal is
    the last event. *)
Definition tidy (evs : list Event) : Prop :=
  Forall (fun e => outside_tmpdir e = true) evs
  \/ exists path before inside,
       evs = (before ++ TmpdirCreated path :: inside ++ [TmpdirRemoved path])%list
       /\ Forall (fun e => outside_tmpdir e = true) before
       /\ Forall (fun e => outside_tmpdir e = true) inside.

Definition cleans_up {A : Type} (m : M A) : Prop :=
  forall w, extends w (after m w) /\ tidy (since w (after m w)).

(** The two GraphQL calls of each protected pattern, the first of them
    being call number [start]. *)
Definition protection_calls (w : World) (start : nat) (repo : string)
    (patterns : list string) : list api_call :=
  mjoin (imap (fun k pattern =>
                 [GqlGetRepoId repo;
                  GqlAddBranchProtection
                    (srv_repo_id (service w (start + 2 * k)) repo) pattern])
              patterns).

(** Events other than a branch protection or a team grant. *)
Definition grants_nothing (e : Event) : bool :=
  match e with
  | Call (GqlAddBranchProtection _ _) | Call (TeamUpdateTeamRepository _ _ _) => false
  | _ => true
  end.

(** How far the promotion has come at [w], counted from [w0]: the
    patterns protected, the teams granted access, and events that took
    place. *)
Definition progress (w0 w : World) (patterns : list string)
    (teams : list (string * string)) (marks : list Event) : Prop :=
  extends w0 w
  /\ protection_attempts (since w0 w) = patterns
  /\ team_grants (since w0 w) = teams
  /\ Forall (fun e => e ∈ since w0 w) marks.

(** What a run that returns 0 has established when it started from a
    world in [I]. *)
Definition on_success (I : World -> Prop) (m : M Z) (Q : World -> Prop) : Prop :=
  forall w, I w -> result m w = Ret 0%Z -> Q (after m w).

(** Log lines, calls that only read, and the work on the local clone. *)
Definition inspects_only (e : Event) : bool :=
  reads_only e
  || match e with
     | TmpdirCreated _ | TmpdirRemoved _ => true
     | Call (CloneRepository _ _ _) | Call SubmodulesUpdate => true
     | _ => false
     end.

(** In the frame of the events that grant nothing, [k] calls after
    [w0]. *)
Definition at_call (w0 : World) (k : nat) (w : World) : Prop :=
  frame grants_nothing w0 w /\ clock w = k + clock w0.
(** * Reasoning about runs *)

Lemma run_bind {A B : Type} (m : M A) (f : A -> M B) (w : World) :
  (m ≫= f) w =
  match m w with
  | (Ret a, w') => f a w'
  | (Raise e, w') => (Raise e, w')
  end.
Proof. reflexivity. Qed.

Lemma run_ret {A : Type} (a : A) (w : World) : (mret a : M A) w = (Ret a, w).
Proof. reflexivity. Qed.

Section Steps.
Context {R : relation World} {ok : Event -> Prop} `{!Discipline R ok}.

Lemma steps_ret {A : Type} (a : A) : steps R (mret a : M A).
Proof. intros w. reflexivity. Qed.

Lemma steps_raise {A : Type} (e : exn) : steps R (raise e : M A).
Proof. intros w. reflexivity. Qed.

Lemma steps_get_world : steps R get_world.
Proof. intros w. reflexivity. Qed.

Lemma steps_bind {A B : Type} (m : M A) (f : A -> M B) :
  steps R m -> (forall a, steps R (f a)) -> steps R (m ≫= f).
Proof.
  intros Hm Hf w. unfold after. rewrite run_bind.
  specialize (Hm w). unfold after in Hm.
  destruct (m w) as [[a|e] w']; simpl in *; [|done].
  etransitivity; [exact Hm|apply Hf].
Qed.

Lemma steps_try_except {A : Type} (body : M A) (handler : exn -> option (M A)) :
  steps R body ->
  (forall e h, handler e = Some h -> steps R h) ->
  steps R (try_except body handler).
Proof.
  intros Hb Hh w. unfold after, try_except.
  specialize (Hb w). unfold after in Hb.
  destruct (body w) as [[a|e] w']; simpl in *; [done|].
  destruct (handler e) as [h|] eqn:E; [|done].
  etransitivity; [exact Hb|eapply Hh, E].
Qed.

Lemma steps_log (lvl : level) (message : string) :
  ok (Log lvl message) -> steps R (log lvl message).
Proof. intros H w. by apply discipline_emit. Qed.

Lemma steps_sleep (seconds : Z) : ok (Sleep seconds) -> steps R (sleep seconds).
Proof. intros H w. by apply discipline_emit. Qed.

Lemma steps_request {A : Type} (c : api_call) (answer : Service -> A) :
  ok (Call c) -> steps R (request c answer).
Proof.
  intros H w. unfold after, request.
  assert (R w (tick (emit (Call c) w))).
  { etransitivity; [by apply discipline_emit|apply discipline_tick]. }
  by destruct (faults w (clock w)).
Qed.

Lemma steps_subscript {A : Type} (key : string) (v : option A) :
  steps R (subscript key v).
Proof. destruct v; [apply steps_ret|apply steps_raise]. Qed.

Lemma steps_for_each {A : Type} (l : list A) (body : A -> M unit) :
  (forall x, steps R (body x)) -> steps R (for_each l body).
Proof.
  intros Hb. induction l as [|x l IH]; simpl.
  - apply steps_ret.
  - apply steps_bind; [apply Hb|intros _; apply IH].
Qed.

Lemma steps_with_tmpdir {A : Type} (body : string -> M A) :
  (forall path, ok (TmpdirCreated path)) ->
  (forall path, ok (TmpdirRemoved path)) ->
  (forall path, steps R (body path)) ->
  steps R (with_tmpdir body).
Proof.
  intros Hc Hr Hb w. unfold after, with_tmpdir.
  specialize (Hb (mkdtemp w) (emit (TmpdirCreated (mkdtemp w)) w)).
  unfold after in Hb.
  destruct (body _ _) as [r w']; simpl in *.
  etransitivity; [by apply discipline_emit|].
  etransitivity; [exact Hb|by apply discipline_emit].
Qed.
End Steps.

(** One step of a structural proof that a computation [steps]. *)
Ltac steps_structure :=
  lazymatch goal with
  | |- steps _ (mret _) => apply steps_ret
  | |- steps _ (raise _) => apply steps_raise
  | |- steps _ get_world => apply steps_get_world
  | |- steps _ (subscript _ _) => apply steps_subscript
  | |- steps _ (_ ≫= _) => apply steps_bind; [|intros ?]
  | |- steps _ (try_except _ _) =>
      apply steps_try_except; [|intros [] ? [= <-]]
  | |- steps _ (log _ _) => apply steps_log
  | |- steps _ (sleep _) => apply steps_sleep
  | |- steps _ (request _ _) => apply steps_request
  | |- steps _ (for_each _ _) => apply steps_for_each; intros ?
  | |- steps _ (with_tmpdir _) => apply steps_with_tmpdir; intros ?
  | |- steps _ (if ?b then _ else _) => destruct b
  | |- steps _ (match ?x with _ => _ end) => destruct x
  | |- steps _ (let _ := _ in _) => cbv zeta
  end.

(** ** Only growing the trace *)

#[export] Instance extends_discipline : Discipline extends (fun _ => True).
Proof.
  split.
  - split.
    + intros w. exists []. by rewrite app_nil_r.
    + intros w1 w2 w3 [e1 H1] [e2 H2]. exists (e1 ++ e2)%list.
      by rewrite H2, H1, app_assoc.
  - intros e w _. by exists [e].
  - intros w. exists []. simpl. by rewrite app_nil_r.
Qed.

Lemma steps_parse_merge_command_extends (c : string) :
  steps extends (parse_merge_command c).
Proof.
  unfold parse_merge_command. repeat steps_structure; done.
Qed.
(** * The command parser *)

Section StringFacts.
Implicit Types (s p q : string) (f : ascii -> bool).

Lemma append_nil p : "" +:+ p = p.
Proof. reflexivity. Qed.

Lemma append_cons (c : ascii) s p : String c s +:+ p = String c (s +:+ p).
Proof. reflexivity. Qed.

Lemma append_assoc s p q : (s +:+ p) +:+ q = s +:+ (p +:+ q).
Proof.
  induction s as [|c s IH]; [done|]. by rewrite !append_cons, IH.
Qed.

Lemma strip_prefix_Some p s r :
  Str.strip_prefix p s = Some r -> s = p +:+ r.
Proof.
  revert s. induction p as [|a p IH]; intros [|b s]; simpl; try done.
  - by intros [= <-].
  - by intros [= <-].
  - case_bool_decide; [|done]. subst. intros H.
    by rewrite (IH _ H), append_cons.
Qed.

Lemma strip_prefix_append p r : Str.strip_prefix p (p +:+ r) = Some r.
Proof.
  induction p as [|a p IH]; [done|].
  rewrite append_cons. simpl. by rewrite bool_decide_true.
Qed.

Lemma forallb_append f s p :
  Str.forallb f (s +:+ p) = Str.forallb f s && Str.forallb f p.
Proof.
  induction s as [|c s IH]; [done|].
  rewrite append_cons. simpl. by rewrite IH, andb_assoc.
Qed.

(** A span stops at the latest where a character outside the class
    follows. *)
Lemma span_append f s c q :
  f c = false ->
  Str.span f (s +:+ String c q) =
  ((Str.span f s).1, (Str.span f s).2 +:+ String c q).
Proof.
  intros Hc. induction s as [|a s IH].
  - rewrite append_nil. simpl. by rewrite Hc.
  - rewrite append_cons. simpl. destruct (f a); [|done].
    rewrite IH. by destruct (Str.span f s).
Qed.

Lemma span_rest_forallb f g s :
  Str.forallb g s = true -> Str.forallb g (Str.span f s).2 = true.
Proof.
  induction s as [|a s IH]; simpl; [done|].
  intros [Ha Hs]%andb_prop. destruct (f a).
  - destruct (Str.span f s) eqn:E. simpl in *. by apply IH.
  - simpl. by rewrite Ha, Hs.
Qed.

Lemma take_length_le n s : String.length (Str.take n s) <= n.
Proof.
  revert s. induction n as [|n IH]; intros [|c s]; simpl; try lia.
  specialize (IH s). lia.
Qed.

Lemma take_short n s :
  String.length s < n -> String.length (Str.take n s) < n.
Proof.
  revert s. induction n as [|n IH]; intros [|c s]; simpl; try lia.
  intros H. specialize (IH s). lia.
Qed.
End StringFacts.

Ltac str_norm := rewrite ?append_cons, ?append_nil.
Ltac str_norm_in H := rewrite ?append_cons, ?append_nil in H.

(** After a prefix without a space, [" head="] can only be matched where
    the prefix ends. *)
Lemma strip_head_after_no_space (p tok r : string) :
  no_space p = true ->
  Str.strip_prefix " head=" (p +:+ " head=" +:+ tok) = Some r ->
  p = "" /\ r = tok.
Proof.
  intros Hp. destruct p as [|c p]; str_norm; simpl.
  - rewrite ?bool_decide_true by done. by intros [= <-].
  - unfold no_space in Hp. simpl in Hp. apply andb_prop in Hp as [Hc _].
    unfold Chars.is_char in Hc.
    destruct (decide (c = " "%char)) as [->|Hne].
    + by rewrite bool_decide_true in Hc.
    + by rewrite bool_decide_false.
Qed.

Lemma optional_branch_no_space (p tok : string) (g1 : option string) (s2 r : string) :
  no_space p = true ->
  Regex.optional_branch (p +:+ " head=" +:+ tok) = (g1, s2) ->
  Str.strip_prefix " head=" s2 = Some r ->
  r = tok.
Proof.
  intros Hp. unfold Regex.optional_branch.
  destruct p as [|c p].
  { str_norm. simpl. intros [= <- <-]. simpl.
    rewrite ?bool_decide_true by done. by intros [= <-]. }
  assert (Hfall : forall g s, (g, s) = (g1, s2) ->
            s = String c p +:+ " head=" +:+ tok ->
            Str.strip_prefix " head=" s2 = Some r -> r = tok).
  { intros g s [= <- <-] -> H.
    by destruct (strip_head_after_no_space _ _ _ Hp H) as [? ?]. }
  rewrite append_cons.
  destruct (decide (c = ":"%char)) as [->|Hc].
  - rewrite (append_cons " " "head=" tok).
    rewrite (span_append Chars.is_branch_char p " " ("head=" +:+ tok)) by done.
    assert (Hp' : no_space p = true).
    { unfold no_space in *. by simpl in Hp. }
    destruct (Str.span Chars.is_branch_char p) as [b rest] eqn:E. simpl.
    destruct (Str.is_empty b).
    + intros H. eapply Hfall; [done|]. by rewrite !append_cons.
    + intros [= <- <-] H. rewrite <- (append_cons " " "head=" tok) in H.
      assert (Hrest : no_space rest = true).
      { pose proof (span_rest_forallb Chars.is_branch_char
          (fun c => negb (Chars.is_char " " c)) p Hp') as Hs.
        by rewrite E in Hs. }
      by destruct (strip_head_after_no_space _ _ _ Hrest H) as [? ?].
  - intros H. eapply Hfall; [|by rewrite append_cons].
    rewrite <- H. destruct c as [[] [] [] [] [] [] [] []]; try done.
Qed.

(** Whatever the pattern matches in a command with a head token, group 2
    is the first forty characters of the token. *)
Lemma command_pattern_search_head (pre tok : string) g1 g2 g3 :
  no_space pre = true ->
  Regex.command_pattern_search (pre +:+ " head=" +:+ tok) = Some (g1, g2, g3) ->
  g2 = Str.take 40 tok
  /\ String.length g2 = 40
  /\ Str.forallb Chars.is_hex g2 = true.
Proof.
  intros Hp. unfold Regex.command_pattern_search.
  destruct (Str.strip_prefix "/merge" _) as [s1|] eqn:E1; [|done].
  apply strip_prefix_Some in E1.
  assert (exists p', pre = "/merge" +:+ p' /\ s1 = p' +:+ " head=" +:+ tok
                     /\ no_space p' = true) as (p' & -> & -> & Hp').
  { unfold no_space in Hp.
    do 6 (destruct pre as [|? pre];
          [str_norm_in E1; discriminate E1|];
          str_norm_in E1; injection E1 as -> E1;
          simpl in Hp).
    exists pre. by subst. }
  destruct (Regex.optional_branch _) as [g s2] eqn:E2.
  destruct (Str.strip_prefix " head=" s2) as [s3|] eqn:E3; [|done].
  rewrite (optional_branch_no_space _ _ _ _ _ Hp' E2 E3).
  destruct (_ && _) eqn:E4; [|done].
  destruct (Str.span _ _) as [a b]. destruct (_ || _); [|done].
  intros [= <- <- <-]. apply andb_prop in E4 as [E4 E5].
  split; [done|]. split; [by apply Nat.eqb_eq|done].
Qed.

(** What [parse_merge_command] returns, without its log lines. *)
Lemma parse_merge_command_result (c : string) (w : World) :
  result (parse_merge_command c) w = Ret (None, None, None)
  \/ exists g1 g2 g3 branch,
       Regex.command_pattern_search c = Some (g1, g2, g3)
       /\ result (parse_merge_command c) w
          = Ret (Some branch, Some g2, Some (Regex.findall_handles 0 g3)).
Proof.
  unfold result, parse_merge_command.
  destruct (negb _); [by left|].
  destruct (Regex.command_pattern_search c) as [[[g1 g2] g3]|]; [|by left].
  right. by eexists g1, g2, g3, _.
Qed.

(** C7, as amended: the forty characters that follow [head=] must be
    hexadecimal.  When fewer than forty characters follow, or one of the
    first forty is not hexadecimal, parsing fails with all three outputs
    absent; when parsing succeeds, all three outputs are present and the
    head identifier is exactly those forty hexadecimal characters,
    whatever follows them. *)
Theorem parse_merge_command_head_token (pre tok : string) (w : World) :
  no_space pre = true ->
  let r := result (parse_merge_command (pre +:+ " head=" +:+ tok)) w in
  (String.length tok < 40 \/ Str.forallb Chars.is_hex (Str.take 40 tok) = false ->
   r = Ret (None, None, None))
  /\ (r = Ret (None, None, None)
      \/ exists branch colbs,
           r = Ret (Some branch, Some (Str.take 40 tok), Some colbs)
           /\ String.length (Str.take 40 tok) = 40
           /\ Str.forallb Chars.is_hex (Str.take 40 tok) = true).
Proof.
  intros Hp r.
  destruct (parse_merge_command_result (pre +:+ " head=" +:+ tok) w)
    as [H|(g1 & g2 & g3 & branch & Hs & H)].
  { split; [done|by left]. }
  destruct (command_pattern_search_head _ _ _ _ _ Hp Hs) as (-> & Hlen & Hhex).
  split.
  - intros [Hshort|Hbad].
    + apply take_short in Hshort. lia.
    + congruence.
  - right. by exists branch, (Regex.findall_handles 0 g3).
Qed.

Lemma parse_merge_command_head_token_witness :
  result (parse_merge_command ("/merge" +:+ " head=" +:+ "abc123")) idle_world
  = Ret (None, None, None).
Proof.
  apply (proj1 (parse_merge_command_head_token "/merge" "abc123" idle_world eq_refl)).
  left. simpl. lia.
Defined.

(** C7, as stated, fails: a head token of forty-one hexadecimal
    characters is not rejected; its first forty characters are taken as
    the head identifier. *)
Lemma parse_merge_command_long_token_accepted :
  String.length (sha_a +:+ "a") = 41
  /\ Str.forallb Chars.is_hex (sha_a +:+ "a") = true
  /\ result (parse_merge_command ("/merge head=" +:+ sha_a +:+ "a")) idle_world
     = Ret (Some "master", Some sha_a, Some []).
Proof. by vm_compute. Qed.

(** The two well-formed commands of the format line. *)
Example parse_merge_command_default_branch :
  result (parse_merge_command ("/merge head=" +:+ sha_a)) idle_world
  = Ret (Some "master", Some sha_a, Some []).
Proof. by vm_compute. Qed.

Example parse_merge_command_custom_branch :
  result (parse_merge_command ("/merge:custom head=" +:+ sha_b +:+ " @alice @bob"))
         idle_world
  = Ret (Some "branch/custom", Some sha_b, Some ["alice"; "bob"]).
Proof. by vm_compute. Qed.

(** * The access grant *)

Lemma startswith_append (s p : string) :
  Str.startswith s p = true -> exists r, s = p +:+ r.
Proof.
  unfold Str.startswith.
  destruct (Str.strip_prefix p s) as [r|] eqn:E; [|done].
  intros _. exists r. by apply strip_prefix_Some.
Qed.

(** Membership in a short list of team names is decided by comparing
    the names. *)
Ltac team_absent H :=
  apply list_elem_of_In in H; cbn in H; intuition discriminate.

Ltac team_present :=
  first [ apply list_elem_of_In; cbn; tauto
        | intros _; apply list_elem_of_In; cbn; tauto ].

Lemma teams_to_add_policy (name : string) :
  "trusted-maintainers" ∈ teams_to_add name
  /\ ("KDE" ∈ teams_to_add name <-> Str.startswith name "org.kde." = true)
  /\ ("GNOME" ∈ teams_to_add name <->
      Str.startswith name "org.gnome." = true /\ Str.count "." name = 2).
Proof.
  unfold teams_to_add.
  destruct (Str.startswith name "org.kde.") eqn:Ek.
  - apply startswith_append in Ek as [r ->]. cbn [app].
    split; [team_present|]. split; [split; [done|team_present]|]. split.
    + intros H. team_absent H.
    + intros [H _]. by vm_compute in H.
  - destruct (Str.startswith name "org.gnome.") eqn:Eg; cbn [andb app].
    + case_bool_decide as Hc; cbn [app].
      * split; [team_present|]. split; [|split; [done|team_present]].
        split; [|done]. intros H. team_absent H.
      * split; [team_present|]. split; split; try done.
        -- intros H. team_absent H.
        -- intros H. team_absent H.
        -- by intros [_ H].
    + split; [team_present|]. split; split; try done.
      * intros H. team_absent H.
      * intros H. team_absent H.
      * by intros [H _].
Qed.

(** * Source acquisition *)

Ltac run_unfold :=
  cbv [result after mbind M_bind mret M_ret request log sleep raise
       try_except get_world subscript repo_get_pull org_get_team_by_slug
       has_in_members].

(** C1: [clone_pr_fork] hands back the clone only when the live review
    request is open and the approved SHA, the HEAD of the fresh clone and
    the head SHA of the live review request are pairwise equal; when the
    state is not open or any one of the three disagrees with another, no
    clone is returned, and the result is [None] whenever the three calls
    themselves succeed. *)
Theorem clone_pr_fork_three_way_check
    (parent : Repository) (pr_id : Z)
    (fork_url pr_branch approved clone_path : string) (w : World) :
  let r := result (clone_pr_fork parent pr_id fork_url pr_branch approved clone_path) w in
  let clone_head := srv_fork_head (service w (clock w)) fork_url pr_branch in
  let live := srv_pull (service w (S (S (clock w)))) pr_id in
  (forall c, r = Ret (Some c) ->
     clone_head_target c = clone_head
     /\ pr_state live = "open"
     /\ clone_head = approved /\ pr_head_sha live = approved
     /\ clone_head = pr_head_sha live)
  /\ (pr_state live <> "open" \/ clone_head <> approved
      \/ pr_head_sha live <> approved \/ clone_head <> pr_head_sha live ->
      (forall c, r <> Ret (Some c))
      /\ (faults w (clock w) = None -> faults w (S (clock w)) = None ->
          faults w (S (S (clock w))) = None -> r = Ret None)).
Proof.
  unfold clone_pr_fork. run_unfold. simpl.
  destruct (faults w (clock w)) as [e0|]; simpl.
  { split; [done|]. intros _. split; [done|]. done. }
  destruct (faults w (S (clock w))) as [e1|]; simpl.
  { split; [done|]. intros _. split; [done|]. done. }
  destruct (faults w (S (S (clock w)))) as [e2|]; simpl.
  { split; [done|]. intros _. split; [done|]. done. }
  set (live := srv_pull (service w (S (S (clock w)))) pr_id).
  set (head := srv_fork_head (service w (clock w)) fork_url pr_branch).
  destruct (decide (pr_state live = "open")) as [Ho|Ho].
  2:{ rewrite (bool_decide_false _ Ho). simpl.
      split; [done|]. intros _. by split. }
  rewrite (bool_decide_true _ Ho). simpl.
  destruct (decide (head = approved)) as [Hc|Hc].
  2:{ rewrite (bool_decide_false _ Hc). simpl.
      split; [done|]. intros _. by split. }
  rewrite (bool_decide_true _ Hc). simpl.
  destruct (decide (pr_head_sha live = approved)) as [Hl|Hl].
  2:{ rewrite (bool_decide_false _ Hl). simpl.
      split; [done|]. intros _. by split. }
  rewrite (bool_decide_true _ Hl). simpl.
  split.
  - intros c [= <-]. simpl. repeat split; congruence.
  - intros [?|[?|[?|?]]]; congruence.
Qed.

Lemma clone_pr_fork_three_way_check_witness :
  result (clone_pr_fork (repo_handle "flathub") 7 "https://github.com/alice/flathub.git"
            "topic" sha_a "/tmp/clone")
         (sample_world [] ∅ (fun _ => sample_service "open" sha_a sha_b sha_a)
            (fun _ => None))
  = Ret None.
Proof.
  refine (proj2 (proj2 (clone_pr_fork_three_way_check _ _ _ _ _ _ _) _) _ _ _);
    [|reflexivity..].
  right; right; left. by vm_compute.
Defined.

(** * Publication *)

(** Case analysis on the next call of a run: it fails, which the tactic
    [k] must handle, or it returns. *)
Ltac next_call w k :=
  lazymatch goal with
  | |- context [faults w ?n] =>
      let e := fresh "e" in
      let E := fresh "E" in
      destruct (faults w n) as [e|] eqn:E; simpl; [k e|]
  end.

Lemma finalize_new_flathub_repo_true
    (cloned : Clone) (remote : Repository)
    (repo_name token pr_branch target approved clone_path : string) (w : World) :
  result (finalize_new_flathub_repo cloned remote repo_name token pr_branch
            target approved clone_path) w = Ret true ->
  let fetched := srv_branch (service w (15 + clock w)) (Repository_name remote) target in
  branch_commit_sha fetched = approved /\ branch_protected fetched = Some true.
Proof.
  unfold finalize_new_flathub_repo, push_to_flathub_remote, protected_patterns,
    set_protected_branch, for_each.
  run_unfold. simpl.
  do 16 next_call w ltac:(fun e => try destruct e; by simpl).
  case_bool_decide as Hs; simpl; [|done].
  case_bool_decide as Hp; simpl; [|done].
  done.
Qed.

Lemma finalize_new_flathub_repo_calm
    (cloned : Clone) (remote : Repository)
    (repo_name token pr_branch target approved clone_path : string) (w : World) :
  (forall i, i < 16 -> faults w (i + clock w) = None) ->
  let fetched := srv_branch (service w (15 + clock w)) (Repository_name remote) target in
  result (finalize_new_flathub_repo cloned remote repo_name token pr_branch
            target approved clone_path) w
  = Ret (bool_decide (branch_commit_sha fetched = approved)
         && bool_decide (branch_protected fetched = Some true)).
Proof.
  intros Hcalm.
  unfold finalize_new_flathub_repo, push_to_flathub_remote, protected_patterns,
    set_protected_branch, for_each.
  run_unfold. simpl.
  do 16 (lazymatch goal with
         | |- context [faults w ?n] =>
             let H := fresh in
             assert (H : faults w n = None)
               by (replace n with ((n - clock w) + clock w) by lia;
                   apply Hcalm; lia);
             rewrite H; simpl; clear H
         end).
  case_bool_decide; simpl; [|done]. by case_bool_decide.
Qed.

(** C2: the publication step fails whenever the branch it fetches back
    after the push has a head other than the approved SHA, or is not
    flagged protected: it never returns [True] then, and it returns
    [False] when every call of the step succeeded, the push included. *)
Theorem finalize_new_flathub_repo_verifies
    (cloned : Clone) (remote : Repository)
    (repo_name token pr_branch target approved clone_path : string) (w : World) :
  let r := result (finalize_new_flathub_repo cloned remote repo_name token
                     pr_branch target approved clone_path) w in
  let fetched := srv_branch (service w (15 + clock w)) (Repository_name remote) target in
  branch_commit_sha fetched <> approved \/ branch_protected fetched <> Some true ->
  r <> Ret true
  /\ ((forall i, i < 16 -> faults w (i + clock w) = None) -> r = Ret false).
Proof.
  intros r fetched Hbad. split.
  - intros Ht. apply finalize_new_flathub_repo_true in Ht as [? ?].
    by destruct Hbad.
  - intros Hcalm. unfold r.
    rewrite finalize_new_flathub_repo_calm by done.
    destruct Hbad as [H|H].
    + by rewrite (bool_decide_false _ H).
    + rewrite (bool_decide_false _ H). by rewrite andb_false_r.
Qed.

Lemma finalize_new_flathub_repo_verifies_witness :
  result (finalize_new_flathub_repo {| clone_head_target := sha_a |}
            (repo_handle "org.example.App") "org.example.App" "tok" "topic"
            "master" sha_a "/tmp/clone")
         (sample_world [] ∅ (fun _ => sample_service "open" sha_a sha_a sha_b)
            (fun _ => None))
  = Ret false.
Proof.
  refine (proj2 (finalize_new_flathub_repo_verifies _ _ _ _ _ _ _ _ _ _) _).
  - left. by vm_compute.
  - reflexivity.
Defined.

(** ** The branch-protection loop *)

Lemma set_protected_branch_run (token repo branch : string) (w : World) :
  set_protected_branch token repo branch w =
  match faults w (clock w) with
  | Some e => (Raise e, tick (emit (Call (GqlGetRepoId repo)) w))
  | None =>
      let w1 := tick (emit (Call (GqlGetRepoId repo)) w) in
      let w2 := tick (emit (Call (GqlAddBranchProtection
                                    (srv_repo_id (service w (clock w)) repo) branch)) w1) in
      match faults w (S (clock w)) with
      | Some e => (Raise e, w2)
      | None => (Ret tt, w2)
      end
  end.
Proof.
  unfold set_protected_branch. run_unfold. simpl.
  destruct (faults w (clock w)); [done|]. simpl.
  by destruct (faults w (S (clock w))).
Qed.

(** Use the [n]-th instance of a hypothesis saying that the next calls
    do not fail. *)
Ltac use_calm H n :=
  let E := fresh in
  pose proof (H n ltac:(lia)) as E; simpl in E; rewrite E; clear E.

Lemma half_succ_succ (k : nat) : (S (S k) + 1) / 2 = S ((k + 1) / 2).
Proof.
  replace (S (S k) + 1) with (1 * 2 + (k + 1)) by lia.
  rewrite Nat.div_add_l by lia. lia.
Qed.

(** The loop stops at the first call that fails: the patterns behind it
    are not attempted, nothing is logged, and the exception leaves the
    loop. *)
Lemma protect_loop_first_failure (token repo : string) (l : list string)
    (w : World) (k : nat) (e : exn) :
  k < 2 * length l ->
  (forall i, i < k -> faults w (i + clock w) = None) ->
  faults w (k + clock w) = Some e ->
  let m := for_each l (fun branch => set_protected_branch token repo branch) in
  result m w = Raise e
  /\ protection_attempts (trace (after m w))
     = (protection_attempts (trace w) ++ take ((k + 1) / 2) l)%list
  /\ error_logs (trace (after m w)) = error_logs (trace w).
Proof.
  revert w k. induction l as [|p l IH]; intros w k Hk Hcalm Hf; simpl in Hk; [lia|].
  cbn [for_each]. unfold result, after. rewrite run_bind, set_protected_branch_run.
  destruct k as [|[|k]].
  - simpl in Hf. rewrite Hf. simpl.
    unfold protection_attempts, error_logs. rewrite !omap_app. simpl.
    by rewrite !app_nil_r.
  - use_calm Hcalm 0. simpl in Hf. rewrite Hf. simpl.
    unfold protection_attempts, error_logs. rewrite !omap_app. simpl.
    by rewrite !app_nil_r.
  - use_calm Hcalm 0. use_calm Hcalm 1. cbv zeta.
    set (w2 := tick (emit _ (tick (emit _ w)))).
    destruct (IH w2 k) as (Hr & Ha & He).
    + lia.
    + intros i Hi. simpl. replace (i + S (S (clock w))) with (S (S i) + clock w) by lia.
      apply Hcalm. lia.
    + simpl. replace (k + S (S (clock w))) with (S (S k) + clock w) by lia. done.
    + unfold result, after in *. rewrite half_succ_succ.
      split; [done|]. rewrite Ha, He. subst w2. simpl.
      unfold protection_attempts, error_logs. rewrite !omap_app. simpl.
      by rewrite !app_nil_r, <- app_assoc.
Qed.

(** Without a failure every pattern is attempted, in the order of the
    list. *)
Lemma protect_loop_calm (token repo : string) (l : list string) (w : World) :
  (forall i, i < 2 * length l -> faults w (i + clock w) = None) ->
  let m := for_each l (fun branch => set_protected_branch token repo branch) in
  result m w = Ret tt
  /\ protection_attempts (trace (after m w))
     = (protection_attempts (trace w) ++ l)%list
  /\ error_logs (trace (after m w)) = error_logs (trace w)
  /\ clock (after m w) = 2 * length l + clock w
  /\ faults (after m w) = faults w
  /\ service (after m w) = service w.
Proof.
  revert w. induction l as [|p l IH]; intros w Hcalm.
  - simpl. by rewrite app_nil_r.
  - cbn [for_each]. unfold result, after. rewrite run_bind, set_protected_branch_run.
    simpl in Hcalm. use_calm Hcalm 0. use_calm Hcalm 1. cbv zeta.
    set (w2 := tick (emit _ (tick (emit _ w)))).
    destruct (IH w2) as (Hr & Ha & He & Hc & Hf & Hs).
    { intros i Hi. simpl. replace (i + S (S (clock w))) with (S (S i) + clock w) by lia.
      apply Hcalm. lia. }
    unfold result, after in *. split; [done|].
    rewrite Ha, He, Hc, Hf, Hs. subst w2. simpl.
    unfold protection_attempts, error_logs. rewrite !omap_app. simpl.
    rewrite !app_nil_r, <- app_assoc. repeat split; try done. lia.
Qed.

Lemma finalize_new_flathub_repo_reaches_loop
    (cloned : Clone) (remote : Repository)
    (repo_name token pr_branch target approved clone_path : string) (w : World) :
  (forall i, i < 3 -> faults w (i + clock w) = None) ->
  exists w3,
    (forall e w',
       for_each protected_patterns
         (fun branch => set_protected_branch token repo_name branch) w3
       = (Raise e, w') ->
       finalize_new_flathub_repo cloned remote repo_name token pr_branch
         target approved clone_path w = (Raise e, w'))
    /\ clock w3 = 3 + clock w
    /\ faults w3 = faults w
    /\ protection_attempts (trace w3) = protection_attempts (trace w)
    /\ error_logs (trace w3) = error_logs (trace w).
Proof.
  intros Hcalm.
  unfold finalize_new_flathub_repo, push_to_flathub_remote.
  generalize protected_patterns. intros l.
  run_unfold. simpl.
  use_calm Hcalm 0. simpl. use_calm Hcalm 1. simpl. use_calm Hcalm 2. simpl.
  eexists. split; [intros e w' H; rewrite H; reflexivity|].
  simpl. unfold protection_attempts, error_logs. rewrite !omap_app. simpl.
  by rewrite !app_nil_r.
Qed.

Lemma finalize_new_flathub_repo_all_patterns
    (cloned : Clone) (remote : Repository)
    (repo_name token pr_branch target approved clone_path : string) (w : World) :
  (forall i, i < 16 -> faults w (i + clock w) = None) ->
  protection_attempts
    (trace (after (finalize_new_flathub_repo cloned remote repo_name token
                     pr_branch target approved clone_path) w))
  = (protection_attempts (trace w) ++ protected_patterns)%list.
Proof.
  intros Hcalm.
  unfold finalize_new_flathub_repo, push_to_flathub_remote, protected_patterns,
    set_protected_branch, for_each.
  run_unfold. simpl.
  do 16 (lazymatch goal with
         | |- context [faults w ?n] =>
             let H := fresh in
             assert (H : faults w n = None)
               by (replace n with ((n - clock w) + clock w) by lia;
                   apply Hcalm; lia);
             rewrite H; simpl; clear H
         end).
  repeat case_bool_decide; cbn [after trace emit tick snd negb];
    unfold protection_attempts; rewrite !omap_app; cbn [omap list_omap app];
    by rewrite !app_nil_r, <- !app_assoc.
Qed.

(** C3, as amended: branch protection is attempted for the six patterns
    in the order of the source; each attempt is made only when every
    earlier call succeeded.  The first call that fails ends the loop: the
    patterns behind it are not attempted, the step logs no error for the
    failure, and the exception leaves the publication step. *)
Theorem finalize_new_flathub_repo_protection_order
    (cloned : Clone) (remote : Repository)
    (repo_name token pr_branch target approved clone_path : string) (w : World) :
  (forall i, i < 3 -> faults w (i + clock w) = None) ->
  let m := finalize_new_flathub_repo cloned remote repo_name token pr_branch
             target approved clone_path in
  ((forall i, i < 16 -> faults w (i + clock w) = None) ->
   protection_attempts (trace (after m w))
   = (protection_attempts (trace w) ++ protected_patterns)%list)
  /\ (forall k e,
        k < 12 ->
        (forall i, i < 3 + k -> faults w (i + clock w) = None) ->
        faults w (3 + k + clock w) = Some e ->
        result m w = Raise e
        /\ protection_attempts (trace (after m w))
           = (protection_attempts (trace w)
              ++ take ((k + 1) / 2) protected_patterns)%list
        /\ error_logs (trace (after m w)) = error_logs (trace w)).
Proof.
  intros Hpre m. split.
  { apply finalize_new_flathub_repo_all_patterns. }
  intros k e Hk Hcalm Hf.
  destruct (finalize_new_flathub_repo_reaches_loop cloned remote repo_name token
              pr_branch target approved clone_path w Hpre)
    as (w3 & Hrun & Hc & Hfl & Ha & He).
  destruct (protect_loop_first_failure token repo_name protected_patterns w3 k e)
    as (Hr & Ha' & He').
  - simpl. lia.
  - intros i Hi. rewrite Hfl, Hc.
    replace (i + (3 + clock w)) with ((3 + i) + clock w) by lia.
    apply Hcalm. lia.
  - rewrite Hfl, Hc.
    by replace (k + (3 + clock w)) with (3 + k + clock w) by lia.
  - unfold result, after in *.
    destruct (for_each _ _ w3) as [r w'] eqn:E. simpl in *. subst r.
    unfold m. rewrite (Hrun _ _ eq_refl). simpl.
    by rewrite Ha', He', Ha, He.
Qed.

Lemma finalize_new_flathub_repo_protection_order_witness :
  let w := sample_world [] ∅ (fun _ => sample_service "open" sha_a sha_a sha_a)
             (fails_at 6 (OtherError "TransportQueryError")) in
  let m := finalize_new_flathub_repo {| clone_head_target := sha_a |}
             (repo_handle "org.example.App") "org.example.App" "tok" "topic"
             "master" sha_a "/tmp/clone" in
  result m w = Raise (OtherError "TransportQueryError")
  /\ protection_attempts (trace (after m w)) = ["master"; "main"]
  /\ error_logs (trace (after m w)) = [].
Proof.
  intros w m.
  refine (proj2 (finalize_new_flathub_repo_protection_order _ _ _ _ _ _ _ _ w _)
            3 _ _ _ _).
  - intros i Hi. do 3 (destruct i as [|i]; [done|]). lia.
  - lia.
  - intros i Hi. do 6 (destruct i as [|i]; [done|]). lia.
  - reflexivity.
Defined.

(** C3, as stated, fails: when the protection call for [master] fails,
    the five patterns behind it are never attempted, no error is logged,
    and the exception leaves the publication step. *)
Lemma finalize_new_flathub_repo_protection_aborts :
  let w := sample_world [] ∅ (fun _ => sample_service "open" sha_a sha_a sha_a)
             (fails_at 4 (OtherError "TransportQueryError")) in
  let m := finalize_new_flathub_repo {| clone_head_target := sha_a |}
             (repo_handle "org.example.App") "org.example.App" "tok" "topic"
             "master" sha_a "/tmp/clone" in
  result m w = Raise (OtherError "TransportQueryError")
  /\ protection_attempts (trace (after m w)) = ["master"]
  /\ error_logs (trace (after m w)) = [].
Proof. by vm_compute. Qed.

(** * Provisioning *)

Ltac run_simpl :=
  cbn [fst snd result after INPUT_TOKEN GITHUB_EVENT_PATH open_event_file
       mkdtemp listdir org_repos service faults clock trace emit tick add_repo
       negb andb orb].

Ltac provisioning_unfold :=
  unfold create_new_flathub_repo, repo_exists_in_org, get_repo_in_org,
    org_get_repo, org_create_repo;
  run_unfold; run_simpl.

(** One more case of a run [E : m w = (r, w')] whose next branch depends
    on a call failing, on the kind of exception, or on a test. *)
Ltac run_simpl_in E :=
  cbn [fst snd result after INPUT_TOKEN GITHUB_EVENT_PATH open_event_file
       mkdtemp listdir org_repos service faults clock trace emit tick add_repo
       negb andb orb] in E.

Ltac run_case_in E w :=
  run_simpl_in E;
  match type of E with
  | context [faults w ?n] =>
      let e := fresh "e" in
      destruct (faults w n) as [e|] eqn:?; [try destruct e|]
  | context [@bool_decide ?P ?d] => destruct (@bool_decide_reflect P d)
  | context [(?a =? ?b)%Z] => destruct (a =? b)%Z
  end.

(** With the repository there, nothing is created and no repository is
    handed back; when the lookup itself succeeds, nothing else is even
    called. *)
Lemma create_new_flathub_repo_existing (org : Organization) (name : string) (w : World) :
  name ∈ org_repos w ->
  let m := create_new_flathub_repo org name in
  org_repos (after m w) = org_repos w
  /\ (forall repo, result m w <> Ret (Some repo))
  /\ (faults w (clock w) = None ->
      result m w = Ret None
      /\ trace (after m w) = (trace w ++ [Call (OrgGetRepo name)])%list).
Proof.
  intros Hin m. unfold result, after.
  destruct (m w) as [r w1] eqn:E. cbn [fst snd].
  unfold m in E. revert E. provisioning_unfold. intros E.
  repeat run_case_in E w; run_simpl_in E; injection E as <- <-; run_simpl;
    try contradiction;
    try (exfalso; match goal with H : ¬ _ ≠ _ |- _ => by apply H end);
    repeat split; solve [done | congruence].
Qed.

(** A run creates at most the repository it was asked for, and hands a
    repository back only when that repository is there afterwards. *)
Lemma create_new_flathub_repo_creates (org : Organization) (name : string) (w : World) :
  let m := create_new_flathub_repo org name in
  (org_repos (after m w) = org_repos w \/ name ∈ org_repos (after m w))
  /\ (forall repo, result m w = Ret (Some repo) -> name ∈ org_repos (after m w)).
Proof.
  intros m. unfold result, after.
  destruct (m w) as [r w1] eqn:E. cbn [fst snd].
  unfold m in E. revert E. provisioning_unfold. intros E.
  repeat run_case_in E w; run_simpl_in E; injection E as <- <-; run_simpl;
    (split; [first [by left|right; set_solver]|first [done|intros; set_solver]]).
Qed.

(** C5: [create_new_flathub_repo] is idempotent with respect to
    creation.  When a repository of the name exists, the organization's
    repositories are left as they are and no repository is handed back;
    when the lookup succeeds the result is [None] and nothing but the
    lookup is called.  Of two calls in a row with one name at most one
    creates a repository, and after a call that returned the created
    repository the next call hands none back: it returns [None] when its
    lookup succeeds. *)
Theorem create_new_flathub_repo_idempotent (org : Organization) (name : string)
    (w : World) :
  let m := create_new_flathub_repo org name in
  let w1 := after m w in
  let w2 := after m w1 in
  (name ∈ org_repos w ->
   org_repos w1 = org_repos w
   /\ (forall repo, result m w <> Ret (Some repo))
   /\ (faults w (clock w) = None ->
       result m w = Ret None
       /\ trace w1 = (trace w ++ [Call (OrgGetRepo name)])%list))
  /\ (org_repos w1 = org_repos w \/ org_repos w2 = org_repos w1)
  /\ (forall repo, result m w = Ret (Some repo) ->
      (forall repo', result m w1 <> Ret (Some repo'))
      /\ (faults w1 (clock w1) = None -> result m w1 = Ret None)).
Proof.
  intros m w1 w2. split; [|split].
  - intros Hin. by apply create_new_flathub_repo_existing.
  - destruct (create_new_flathub_repo_creates org name w) as [[H|H] _]; [by left|].
    right. by apply create_new_flathub_repo_existing.
  - intros repo Hr.
    destruct (create_new_flathub_repo_creates org name w) as [_ H].
    specialize (H repo Hr).
    destruct (create_new_flathub_repo_existing org name w1 H) as (_ & H2 & H3).
    split; [exact H2|]. intros Hf. by apply H3.
Qed.

Lemma create_new_flathub_repo_idempotent_witness :
  let m := create_new_flathub_repo {| org_login := "flathub" |} "org.example.App" in
  let w := sample_world [] {[ "flathub"; "org.example.App" ]}
             (fun _ => sample_service "open" sha_a sha_a sha_a) (fun _ => None) in
  result m w = Ret None
  /\ trace (after m w) = [Call (OrgGetRepo "org.example.App")].
Proof.
  intros m w.
  refine (proj2 (proj2 (proj1 (create_new_flathub_repo_idempotent _ _ w) _)) _).
  - set_solver.
  - reflexivity.
Defined.

(** ** Granting access *)

Lemma team_grants_emit (e : Event) (w : World) :
  team_grants (trace (emit e w)) = (team_grants (trace w) ++ team_grants [e])%list.
Proof. unfold team_grants. cbn [trace emit]. by rewrite omap_app. Qed.

Lemma collaborators_loop_calm (repo : string) (l : list string) (w : World) :
  calm w ->
  let m := for_each l
             (fun user =>
                log INFO ("Adding user " +:+ user +:+ " to collaborators");;
                request (RepoAddToCollaborators repo user "push") (fun _ => tt)) in
  result m w = Ret tt
  /\ faults (after m w) = faults w
  /\ team_grants (trace (after m w)) = team_grants (trace w).
Proof.
  revert w. induction l as [|user l IH]; intros w Hcalm; [done|].
  cbn [for_each]. unfold result, after. rewrite run_bind.
  set (w1 := tick (emit (Call (RepoAddToCollaborators repo user "push"))
                     (emit (Log INFO ("Adding user " +:+ user
                                      +:+ " to collaborators")) w))).
  assert (Hb : (log INFO ("Adding user " +:+ user +:+ " to collaborators");;
                request (RepoAddToCollaborators repo user "push") (fun _ => tt)) w
               = (Ret tt, w1)).
  { run_unfold. run_simpl. by rewrite (Hcalm (clock w)). }
  rewrite Hb.
  destruct (IH w1) as (Hr & Hf & Hg); [done|].
  unfold result, after in *. rewrite Hr, Hf, Hg. subst w1.
  repeat split; try done.
  repeat (cbn [tick trace]; rewrite team_grants_emit). cbn.
  by rewrite ?app_nil_r.
Qed.

Lemma teams_loop_calm (org : Organization) (repo : string) (l : list string) (w : World) :
  calm w ->
  let m := for_each l
             (fun team =>
                log INFO ("Adding team " +:+ team +:+ " to collaborators");;
                team_slug ← org_get_team_by_slug org team;
                request (TeamUpdateTeamRepository (Team_slug team_slug) repo "push")
                        (fun _ => tt)) in
  result m w = Ret tt
  /\ team_grants (trace (after m w))
     = (team_grants (trace w) ++ ((fun t => (t, "push")) <$> l))%list.
Proof.
  revert w. induction l as [|team l IH]; intros w Hcalm.
  { cbn. by rewrite app_nil_r. }
  cbn [for_each]. unfold result, after. rewrite run_bind.
  set (w1 := tick (emit (Call (TeamUpdateTeamRepository team repo "push"))
                     (tick (emit (Call (OrgGetTeamBySlug team))
                              (emit (Log INFO ("Adding team " +:+ team
                                               +:+ " to collaborators")) w))))).
  assert (Hb : (log INFO ("Adding team " +:+ team +:+ " to collaborators");;
                team_slug ← org_get_team_by_slug org team;
                request (TeamUpdateTeamRepository (Team_slug team_slug) repo "push")
                        (fun _ => tt)) w
               = (Ret tt, w1)).
  { run_unfold. run_simpl. rewrite (Hcalm (clock w)). run_simpl.
    by rewrite (Hcalm (S (clock w))). }
  rewrite Hb.
  destruct (IH w1) as (Hr & Hg); [done|].
  unfold result, after in *. rewrite Hr, Hg. subst w1.
  split; [done|].
  repeat (cbn [tick trace]; rewrite team_grants_emit). cbn.
  by rewrite ?app_nil_r, <- app_assoc.
Qed.

(** C8: the access grant step grants the KDE team exactly when the name
    of the repository starts with [org.kde.], the GNOME team exactly
    when it starts with [org.gnome.] and has exactly two dots, and the
    trusted-maintainers team in every case; when no call fails, the
    teams granted are exactly these, each with push permission. *)
Theorem add_all_collaborators_teams
    (org : Organization) (repo : Repository) (collaborators : list string)
    (w : World) :
  let name := Repository_name repo in
  let m := add_all_collaborators org repo collaborators in
  ("trusted-maintainers" ∈ teams_to_add name
   /\ ("KDE" ∈ teams_to_add name <-> Str.startswith name "org.kde." = true)
   /\ ("GNOME" ∈ teams_to_add name <->
       Str.startswith name "org.gnome." = true /\ Str.count "." name = 2))
  /\ (calm w ->
      result m w = Ret true
      /\ team_grants (trace (after m w))
         = (team_grants (trace w)
            ++ ((fun t => (t, "push")) <$> teams_to_add name))%list).
Proof.
  intros name m. split; [apply teams_to_add_policy|].
  intros Hcalm. unfold m, add_all_collaborators, result, after, try_except.
  rewrite !run_bind.
  destruct (collaborators_loop_calm (Repository_name repo) collaborators w Hcalm)
    as (Hr & Hf & Hg).
  unfold result, after in *.
  destruct (for_each collaborators _ w) as [r1 w1]. cbn [fst snd] in *. subst r1.
  rewrite run_bind.
  assert (Hcalm1 : calm w1) by (intros i; by rewrite Hf).
  destruct (teams_loop_calm org (Repository_name repo)
              (teams_to_add (Repository_name repo)) w1 Hcalm1) as (Hr1 & Hg1).
  unfold result, after in *.
  destruct (for_each (teams_to_add _) _ w1) as [r2 w2]. cbn [fst snd] in *. subst r2.
  cbn. by rewrite Hg1, Hg.
Qed.

Lemma add_all_collaborators_teams_witness :
  let m := add_all_collaborators {| org_login := "flathub" |}
             (repo_handle "org.gnome.Foo") ["bob"; "alice"] in
  result m idle_world = Ret true
  /\ team_grants (trace (after m idle_world))
     = [("trusted-maintainers", "push"); ("GNOME", "push")].
Proof.
  intros m.
  refine (proj2 (add_all_collaborators_teams _ _ _ idle_world) _).
  intros i. reflexivity.
Defined.

Example teams_to_add_gnome_subidentifier :
  teams_to_add "org.gnome.Foo" = ["trusted-maintainers"; "GNOME"]
  /\ teams_to_add "org.gnome.Foo.Bar" = ["trusted-maintainers"]
  /\ teams_to_add "org.kde.kate" = ["trusted-maintainers"; "KDE"].
Proof. by vm_compute. Qed.

(** ** The resolver reads the directory only *)

Lemma pure_result_ret {A : Type} (a : A) : pure_result (mret a : M A).
Proof. done. Qed.

Lemma pure_result_raise {A : Type} (e : exn) : pure_result (raise e : M A).
Proof. done. Qed.

Lemma pure_result_log (lvl : level) (message : string) : pure_result (log lvl message).
Proof. done. Qed.

Lemma pure_result_bind {A B : Type} (m : M A) (f : A -> M B) :
  pure_result m -> (forall a, pure_result (f a)) -> pure_result (m ≫= f).
Proof.
  intros Hm Hf w1 w2. unfold result. rewrite !run_bind.
  specialize (Hm w1 w2). unfold result in Hm.
  destruct (m w1) as [r1 w1'], (m w2) as [r2 w2']; cbn [fst] in Hm. subst r2.
  destruct r1; [apply Hf|done].
Qed.

Ltac pure_result_structure :=
  lazymatch goal with
  | |- pure_result (mret _) => apply pure_result_ret
  | |- pure_result (raise _) => apply pure_result_raise
  | |- pure_result (log _ _) => apply pure_result_log
  | |- pure_result (_ ≫= _) => apply pure_result_bind; [|intros ?]
  | |- pure_result (if ?b then _ else _) => destruct b
  | |- pure_result (match ?x with _ => _ end) => destruct x
  end.

Lemma pure_result_detect_appid_loop (dirname : string) (files : list DirEntry) :
  pure_result (detect_appid_loop dirname files).
Proof.
  induction files as [|f files IH]; cbn [detect_appid_loop].
  { apply pure_result_ret. }
  unfold _get_id_from_flatpak_manifest, _read_flatpak_manifest,
    _read_yaml_flatpak_manifest, _read_json_flatpak_manifest.
  repeat first [exact IH | pure_result_structure].
Qed.

Lemma detect_appid_reads_directory (dirname : string) (w1 w2 : World) :
  listdir w1 = listdir w2 ->
  result (detect_appid dirname) w1 = result (detect_appid dirname) w2.
Proof.
  intros Hl. unfold detect_appid, result. rewrite !run_bind.
  cbv [get_world]. cbn [fst snd]. rewrite Hl.
  destruct (candidate_files _); [done|].
  apply pure_result_detect_appid_loop.
Qed.

(** * Identifier resolution *)

(** A YAML candidate whose load succeeds or raises [yaml.YAMLError] does
    not make the reader raise: a parse error is logged and an empty
    manifest is returned.  Any other exception leaves the reader. *)
Lemma _read_yaml_flatpak_manifest_returns (f : DirEntry) (w : World) :
  (forall e, entry_yaml f <> YamlRaised e) ->
  exists m, result (_read_yaml_flatpak_manifest f) w = Ret m.
Proof.
  intros Hyaml. unfold _read_yaml_flatpak_manifest, result.
  destruct (_ && _); [|by eexists].
  destruct (entry_yaml f) as [m|message|e]; [by eexists..|].
  by destruct (Hyaml e).
Qed.

Lemma _read_yaml_flatpak_manifest_raises (f : DirEntry) (e : exn) (w : World) :
  entry_is_file f = true ->
  Str.endswith (entry_name f) ".yml" || Str.endswith (entry_name f) ".yaml" = true ->
  entry_yaml f = YamlRaised e ->
  result (_read_yaml_flatpak_manifest f) w = Raise e.
Proof.
  intros Hf Hn Hy. unfold _read_yaml_flatpak_manifest, result.
  by rewrite Hf, Hn, Hy.
Qed.

(** A JSON candidate whose parser has no root makes the reader raise,
    whether or not the load error was caught and logged. *)
Lemma _read_json_flatpak_manifest_no_root (f : DirEntry) (w : World) :
  entry_is_file f = true ->
  Str.endswith (entry_name f) ".json" = true ->
  json_root (entry_json f) = None ->
  result (_read_json_flatpak_manifest f) w = Raise TypeError.
Proof.
  intros Hf Hn Hr. unfold _read_json_flatpak_manifest, result.
  rewrite Hf, Hn, Hr. cbn [andb]. run_unfold.
  by destruct (json_error (entry_json f)).
Qed.

(** A YAML file that does not parse is skipped, and the scan goes on to
    the manifest behind it. *)
Example detect_appid_skips_unparsable_yaml :
  let w := world_with_files
             [bad_yaml_file "broken.yml";
              yaml_manifest_file "org.example.App.yml" "org.example.App"] in
  result (detect_appid "/tmp/clone") w
  = Ret (Some "org.example.App.yml", Some "org.example.App").
Proof. by vm_compute. Qed.

(** C9, at its failing input: a JSON candidate that does not parse is
    logged but not skipped.  The reader goes on to serialize the root of
    the failed parser, which raises [TypeError]; the exception ends the
    scan, and the matching manifest behind the broken file is never
    looked at. *)
Theorem detect_appid_unparsable_json_aborts_scan :
  let w := world_with_files
             [bad_json_file "broken.json";
              json_manifest_file "org.example.App.json" "org.example.App"] in
  let m := detect_appid "/tmp/clone" in
  result m w = Raise TypeError
  /\ trace (after m w)
     = [Log INFO "Checking file broken.json for Flatpak ID";
        Log ERROR "Failed to load JSON Flatpak manifest: unexpected character"].
Proof. by vm_compute. Qed.

(** C6, at its failing input: in a directory whose only candidate is a
    JSON file that does not parse, no candidate matches, and the resolver
    raises [TypeError] instead of returning [(None, None)]. *)
Theorem detect_appid_no_match_raises :
  let w := world_with_files [bad_json_file "broken.json"] in
  result (detect_appid "/tmp/clone") w = Raise TypeError
  /\ result (detect_appid "/tmp/clone") w <> Ret (None, None).
Proof. by vm_compute. Qed.

(** ** The selection, where no candidate makes the reader raise *)

Lemma pure_result__get_id_from_flatpak_manifest (path : string) (f : DirEntry) :
  pure_result (_get_id_from_flatpak_manifest path f).
Proof.
  unfold _get_id_from_flatpak_manifest, _read_flatpak_manifest,
    _read_yaml_flatpak_manifest, _read_json_flatpak_manifest.
  repeat pure_result_structure.
Qed.

Lemma is_truthy_self_named (v : option pyval) (root : string) :
  is_truthy v && bool_decide (v = Some (VStr root))
  = bool_decide (v = Some (VStr root)) && negb (Str.is_empty root).
Proof.
  case_bool_decide as Hv.
  - subst v. cbn. by rewrite andb_true_r.
  - by rewrite andb_false_r.
Qed.

(** The scan returns the first candidate that names itself, and nothing
    when there is none. *)
Lemma detect_appid_loop_first_self_named
    (dirname : string) (files : list DirEntry) (w : World) :
  Forall (reads_cleanly dirname w) files ->
  result (detect_appid_loop dirname files) w
  = Ret match List.find (self_named dirname w) files with
        | Some f => (Some (entry_name f), Some (Path.splitext_root (entry_name f)))
        | None => (None, None)
        end.
Proof.
  induction 1 as [|f files [v Hv] Hfiles IH]; [done|].
  cbn [detect_appid_loop List.find]. unfold self_named at 1. rewrite Hv.
  unfold result in *. rewrite run_bind. cbv [log]. cbn [fst snd].
  set (w1 := emit _ w). rewrite run_bind.
  pose proof (pure_result__get_id_from_flatpak_manifest
                (Path.join dirname (entry_name f)) f w1 w) as Hpure.
  unfold result in Hpure. rewrite Hv in Hpure.
  destruct (_get_id_from_flatpak_manifest _ f w1) as [r w2]; cbn [fst] in Hpure.
  subst r. cbn [fst snd]. rewrite is_truthy_self_named.
  assert (Hdec : bool_decide (Ret v = Ret (Some (VStr (Path.splitext_root (entry_name f)))))
                 = bool_decide (v = Some (VStr (Path.splitext_root (entry_name f))))).
  { apply bool_decide_ext. split; [by intros [= ->]|by intros ->]. }
  rewrite Hdec.
  destruct (_ && _).
  - by rewrite !run_bind.
  - rewrite <- IH. apply pure_result_detect_appid_loop.
Qed.

(** On a directory none of whose candidates makes the reader raise,
    [detect_appid] returns the first candidate whose declared identifier
    is its own base name, and [(None, None)] when no candidate is
    self-named or there is no candidate. *)
Lemma detect_appid_first_self_named (dirname : string) (w : World) :
  let files := candidate_files (listdir w dirname) in
  Forall (reads_cleanly dirname w) files ->
  result (detect_appid dirname) w
  = Ret match List.find (self_named dirname w) files with
        | Some f => (Some (entry_name f), Some (Path.splitext_root (entry_name f)))
        | None => (None, None)
        end.
Proof.
  intros files Hclean. unfold detect_appid. unfold result. rewrite run_bind.
  cbv [get_world]. cbn [fst snd]. fold files.
  destruct files as [|f files'] eqn:E; [done|].
  by apply detect_appid_loop_first_self_named.
Qed.

(** A candidate that parses but declares another identifier than its
    base name is not returned. *)
Example detect_appid_skips_foreign_identifier :
  let w := world_with_files
             [yaml_manifest_file "manifest.yml" "org.example.App"] in
  result (detect_appid "/tmp/clone") w = Ret (None, None).
Proof. by vm_compute. Qed.

(** * The review request is touched by the closure step only *)

#[export] Instance closure_guarded_discipline :
  Discipline closure_guarded (fun e => mutates_review_request e = false).
Proof.
  split.
  - split.
    + intros w. exists []. rewrite app_nil_r. split; [done|]. by left.
    + intros w1 w2 w3 (e1 & H1 & G1) (e2 & H2 & G2).
      exists (e1 ++ e2)%list. rewrite H2, H1, app_assoc. split; [done|].
      destruct G1 as [G1|G1]; [destruct G2 as [G2|G2]|].
      * left. by apply Forall_app.
      * right. apply elem_of_app. by right.
      * right. apply elem_of_app. by left.
  - intros e w He. exists [e]. split; [done|]. left. by constructor.
  - intros w. exists []. cbn. rewrite app_nil_r. split; [done|]. by left.
Qed.

Lemma steps_org_create_repo {R : relation World} {ok : Event -> Prop}
    `{!Discipline R ok} (org : Organization) (name : string) :
  ok (Call (OrgCreateRepo name)) ->
  (forall w, R w (add_repo name w)) ->
  steps R (org_create_repo org name).
Proof.
  intros Hok Hadd. unfold org_create_repo.
  apply steps_bind; [by apply steps_request|intros _].
  apply steps_bind; [apply steps_get_world|intros w0].
  destruct (bool_decide _); [apply steps_raise|].
  intros w. apply Hadd.
Qed.

Lemma steps_detect_appid_loop {R : relation World} {ok : Event -> Prop}
    `{!Discipline R ok} (dirname : string) (files : list DirEntry) :
  (forall lvl message, ok (Log lvl message)) ->
  steps R (detect_appid_loop dirname files).
Proof.
  intros Hlog. induction files as [|f files IH]; cbn [detect_appid_loop].
  { apply steps_ret. }
  unfold _get_id_from_flatpak_manifest, _read_flatpak_manifest,
    _read_yaml_flatpak_manifest, _read_json_flatpak_manifest.
  repeat first [exact IH | apply Hlog | steps_structure].
Qed.

(** The closure step announces itself before it touches anything. *)
Lemma close_pr_enters (pr_obj : PullRequest) (repo : Repository) (w : World) :
  exists evs, trace (after (close_pr pr_obj repo) w)
              = (trace w ++ closure_entered :: evs)%list.
Proof.
  unfold close_pr.
  match goal with
  | |- context [try_except (log ?l ?msg;; ?rest) ?h] =>
      assert (Hstep : steps extends (try_except rest h));
      [|destruct (Hstep (emit (Log l msg) w)) as [evs Hevs]]
  end.
  { unfold get_issue_from_pr. repeat steps_structure; done. }
  exists evs. unfold after in *. cbn [trace emit] in Hevs.
  rewrite <- app_assoc in Hevs. exact Hevs.
Qed.

Lemma steps_close_pr (pr_obj : PullRequest) (repo : Repository) :
  steps closure_guarded (close_pr pr_obj repo).
Proof.
  intros w. destruct (close_pr_enters pr_obj repo w) as [evs Hevs].
  exists (closure_entered :: evs). split; [done|]. right. by left.
Qed.

Ltac program_unfold :=
  unfold main, load_github_event, is_valid_event, parse_merge_command,
    is_authorized_commenter, clone_pr_fork, detect_appid,
    create_new_flathub_repo, repo_exists_in_org, get_repo_in_org,
    finalize_new_flathub_repo, push_to_flathub_remote, set_protected_branch,
    add_all_collaborators, org_get_repo, repo_get_pull, org_get_team_by_slug,
    has_in_members.

Lemma steps_main_closure_guarded : steps closure_guarded main.
Proof.
  program_unfold.
  repeat first
    [ apply steps_close_pr
    | apply steps_detect_appid_loop; done
    | apply steps_org_create_repo;
        [done|intros ?; exists []; cbn; rewrite app_nil_r; split; [done|by left]]
    | steps_structure
    | done ].
Qed.

(** C4, as amended: an execution that fails before the closure step is
    reached leaves the review request as it was: the program has not
    labelled it, commented on it, closed it or locked its thread.  What
    else the run has done depends on where it failed; none of its events
    touches the review request. *)
Theorem main_failure_before_closure (w : World) :
  exit_status (result main w) = 1%Z ->
  closure_entered ∉ trace (after main w) ->
  exists evs,
    trace (after main w) = (trace w ++ evs)%list
    /\ Forall (fun e => mutates_review_request e = false) evs.
Proof.
  intros _ Hnot.
  destruct (steps_main_closure_guarded w) as (evs & Hevs & [Hquiet|Hin]).
  - by exists evs.
  - exfalso. apply Hnot. rewrite Hevs. apply elem_of_app. by right.
Qed.

Lemma main_failure_before_closure_witness :
  let w := sample_world [] {[ "flathub" ]}
             (fun _ => sample_service "open" sha_a sha_b sha_a) (fun _ => None) in
  exists evs,
    trace (after main w) = (trace w ++ evs)%list
    /\ Forall (fun e => mutates_review_request e = false) evs.
Proof.
  intros w. apply main_failure_before_closure.
  - by vm_compute.
  - apply (bool_decide_unpack _). by vm_compute.
Defined.

(** C4, as stated, fails in its last clause: exit status 1 and log lines
    are not all that a failing run produces.  The run that is refused
    when it grants the author of the review request access to the new
    repository exits with status 1 before the closure step; by then it
    has created the repository, pushed the branch of the review request
    to it and protected the six patterns. *)
Lemma main_failure_after_publication :
  let w := sample_world
             [yaml_manifest_file "org.example.App.yml" "org.example.App"]
             {[ "flathub" ]}
             (fun _ => sample_service "open" sha_a sha_a sha_a)
             (fails_at 30 (GithubException 403)) in
  let evs := since w (after main w) in
  exit_status (result main w) = 1%Z
  /\ (closure_entered ∉ trace (after main w))
  /\ (~ Forall (fun e => is_log e = true) evs)
  /\ Call (OrgCreateRepo "org.example.App") ∈ evs
  /\ Call (GitPush "/tmp/clone" "topic:master") ∈ evs
  /\ protection_attempts evs = protected_patterns
  /\ error_logs evs = ["Failed to set collaborators to GitHub repository: 403"].
Proof.
  intros w evs. split_and!.
  - by vm_compute.
  - apply (bool_decide_unpack _). by vm_compute.
  - apply (bool_decide_unpack _). by vm_compute.
  - apply (bool_decide_unpack _). by vm_compute.
  - apply (bool_decide_unpack _). by vm_compute.
  - by vm_compute.
  - by vm_compute.
Qed.

(** * A repository that is already there *)

#[export] Instance upstream_discipline (keep_repos : bool) :
  Discipline (upstream keep_repos) (fun e => downstream e = false).
Proof.
  split.
  - split.
    + intros w. repeat split; try done. exists []. by rewrite app_nil_r.
    + intros w1 w2 w3 (L1 & M1 & O1 & e1 & H1 & G1) (L2 & M2 & O2 & e2 & H2 & G2).
      repeat split; try congruence.
      * intros Hk. by rewrite O2, O1.
      * exists (e1 ++ e2)%list. rewrite H2, H1, app_assoc. split; [done|].
        by apply Forall_app.
  - intros e w He. repeat split; try done. exists [e]. split; [done|].
    by constructor.
  - intros w. repeat split; try done. exists []. cbn. by rewrite app_nil_r.
Qed.

Lemma upstream_forget (w w' : World) : upstream true w w' -> upstream false w w'.
Proof. intros (L & M & _ & H). by repeat split. Qed.

Section Stops.
Context (w0 : World).

Lemma stops_ret : stops w0 (mret 1%Z).
Proof. intros w H. by split. Qed.

Lemma stops_bind {A : Type} (m : M A) (f : A -> M Z) :
  steps (upstream true) m -> (forall a, stops w0 (f a)) -> stops w0 (m ≫= f).
Proof.
  intros Hm Hf w Hw. unfold result, after. rewrite run_bind.
  specialize (Hm w). unfold after in Hm.
  destruct (m w) as [[a|e] w1]; cbn [fst snd] in *.
  - apply Hf. by etransitivity.
  - split; [done|]. by etransitivity.
Qed.

(** When the result of [m] is known, only that result continues. *)
Lemma stops_bind_known {A : Type} (m : M A) (f : A -> M Z) (v : A) :
  steps (upstream true) m ->
  (forall w a, upstream true w0 w -> result m w = Ret a -> a = v) ->
  stops w0 (f v) ->
  stops w0 (m ≫= f).
Proof.
  intros Hm Hv Hf w Hw. unfold result, after. rewrite run_bind.
  specialize (Hm w). specialize (Hv w). unfold after, result in *.
  destruct (m w) as [[a|e] w1]; cbn [fst snd] in *.
  - rewrite (Hv a Hw eq_refl). apply Hf. by etransitivity.
  - split; [done|]. by etransitivity.
Qed.

Lemma stops_with_tmpdir (body : string -> M Z) :
  stops w0 (body (mkdtemp w0)) -> stops w0 (with_tmpdir body).
Proof.
  intros Hb w Hw. unfold result, after, with_tmpdir.
  assert (Hpath : mkdtemp w = mkdtemp w0) by apply Hw.
  rewrite Hpath.
  destruct (Hb (emit (TmpdirCreated (mkdtemp w0)) w)) as [He Hu].
  { etransitivity; [exact Hw|]. by apply discipline_emit. }
  unfold result, after in *.
  destruct (body _ _) as [r w1]; cbn [fst snd] in *.
  split; [done|]. etransitivity; [exact Hu|]. by apply discipline_emit.
Qed.
End Stops.

Lemma nonempty_Some (x y : string) : nonempty (Some x) = Some y -> y = x.
Proof. cbn. destruct (Str.is_empty x); [done|]. by intros [= <-]. Qed.

Lemma steps_create_new_flathub_repo_upstream (org : Organization) (name : string) :
  steps (upstream false) (create_new_flathub_repo org name).
Proof.
  unfold create_new_flathub_repo, repo_exists_in_org, get_repo_in_org, org_get_repo.
  repeat first
    [ apply steps_org_create_repo;
        [done|intros ?; repeat split; try done; exists []; cbn; by rewrite app_nil_r]
    | steps_structure
    | done ].
Qed.

(** With the repository there, provisioning hands nothing back, and the
    run goes on as it does after [None]. *)
Lemma stops_create_existing (w0 : World) (org : Organization) (name : string)
    (f : option Repository -> M Z) :
  name ∈ org_repos w0 ->
  stops w0 (f None) ->
  stops w0 (create_new_flathub_repo org name ≫= f).
Proof.
  intros Hin Hf w Hw. unfold result, after. rewrite run_bind.
  assert (Hin' : name ∈ org_repos w).
  { destruct Hw as (_ & _ & Ho & _). by rewrite Ho. }
  destruct (create_new_flathub_repo_existing org name w Hin') as (Ho & Hnone & _).
  pose proof (steps_create_new_flathub_repo_upstream org name w) as Hup.
  unfold result, after in *.
  destruct (create_new_flathub_repo org name w) as [r w1]; cbn [fst snd] in *.
  assert (Hw1 : upstream true w0 w1).
  { etransitivity; [exact Hw|].
    destruct Hup as (L & M & _ & H). by repeat split. }
  destruct r as [[repo|]|e].
  - by destruct (Hnone repo).
  - by apply Hf.
  - by split.
Qed.

Ltac solve_steps :=
  solve [ repeat first
            [ apply steps_detect_appid_loop; done
            | steps_structure
            | done ] ].

(** C10: when the repository that the run is about to provision exists
    already, the invocation exits with status 1: [main] takes the [None]
    of [create_new_flathub_repo] for a failure, and no call of the
    publication, grant or closure steps is made. *)
Theorem main_existing_repository_exits_1
    (w : World) (manifest_file appid : string) :
  result (detect_appid (mkdtemp w)) w = Ret (Some manifest_file, Some appid) ->
  appid ∈ org_repos w ->
  exit_status (result main w) = 1%Z
  /\ exists evs,
       trace (after main w) = (trace w ++ evs)%list
       /\ Forall (fun e => downstream e = false) evs.
Proof.
  intros Hdetect Hin.
  assert (Hstops : stops w main).
  { unfold main, load_github_event, is_valid_event, parse_merge_command,
      is_authorized_commenter, clone_pr_fork, org_get_repo, repo_get_pull,
      org_get_team_by_slug, has_in_members.
    repeat first
      [ apply stops_ret
      | apply stops_with_tmpdir
      | apply (stops_bind_known w (detect_appid (mkdtemp w)) _
                 (Some manifest_file, Some appid));
          [ unfold detect_appid; solve_steps
          | let w1 := fresh "w" in
            let v := fresh "v" in
            let Hw := fresh "Hw" in
            let Hv := fresh "Hv" in
            intros w1 v Hw Hv;
            rewrite (detect_appid_reads_directory _ w1 w) in Hv by apply Hw;
            congruence
          | cbn [fst snd];
            destruct (nonempty (Some manifest_file)) eqn:?;
            destruct (nonempty (Some appid)) as [appid'|] eqn:Eid;
            [apply nonempty_Some in Eid as ->|..] ]
      | apply stops_create_existing; [exact Hin|]
      | apply stops_bind; [solve_steps|intros ?]
      | lazymatch goal with
        | |- stops _ (if ?b then _ else _) => destruct b
        | |- stops _ (match ?x with _ => _ end) => destruct x
        end ]. }
  destruct (Hstops w) as (Hexit & _ & _ & _ & evs & Hevs); [reflexivity|].
  split; [exact Hexit|]. by exists evs.
Qed.

Lemma main_existing_repository_exits_1_witness :
  let w := sample_world
             [yaml_manifest_file "org.example.App.yml" "org.example.App"]
             {[ "flathub"; "org.example.App" ]}
             (fun _ => sample_service "open" sha_a sha_a sha_a) (fun _ => None) in
  exit_status (result main w) = 1%Z
  /\ exists evs,
       trace (after main w) = (trace w ++ evs)%list
       /\ Forall (fun e => downstream e = false) evs.
Proof.
  intros w.
  apply (main_existing_repository_exits_1 w "org.example.App.yml" "org.example.App").
  - by vm_compute.
  - set_solver.
Defined.

(** * A complete promotion *)

(** With a valid command, an authorized reviewer, consistent SHAs, every
    call succeeding and the review request showing closed once it has
    been closed, [main] returns 0; the closure step is entered and no
    error is logged. *)
Example main_promotes :
  let w := sample_world
             [yaml_manifest_file "org.example.App.yml" "org.example.App"]
             {[ "flathub" ]}
             (fun n => sample_service
                         (if bool_decide (34 <= n) then "closed" else "open")
                         sha_a sha_a sha_a)
             (fun _ => None) in
  result main w = Ret 0%Z
  /\ error_logs (trace (after main w)) = []
  /\ protection_attempts (trace (after main w)) = protected_patterns
  /\ team_grants (trace (after main w)) = [("trusted-maintainers", "push")]
  /\ bool_decide (closure_entered ∈ trace (after main w)) = true.
Proof. by vm_compute. Qed.

(** * Further properties of the command parser *)

Section MoreStringFacts.
Implicit Types (s p q r : string) (f : ascii -> bool).

Lemma span_spec f s :
  s = (Str.span f s).1 +:+ (Str.span f s).2
  /\ Str.forallb f (Str.span f s).1 = true.
Proof.
  induction s as [|c s [IH1 IH2]]; [done|]. simpl.
  destruct (f c) eqn:Ec; [|done].
  destruct (Str.span f s) as [a b]; cbn [fst snd] in *.
  rewrite append_cons, <- IH1. simpl. by rewrite Ec, IH2.
Qed.

Lemma span_forallb f s : Str.forallb f s = true -> Str.span f s = (s, "").
Proof.
  induction s as [|c s IH]; [done|]. simpl.
  intros [-> Hs]%andb_prop. by rewrite (IH Hs).
Qed.

Lemma span_all_then f s c q :
  Str.forallb f s = true -> f c = false ->
  Str.span f (s +:+ String c q) = (s, String c q).
Proof.
  intros Hs Hc. rewrite span_append by done. by rewrite (span_forallb f s Hs).
Qed.

Lemma str_take_drop n s : s = Str.take n s +:+ Str.drop n s.
Proof.
  revert s. induction n as [|n IH]; intros [|c s]; try done.
  simpl. by rewrite append_cons, <- IH.
Qed.

Lemma str_take_append s r : Str.take (String.length s) (s +:+ r) = s.
Proof.
  induction s as [|c s IH]; [by destruct r|].
  rewrite append_cons. simpl. by rewrite IH.
Qed.

Lemma str_drop_append s r : Str.drop (String.length s) (s +:+ r) = r.
Proof. induction s as [|c s IH]; [done|]. by rewrite append_cons. Qed.

Lemma span_upto_length n f s : String.length (Str.span_upto n f s) <= n.
Proof.
  revert s. induction n as [|n IH]; intros [|c s]; simpl; try lia.
  destruct (f c); simpl; [|lia]. specialize (IH s). lia.
Qed.

Lemma span_upto_forallb n f s : Str.forallb f (Str.span_upto n f s) = true.
Proof.
  revert s. induction n as [|n IH]; intros [|c s]; simpl; try done.
  destruct (f c) eqn:Ec; [|done]. simpl. by rewrite Ec, IH.
Qed.

(** A run of the class that is short enough, with nothing of the class
    behind it, is taken whole. *)
Lemma span_upto_whole n f s r :
  Str.forallb f s = true -> String.length s <= n ->
  Str.forallb f (Str.take 1 r) = false \/ r = "" ->
  Str.span_upto n f (s +:+ r) = s.
Proof.
  revert n. induction s as [|c s IH]; intros n Hs Hn Hr.
  - rewrite append_nil. destruct n, r as [|c r]; try done. simpl.
    destruct Hr as [Hr|Hr]; [|done]. simpl in Hr.
    rewrite andb_true_r in Hr. by rewrite Hr.
  - simpl in Hs, Hn. apply andb_prop in Hs as [Hc Hs].
    destruct n as [|n]; [lia|]. rewrite append_cons. simpl.
    rewrite Hc, IH; [done..|lia|done].
Qed.

Lemma append_nil_r s : s +:+ "" = s.
Proof. induction s as [|c s IH]; [done|]. by rewrite append_cons, IH. Qed.

Lemma append_length s r :
  String.length (s +:+ r) = String.length s + String.length r.
Proof. induction s as [|c s IH]; [done|]. rewrite append_cons. simpl. lia. Qed.
End MoreStringFacts.

(** ** What a match of the command pattern says about the comment *)

Lemma optional_branch_spec (s : string) :
  let '(g1, rest) := Regex.optional_branch s in
  s = match g1 with Some b => ":" +:+ b | None => "" end +:+ rest
  /\ match g1 with Some b => valid_qualifier b = true | None => True end.
Proof.
  unfold Regex.optional_branch.
  destruct s as [|c s]; [done|].
  destruct (decide (c = ":"%char)) as [->|Hc].
  - pose proof (span_spec Chars.is_branch_char s) as [H1 H2].
    destruct (Str.span Chars.is_branch_char s) as [b rest]; cbn [fst snd] in *.
    destruct (Str.is_empty b) eqn:Eb; [done|].
    split; [by rewrite append_assoc, append_cons, append_nil, <- H1|].
    unfold valid_qualifier. by rewrite Eb, H2.
  - destruct c as [[] [] [] [] [] [] [] []]; try done.
Qed.

Lemma command_pattern_search_sound (c : string) g1 g2 g3 :
  Regex.command_pattern_search c = Some (g1, g2, g3) ->
  exists tail,
    c = format_command g1 g2 [] +:+ g3 +:+ tail
    /\ (tail = "" \/ tail = nl)
    /\ match g1 with Some b => valid_qualifier b = true | None => True end
    /\ valid_sha g2 = true
    /\ Str.forallb Chars.is_dot g3 = true.
Proof.
  unfold Regex.command_pattern_search.
  destruct (Str.strip_prefix "/merge" c) as [s1|] eqn:E1; [|done].
  apply strip_prefix_Some in E1.
  pose proof (optional_branch_spec s1) as Hb.
  destruct (Regex.optional_branch s1) as [g s2]. destruct Hb as [Hs1 Hq].
  destruct (Str.strip_prefix " head=" s2) as [s3|] eqn:E3; [|done].
  apply strip_prefix_Some in E3.
  pose proof (str_take_drop 40 s3) as Hsplit. cbv zeta.
  remember (Str.take 40 s3) as head eqn:Ehead.
  remember (Str.drop 40 s3) as rest eqn:Erest.
  destruct (_ && _) eqn:E4; [|done].
  pose proof (span_spec Chars.is_dot rest) as [H1 H2].
  destruct (Str.span Chars.is_dot rest) as [a b]; cbn [fst snd] in *.
  destruct (bool_decide (b = "") || bool_decide (b = String "010" "")) eqn:E5; [|done].
  intros [= <- <- <-]. exists b. repeat split; try done.
  - unfold format_command. cbn [mentions]. rewrite E1, Hs1, E3, Hsplit, H1.
    by rewrite !append_assoc, append_nil.
  - apply orb_prop in E5 as [E5|E5]; apply bool_decide_eq_true in E5;
      [by left|by right].
Qed.

(** The parser's answer for a comment the pattern matches. *)
Lemma parse_merge_command_matched (c : string) g1 g2 g3 (w : World) :
  Regex.command_pattern_search c = Some (g1, g2, g3) ->
  result (parse_merge_command c) w
  = Ret (Some match g1 with
              | None => "master"
              | Some b =>
                  if bool_decide (b = "master") || bool_decide (b = "beta")
                  then b else "branch/" +:+ b
              end,
         Some g2, Some (Regex.findall_handles 0 g3)).
Proof.
  intros Hs. unfold result, parse_merge_command.
  assert (Hstart : Str.startswith c "/merge" = true).
  { unfold Str.startswith, Regex.command_pattern_search in *.
    by destruct (Str.strip_prefix "/merge" c). }
  rewrite Hstart, Hs. cbn [negb]. by destruct g1.
Qed.

Lemma parse_merge_command_unmatched (c : string) (w : World) :
  Regex.command_pattern_search c = None ->
  result (parse_merge_command c) w = Ret (None, None, None).
Proof.
  intros Hs. unfold result, parse_merge_command. rewrite Hs.
  by destruct (negb _).
Qed.

(** ** The collaborator handles *)

Lemma findall_handles_valid (skip : nat) (s : string) :
  Forall (fun h => valid_handle h = true) (Regex.findall_handles skip s).
Proof.
  revert skip. induction s as [|c s IH]; intros skip; [by constructor|].
  cbn [Regex.findall_handles]. destruct skip as [|k]; [|apply IH].
  destruct (Chars.is_char "@" c); [|apply IH].
  destruct (Str.is_empty (Str.span_upto 39 Chars.is_handle_char s)) eqn:Eh;
    [apply IH|].
  constructor; [|apply IH]. unfold valid_handle.
  rewrite Eh, span_upto_forallb, andb_true_r. cbn [negb andb].
  apply Nat.leb_le, span_upto_length.
Qed.

Lemma findall_handles_skip (h r : string) :
  Regex.findall_handles (String.length h) (h +:+ r) = Regex.findall_handles 0 r.
Proof. induction h as [|c h IH]; [by destruct r|]. by rewrite append_cons. Qed.

Lemma mentions_single_line (handles : list string) :
  Forall (fun h => valid_handle h = true) handles ->
  Str.forallb Chars.is_dot (mentions handles) = true.
Proof.
  induction 1 as [|h handles Hh _ IH]; [done|].
  cbn [mentions]. rewrite !forallb_append, IH, andb_true_r. cbn.
  unfold valid_handle in Hh. apply andb_prop in Hh as [_ Hh].
  clear -Hh. induction h as [|c h IH]; [done|].
  simpl in *. apply andb_prop in Hh as [Hc Hh]. rewrite (IH Hh), andb_true_r.
  destruct c as [[] [] [] [] [] [] [] []]; try done.
Qed.

(** Mentions written one after the other are read back as they were
    written: in their order, and with their repetitions. *)
Lemma findall_handles_mentions (handles : list string) :
  Forall (fun h => valid_handle h = true) handles ->
  Regex.findall_handles 0 (mentions handles) = handles.
Proof.
  induction 1 as [|h handles Hh _ IH]; [done|].
  cbn [mentions]. rewrite !append_cons, append_nil.
  change (Regex.findall_handles 0 (String " " (String "@" (h +:+ mentions handles))))
    with (let m := Str.span_upto 39 Chars.is_handle_char (h +:+ mentions handles) in
          if Str.is_empty m then Regex.findall_handles 0 (h +:+ mentions handles)
          else m :: Regex.findall_handles (String.length m) (h +:+ mentions handles)).
  cbv zeta. unfold valid_handle in Hh.
  apply andb_prop in Hh as [[Hne Hlen]%andb_prop Hall].
  rewrite span_upto_whole; [| done | by apply Nat.leb_le |].
  - destruct (Str.is_empty h); [done|].
    by rewrite findall_handles_skip, IH.
  - destruct handles as [|h' handles]; [by right|by left].
Qed.

(** * The merge command: what is accepted, and what is read from it *)

Lemma forallb_impl (f g : ascii -> bool) (s : string) :
  (forall c, f c = true -> g c = true) ->
  Str.forallb f s = true -> Str.forallb g s = true.
Proof.
  intros Hfg. induction s as [|c s IH]; [done|]. simpl.
  intros [Hc Hs]%andb_prop. by rewrite (Hfg c Hc), IH.
Qed.

Lemma is_branch_char_dot c : Chars.is_branch_char c = true -> Chars.is_dot c = true.
Proof. destruct c as [[] [] [] [] [] [] [] []]; done. Qed.

Lemma is_hex_dot c : Chars.is_hex c = true -> Chars.is_dot c = true.
Proof. destruct c as [[] [] [] [] [] [] [] []]; done. Qed.

Lemma format_command_single_line q sha :
  match q with Some b => valid_qualifier b = true | None => True end ->
  valid_sha sha = true ->
  Str.forallb Chars.is_dot (format_command q sha []) = true.
Proof.
  intros Hq [_ Hsha]%andb_prop. unfold format_command.
  rewrite !forallb_append. cbn [mentions].
  rewrite (forallb_impl _ _ _ is_hex_dot Hsha).
  destruct q as [b|]; [|done].
  apply andb_prop in Hq as [_ Hb].
  rewrite forallb_append, (forallb_impl _ _ _ is_branch_char_dot Hb). done.
Qed.

(** A text without a newline, followed by nothing or by one newline,
    splits at a newline in one way only. *)
Lemma single_line_split (body tail pre post : string) :
  Str.forallb Chars.is_dot body = true ->
  tail = "" \/ tail = nl ->
  body +:+ tail = pre +:+ nl +:+ post ->
  post = "".
Proof.
  intros Hbody Htail. unfold nl in *. revert pre.
  induction body as [|c body IH]; intros pre.
  - rewrite append_nil. destruct Htail as [->| ->].
    + by destruct pre.
    + destruct pre as [|a pre]; str_norm.
      * by intros [= <-].
      * intros [= _ H]. by destruct pre.
  - simpl in Hbody. apply andb_prop in Hbody as [Hc Hbody].
    destruct pre as [|a pre]; str_norm.
    + intros [= -> _]. done.
    + intros [= _ H]. by apply (IH Hbody pre).
Qed.

Lemma command_pattern_search_complete (q : option string) (sha rest tail : string) :
  match q with Some b => valid_qualifier b = true | None => True end ->
  valid_sha sha = true ->
  Str.forallb Chars.is_dot rest = true ->
  tail = "" \/ tail = nl ->
  Regex.command_pattern_search (format_command q sha [] +:+ rest +:+ tail)
  = Some (q, sha, rest).
Proof.
  intros Hq Hsha Hrest Htail.
  unfold format_command, Regex.command_pattern_search. cbn [mentions].
  rewrite append_nil_r, !append_assoc, strip_prefix_append.
  assert (Hopt : forall X,
    Regex.optional_branch
      (match q with Some b => ":" +:+ b | None => "" end +:+ " head=" +:+ X)
    = (q, " head=" +:+ X)).
  { intros X. destruct q as [b|]; [|done].
    apply andb_prop in Hq as [Hne Hb].
    rewrite append_assoc, !append_cons, append_nil.
    unfold Regex.optional_branch.
    rewrite (span_all_then _ _ _ _ Hb) by done.
    by destruct (Str.is_empty b). }
  rewrite Hopt, strip_prefix_append. cbv zeta.
  pose proof Hsha as [Hlen%Nat.eqb_eq _]%andb_prop.
  assert (Ht : forall X, Str.take 40 (sha +:+ X) = sha)
    by (intros X; rewrite <- Hlen; apply str_take_append).
  assert (Hd : forall X, Str.drop 40 (sha +:+ X) = X)
    by (intros X; rewrite <- Hlen; apply str_drop_append).
  rewrite Ht, Hd.
  fold (valid_sha sha). rewrite Hsha.
  destruct Htail as [->| ->].
  - rewrite append_nil_r, (span_forallb _ _ Hrest). done.
  - unfold nl. rewrite (span_all_then _ _ _ _ Hrest) by done. done.
Qed.

(** X1.  Whatever the comment, [parse_merge_command] returns, and returns
    either nothing at all or a whole request whose parts are well formed:
    the target branch is [master], [beta], or [branch/] followed by a
    non-empty run of the characters of the qualifier class; the head
    identifier is forty hexadecimal characters; every collaborator is one
    to thirty-nine characters of letters, digits and dashes. *)
Theorem parse_merge_command_request_well_formed (c : string) (w : World) :
  result (parse_merge_command c) w = Ret (None, None, None)
  \/ exists branch sha handles,
       result (parse_merge_command c) w = Ret (Some branch, Some sha, Some handles)
       /\ (branch = "master" \/ branch = "beta"
           \/ exists q, branch = "branch/" +:+ q /\ valid_qualifier q = true)
       /\ valid_sha sha = true
       /\ Forall (fun h => valid_handle h = true) handles.
Proof.
  destruct (Regex.command_pattern_search c) as [[[g1 g2] g3]|] eqn:Hs.
  - right. apply command_pattern_search_sound in Hs as Hsound.
    destruct Hsound as (tail & _ & _ & Hq & Hsha & _).
    eexists _, g2, _. split; [by apply parse_merge_command_matched|].
    split; [|split; [done|apply findall_handles_valid]].
    destruct g1 as [b|]; [|by left].
    destruct (bool_decide (b = "master")) eqn:E1.
    { left. by apply bool_decide_eq_true in E1. }
    destruct (bool_decide (b = "beta")) eqn:E2.
    { right; left. by apply bool_decide_eq_true in E2. }
    right; right. by exists b.
  - left. by apply parse_merge_command_unmatched.
Qed.

(** X2.  A command written in the documented form is read back as it was
    written: the qualifier (none means [master]; [master] and [beta] are
    kept, any other is prefixed with [branch/]), the head identifier, and
    the mentioned collaborators in their order, with or without a final
    newline. *)
Theorem parse_merge_command_round_trip
    (q : option string) (sha : string) (handles : list string) (tail : string)
    (w : World) :
  match q with Some b => valid_qualifier b = true | None => True end ->
  valid_sha sha = true ->
  Forall (fun h => valid_handle h = true) handles ->
  tail = "" \/ tail = nl ->
  result (parse_merge_command (format_command q sha handles +:+ tail)) w
  = Ret (Some match q with
              | None => "master"
              | Some b =>
                  if bool_decide (b = "master") || bool_decide (b = "beta")
                  then b else "branch/" +:+ b
              end,
         Some sha, Some handles).
Proof.
  intros Hq Hsha Hh Htail.
  rewrite <- (findall_handles_mentions handles Hh) at 2.
  apply parse_merge_command_matched.
  replace (format_command q sha handles +:+ tail)
    with (format_command q sha [] +:+ mentions handles +:+ tail).
  - apply command_pattern_search_complete; try done.
    by apply mentions_single_line.
  - unfold format_command. cbn [mentions].
    by rewrite append_nil_r, !append_assoc.
Qed.

Lemma parse_merge_command_round_trip_witness :
  result (parse_merge_command
            (format_command (Some "24.08") sha_a ["alice"; "bob-2"] +:+ nl))
         idle_world
  = Ret (Some "branch/24.08", Some sha_a, Some ["alice"; "bob-2"]).
Proof.
  apply (parse_merge_command_round_trip (Some "24.08") sha_a ["alice"; "bob-2"] nl
           idle_world); [reflexivity | reflexivity | | by right].
  repeat constructor.
Defined.

(** X3.  The command is the whole comment: a comment with anything after
    its first line break is no request, whatever its first line is. *)
Theorem parse_merge_command_whole_comment (pre post : string) (w : World) :
  post <> "" ->
  result (parse_merge_command (pre +:+ nl +:+ post)) w = Ret (None, None, None).
Proof.
  intros Hpost.
  destruct (Regex.command_pattern_search (pre +:+ nl +:+ post))
    as [[[g1 g2] g3]|] eqn:Hs; [|by apply parse_merge_command_unmatched].
  exfalso. apply Hpost.
  apply command_pattern_search_sound in Hs
    as (tail & Hc & Htail & Hq & Hsha & Hrest).
  rewrite <- (append_assoc (format_command g1 g2 [])) in Hc. symmetry in Hc.
  apply (single_line_split _ _ _ _ ) in Hc; [done| |done].
  by rewrite forallb_append, format_command_single_line, Hrest.
Qed.

Lemma parse_merge_command_whole_comment_witness :
  result (parse_merge_command (("/merge head=" +:+ sha_a) +:+ nl +:+ "Thanks!"))
         idle_world
  = Ret (None, None, None).
Proof.
  by apply (parse_merge_command_whole_comment ("/merge head=" +:+ sha_a) "Thanks!"
              idle_world).
Defined.

(** X4.  The comments that make a request are exactly those made of the
    text /merge, an optional colon and qualifier, a space, [head=] and
    forty hexadecimal characters, then any text without a line break, then
    nothing or one line break. *)
Theorem parse_merge_command_accepts_iff (c : string) (w : World) :
  result (parse_merge_command c) w <> Ret (None, None, None)
  <-> exists q sha rest tail,
        c = format_command q sha [] +:+ rest +:+ tail
        /\ match q with Some b => valid_qualifier b = true | None => True end
        /\ valid_sha sha = true
        /\ Str.forallb Chars.is_dot rest = true
        /\ (tail = "" \/ tail = nl).
Proof.
  split.
  - intros Hr.
    destruct (Regex.command_pattern_search c) as [[[g1 g2] g3]|] eqn:Hs.
    + apply command_pattern_search_sound in Hs
        as (tail & Hc & Htail & Hq & Hsha & Hrest).
      by exists g1, g2, g3, tail.
    + by apply (parse_merge_command_unmatched c w) in Hs.
  - intros (q & sha & rest & tail & -> & Hq & Hsha & Hrest & Htail).
    by rewrite (parse_merge_command_matched _ q sha rest w
                  (command_pattern_search_complete q sha rest tail Hq Hsha Hrest Htail)).
Qed.

(** * The resolver of the application identifier *)

Lemma endswith_split (s suffix : string) :
  Str.endswith s suffix = true -> exists r, s = r +:+ suffix.
Proof.
  unfold Str.endswith. intros [_ H%bool_decide_eq_true]%andb_prop.
  exists (Str.take (String.length s - String.length suffix) s).
  pose proof (str_take_drop (String.length s - String.length suffix) s) as Hs.
  by rewrite H in Hs.
Qed.

Lemma before_last_dot_no_dot (s : string) :
  Str.forallb (fun c => negb (Chars.is_char "." c)) s = true ->
  Path.before_last_dot s = None.
Proof.
  induction s as [|c s IH]; [done|]. simpl.
  intros [Hc Hs]%andb_prop. rewrite (IH Hs).
  by destruct (Chars.is_char "." c).
Qed.

Lemma before_last_dot_append (r ext : string) :
  Str.forallb (fun c => negb (Chars.is_char "." c)) ext = true ->
  Path.before_last_dot (r +:+ "." +:+ ext) = Some r.
Proof.
  intros Hext. induction r as [|c r IH].
  - rewrite append_nil, append_cons, append_nil. simpl.
    by rewrite (before_last_dot_no_dot _ Hext).
  - rewrite append_cons. simpl. by rewrite IH.
Qed.

(** A visible name with an extension is its root, a dot and the
    extension. *)
Lemma splitext_root_ext (name ext : string) :
  Str.startswith name "." = false ->
  Str.endswith name ("." +:+ ext) = true ->
  Str.forallb (fun c => negb (Chars.is_char "." c)) ext = true ->
  name = Path.splitext_root name +:+ "." +:+ ext.
Proof.
  intros Hvis [r ->]%endswith_split Hext.
  unfold Path.splitext_root.
  assert (Hspan : Str.span (Chars.is_char ".") (r +:+ "." +:+ ext)
                  = ("", r +:+ "." +:+ ext)).
  { destruct r as [|c r].
    - by rewrite append_nil, append_cons in Hvis.
    - rewrite append_cons in *. simpl.
      destruct (Chars.is_char "." c) eqn:Ec; [|done].
      unfold Str.startswith in Hvis. simpl in Hvis.
      destruct c as [[] [] [] [] [] [] [] []]; done. }
  rewrite Hspan, (before_last_dot_append _ _ Hext). by rewrite append_nil.
Qed.

(** One turn of the scan: the candidate is read; an exception of the
    reader leaves the scan, a self-named candidate ends it, any other
    candidate is passed. *)
Lemma detect_appid_loop_step
    (dirname : string) (f : DirEntry) (files : list DirEntry) (w : World) :
  result (detect_appid_loop dirname (f :: files)) w
  = match result (_get_id_from_flatpak_manifest
                    (Path.join dirname (entry_name f)) f) w with
    | Raise e => Raise e
    | Ret _ =>
        if self_named dirname w f
        then Ret (Some (entry_name f), Some (Path.splitext_root (entry_name f)))
        else result (detect_appid_loop dirname files) w
    end.
Proof.
  cbn [detect_appid_loop]. unfold self_named.
  unfold result. rewrite run_bind. cbv [log]. cbn [fst snd].
  set (w1 := emit _ w). rewrite run_bind.
  pose proof (pure_result__get_id_from_flatpak_manifest
                (Path.join dirname (entry_name f)) f w1 w) as Hpure.
  unfold result in Hpure.
  destruct (_get_id_from_flatpak_manifest _ f w1) as [r w2]; cbn [fst] in Hpure.
  rewrite <- Hpure. destruct r as [v|e]; [|done]. cbn [fst snd].
  rewrite is_truthy_self_named.
  assert (Hdec : bool_decide (Ret v = Ret (Some (VStr (Path.splitext_root (entry_name f)))))
                 = bool_decide (v = Some (VStr (Path.splitext_root (entry_name f))))).
  { apply bool_decide_ext. split; [by intros [= ->]|by intros ->]. }
  rewrite Hdec.
  destruct (_ && _).
  - by rewrite !run_bind.
  - apply pure_result_detect_appid_loop.
Qed.

Lemma detect_appid_loop_sound
    (dirname : string) (files : list DirEntry) (w : World) (a b : option string) :
  result (detect_appid_loop dirname files) w = Ret (a, b) ->
  (a = None /\ b = None)
  \/ exists f,
       f ∈ files
       /\ a = Some (entry_name f) /\ b = Some (Path.splitext_root (entry_name f))
       /\ self_named dirname w f = true.
Proof.
  induction files as [|f files IH]; [intros [= <- <-]; by left|].
  rewrite detect_appid_loop_step.
  destruct (result (_get_id_from_flatpak_manifest _ f) w); [|done].
  destruct (self_named dirname w f) eqn:Hf.
  - intros [= <- <-]. right. exists f. by rewrite elem_of_cons; auto.
  - intros [H|(g & Hg & H)]%IH; [by left|].
    right. exists g. rewrite elem_of_cons. auto.
Qed.

(** The scan over candidates that are read without an exception, then
    over others: the first self-named candidate of the first part is
    returned, and the second part is read only when there is none. *)
Lemma detect_appid_loop_app
    (dirname : string) (l1 l2 : list DirEntry) (w : World) :
  Forall (reads_cleanly dirname w) l1 ->
  result (detect_appid_loop dirname (l1 ++ l2)) w
  = match List.find (self_named dirname w) l1 with
    | Some f => Ret (Some (entry_name f), Some (Path.splitext_root (entry_name f)))
    | None => result (detect_appid_loop dirname l2) w
    end.
Proof.
  induction 1 as [|f l1 [v Hv] _ IH]; [done|].
  rewrite <- app_comm_cons, detect_appid_loop_step, Hv. cbn [List.find].
  by destruct (self_named dirname w f).
Qed.

Lemma candidate_files_spec (entries : list DirEntry) (f : DirEntry) :
  f ∈ candidate_files entries
  <-> f ∈ entries
      /\ entry_is_file f = true
      /\ Str.startswith (entry_name f) "." = false
      /\ exists ext, ext ∈ ["yml"; "yaml"; "json"]
                     /\ Str.endswith (entry_name f) ("." +:+ ext) = true.
Proof.
  unfold candidate_files. rewrite list_elem_of_In, filter_In, in_concat.
  setoid_rewrite in_map_iff. unfold Path.glob. split.
  - intros [(l & (ext & <- & Hext) & Hf) Hfile].
    apply filter_In in Hf as [Hf [Hvis Hend]%andb_prop].
    apply negb_true_iff in Hvis. apply list_elem_of_In in Hf, Hext.
    split_and!; try done. by exists ext.
  - intros (Hf & Hfile & Hvis & ext & Hext & Hend).
    split; [|done]. eexists. split.
    + exists ext. split; [done|]. by apply list_elem_of_In.
    + apply filter_In. split; [by apply list_elem_of_In|].
      by rewrite Hvis, Hend.
Qed.

(** X5.  What [detect_appid] returns without an exception is nothing at
    all, or a file and an identifier that go together: the file is a
    regular, visible file of the directory named by the identifier, a
    dot, and one of the three extensions, the identifier is not empty,
    and the file declares it. *)
Theorem detect_appid_sound (dirname : string) (w : World) (a b : option string) :
  result (detect_appid dirname) w = Ret (a, b) ->
  (a = None /\ b = None)
  \/ exists f id ext,
       f ∈ listdir w dirname
       /\ a = Some (entry_name f) /\ b = Some id
       /\ entry_is_file f = true
       /\ ext ∈ ["yml"; "yaml"; "json"]
       /\ entry_name f = id +:+ "." +:+ ext
       /\ Str.startswith (entry_name f) "." = false
       /\ id <> ""
       /\ result (_get_id_from_flatpak_manifest
                    (Path.join dirname (entry_name f)) f) w
          = Ret (Some (VStr id)).
Proof.
  unfold detect_appid, result. rewrite run_bind. cbv [get_world]. cbn [fst snd].
  intros Hr.
  assert (Hloop : result (detect_appid_loop dirname
                            (candidate_files (listdir w dirname))) w = Ret (a, b)).
  { destruct (candidate_files (listdir w dirname)); [|done].
    rewrite run_bind in Hr. cbv [log] in Hr. by cbn [fst snd] in Hr. }
  apply detect_appid_loop_sound in Hloop as [H|(f & Hf & -> & -> & Hself)];
    [by left|right].
  apply candidate_files_spec in Hf as (Hf & Hfile & Hvis & ext & Hext & Hend).
  apply andb_prop in Hself as [Hid%bool_decide_eq_true Hne%negb_true_iff].
  exists f, (Path.splitext_root (entry_name f)), ext.
  split_and!; try done.
  - apply splitext_root_ext; [done..|].
    set_unfold in Hext. by destruct Hext as [->|[->|[->|[]]]].
  - by intros E; rewrite E in Hne.
Qed.

Lemma detect_appid_sound_witness :
  let w := world_with_files
             [json_manifest_file "org.example.App.json" "org.example.App"] in
  exists f id ext,
    f ∈ listdir w "/tmp/clone"
    /\ Some "org.example.App.json" = Some (entry_name f)
    /\ Some "org.example.App" = Some id
    /\ entry_is_file f = true
    /\ ext ∈ ["yml"; "yaml"; "json"]
    /\ entry_name f = id +:+ "." +:+ ext
    /\ Str.startswith (entry_name f) "." = false
    /\ id <> ""
    /\ result (_get_id_from_flatpak_manifest
                 (Path.join "/tmp/clone" (entry_name f)) f) w
       = Ret (Some (VStr id)).
Proof.
  intros w.
  destruct (detect_appid_sound "/tmp/clone" w (Some "org.example.App.json")
              (Some "org.example.App") eq_refl) as [[H _]|H]; [discriminate H|exact H].
Defined.

Lemma reads_cleanly_yaml (dirname : string) (w : World) (f : DirEntry) :
  Str.endswith (entry_name f) ".yml" || Str.endswith (entry_name f) ".yaml" = true ->
  (forall e, entry_yaml f <> YamlRaised e) ->
  reads_cleanly dirname w f.
Proof.
  intros Hext Hyaml. unfold reads_cleanly, _get_id_from_flatpak_manifest,
    _read_flatpak_manifest, _read_yaml_flatpak_manifest.
  rewrite orb_comm in Hext. rewrite Hext. rewrite orb_comm in Hext. rewrite Hext.
  unfold result.
  destruct (entry_is_file f), (entry_yaml f) as [[d|]|msg|e]; cbn [andb];
    try (by destruct (Hyaml e));
    rewrite ?run_bind; cbv [log mret M_ret]; cbn [fst snd];
    repeat match goal with
           | |- context [negb ?b] => destruct b; cbn [negb fst snd]
           | |- context [(_ ≫= _) _] => rewrite run_bind; cbn [fst snd]
           end; eauto.
Qed.

(** X6.  The YAML candidates are scanned before the JSON ones, and a
    YAML candidate whose load succeeds or raises [yaml.YAMLError] does
    not stop the scan: in a directory with a self-named YAML manifest,
    none of whose YAML files makes the load raise another exception, the
    resolver returns a self-named YAML manifest, whatever JSON files
    stand beside it, also ones that cannot be parsed. *)
Theorem detect_appid_yaml_first (dirname : string) (w : World) (f : DirEntry) :
  f ∈ listdir w dirname ->
  entry_is_file f = true ->
  Str.startswith (entry_name f) "." = false ->
  Str.endswith (entry_name f) ".yml" || Str.endswith (entry_name f) ".yaml" = true ->
  self_named dirname w f = true ->
  (forall g e,
     g ∈ listdir w dirname ->
     Str.endswith (entry_name g) ".yml" || Str.endswith (entry_name g) ".yaml" = true ->
     entry_yaml g <> YamlRaised e) ->
  exists g,
    result (detect_appid dirname) w
    = Ret (Some (entry_name g), Some (Path.splitext_root (entry_name g)))
    /\ g ∈ listdir w dirname
    /\ Str.endswith (entry_name g) ".yml" || Str.endswith (entry_name g) ".yaml" = true
    /\ self_named dirname w g = true.
Proof.
  intros Hf Hfile Hvis Hext Hself Hyaml.
  set (entries := listdir w dirname) in *.
  set (yamls := List.filter entry_is_file
                  (Path.glob entries "yml" ++ Path.glob entries "yaml")).
  set (jsons := List.filter entry_is_file (Path.glob entries "json")).
  assert (Hfiles : candidate_files entries = (yamls ++ jsons)%list).
  { unfold candidate_files, yamls, jsons.
    cbn [List.map List.concat]. by rewrite app_nil_r, app_assoc, List.filter_app. }
  assert (Hyamls : forall g, In g yamls ->
            In g entries
            /\ Str.endswith (entry_name g) ".yml" || Str.endswith (entry_name g) ".yaml"
               = true).
  { intros g [Hg _]%filter_In. unfold Path.glob in Hg.
    apply in_app_or in Hg as [Hg|Hg]; apply filter_In in Hg as [Hin [_ Hend]%andb_prop];
      (split; [done|]); change ("." +:+ "yml") with ".yml" in *;
      change ("." +:+ "yaml") with ".yaml" in *; rewrite Hend; by rewrite ?orb_true_r. }
  assert (Hin : In f yamls).
  { apply filter_In. split; [|done]. apply in_or_app. unfold Path.glob.
    apply list_elem_of_In in Hf.
    apply orb_prop in Hext as [Hend|Hend]; [left|right];
      (apply filter_In; split; [done|]); rewrite Hvis; exact Hend. }
  assert (Hclean : Forall (reads_cleanly dirname w) yamls).
  { apply List.Forall_forall. intros g Hg.
    destruct (Hyamls g Hg) as [Hgin Hgext].
    apply reads_cleanly_yaml; [done|]. intros e.
    apply Hyaml; [by apply list_elem_of_In|done]. }
  destruct (List.find (self_named dirname w) yamls) as [g|] eqn:Hfind.
  - apply find_some in Hfind as Hg. destruct Hg as [Hg Hgself].
    exists g. destruct (Hyamls g Hg) as [Hgin Hgext].
    split_and!; try done; [|by apply list_elem_of_In].
    unfold detect_appid, result. rewrite run_bind. cbv [get_world]. cbn [fst snd].
    fold entries. rewrite Hfiles.
    pose proof (detect_appid_loop_app dirname yamls jsons w Hclean) as Hrun.
    rewrite Hfind in Hrun. unfold result in Hrun.
    destruct (yamls ++ jsons)%list eqn:E; [|done].
    apply app_eq_nil in E as [-> _]. done.
  - by rewrite (find_none _ _ Hfind f Hin) in Hself.
Qed.

Lemma detect_appid_yaml_first_witness :
  let w := world_with_files
             [bad_json_file "broken.json";
              yaml_manifest_file "org.example.App.yaml" "org.example.App"] in
  exists g,
    result (detect_appid "/tmp/clone") w
    = Ret (Some (entry_name g), Some (Path.splitext_root (entry_name g)))
    /\ g ∈ listdir w "/tmp/clone"
    /\ Str.endswith (entry_name g) ".yml" || Str.endswith (entry_name g) ".yaml" = true
    /\ self_named "/tmp/clone" w g = true.
Proof.
  intros w.
  apply (detect_appid_yaml_first "/tmp/clone" w
           (yaml_manifest_file "org.example.App.yaml" "org.example.App")).
  - apply list_elem_of_In. right. by left.
  - reflexivity.
  - reflexivity.
  - reflexivity.
  - by vm_compute.
  - intros g e Hg _. apply list_elem_of_In in Hg.
    destruct Hg as [<-|[<-|[]]]; discriminate.
Defined.

(** A YAML file whose load raises anything but [yaml.YAMLError], as a
    file that is not UTF-8 does, ends the scan with that exception: the
    manifest behind it is not looked at. *)
Example detect_appid_yaml_other_exception :
  let undecodable :=
    {| entry_name := "latin1.yml"; entry_is_file := true;
       entry_yaml := YamlRaised (OtherError "UnicodeDecodeError");
       entry_json := no_json |} in
  let w := world_with_files
             [undecodable;
              yaml_manifest_file "org.example.App.yml" "org.example.App"] in
  result (detect_appid "/tmp/clone") w = Raise (OtherError "UnicodeDecodeError").
Proof. by vm_compute. Qed.

(** * Steps of the promotion: what a success means, what a failure leaves *)

Lemma since_app (w w' : World) (evs : list Event) :
  trace w' = (trace w ++ evs)%list -> since w w' = evs.
Proof. intros H. unfold since. by rewrite H, drop_app_length. Qed.

Lemma since_refl (w : World) : since w w = [].
Proof. apply since_app. by rewrite app_nil_r. Qed.

Lemma since_emit (e : Event) (w : World) : since w (emit e w) = [e].
Proof. by apply since_app. Qed.

(** The events of a finished run, as a list behind the trace it started
    from. *)
Ltac trace_events :=
  unfold since;
  cbn [after trace emit tick add_repo snd];
  rewrite <- ?app_assoc, drop_app_length;
  cbn [app].

(** ** Publication *)

(** X7.  When the push is refused, the publication step answers False
    after two calls: the remote was added and the push was tried, the
    output of the push is logged, and nothing is removed, protected or
    fetched. *)
Theorem finalize_new_flathub_repo_push_refused
    (cloned : Clone) (remote : Repository)
    (repo_name token pr_branch target approved clone_path output : string)
    (w : World) :
  faults w (clock w) = None ->
  faults w (S (clock w)) = Some (CalledProcessError output) ->
  let m := finalize_new_flathub_repo cloned remote repo_name token pr_branch
             target approved clone_path in
  result m w = Ret false
  /\ calls (since w (after m w))
     = [RemotesCreate "flathub"
          ("https://x-access-token:" +:+ token +:+ "@github.com/flathub/"
           +:+ repo_name);
        GitPush clone_path (pr_branch +:+ ":" +:+ target)]
  /\ error_logs (since w (after m w))
     = ["Git push failed:" +:+ nl +:+ Str.strip output].
Proof.
  intros H0 H1.
  unfold finalize_new_flathub_repo, push_to_flathub_remote.
  run_unfold. run_simpl. rewrite H0. run_simpl. rewrite H1. run_simpl.
  split; [done|]. by trace_events.
Qed.

Lemma finalize_new_flathub_repo_push_refused_witness :
  let w := sample_world [] ∅ (fun _ => sample_service "open" sha_a sha_a sha_a)
             (fails_at 1 (CalledProcessError "rejected ")) in
  let m := finalize_new_flathub_repo {| clone_head_target := sha_a |}
             (repo_handle "org.example.App") "org.example.App" "tok" "topic"
             "master" sha_a "/tmp/clone" in
  result m w = Ret false
  /\ calls (since w (after m w))
     = [RemotesCreate "flathub"
          ("https://x-access-token:" +:+ "tok" +:+ "@github.com/flathub/"
           +:+ "org.example.App");
        GitPush "/tmp/clone" ("topic" +:+ ":" +:+ "master")]
  /\ error_logs (since w (after m w))
     = ["Git push failed:" +:+ nl +:+ Str.strip "rejected "].
Proof.
  intros w.
  exact (finalize_new_flathub_repo_push_refused {| clone_head_target := sha_a |}
           (repo_handle "org.example.App") "org.example.App" "tok" "topic"
           "master" sha_a "/tmp/clone" "rejected " w eq_refl eq_refl).
Defined.

Lemma finalize_new_flathub_repo_run_true
    (cloned : Clone) (remote : Repository)
    (repo_name token pr_branch target approved clone_path : string) (w : World) :
  let m := finalize_new_flathub_repo cloned remote repo_name token pr_branch
             target approved clone_path in
  result m w = Ret true ->
  (forall i, i < 16 -> faults w (i + clock w) = None)
  /\ calls (since w (after m w))
     = ([RemotesCreate "flathub"
           ("https://x-access-token:" +:+ token +:+ "@github.com/flathub/"
            +:+ repo_name);
         GitPush clone_path (pr_branch +:+ ":" +:+ target);
         RepoRemoveFromCollaborators (Repository_name remote) "flathubbot"]
        ++ protection_calls w (3 + clock w) repo_name protected_patterns
        ++ [RepoGetBranch (Repository_name remote) target])%list
  /\ error_logs (since w (after m w)) = [].
Proof.
  unfold finalize_new_flathub_repo, push_to_flathub_remote, protected_patterns,
    set_protected_branch, for_each.
  run_unfold. simpl.
  do 16 next_call w ltac:(fun e => try destruct e; by simpl).
  case_bool_decide as Hs; simpl; [|intros [=]].
  case_bool_decide as Hp; simpl; [|intros [=]].
  intros _. split.
  { intros i Hi. do 16 (destruct i as [|i]; [assumption|]). lia. }
  trace_events. unfold protection_calls. cbn.
  by rewrite ?Nat.add_succ_r, ?Nat.add_0_r.
Qed.

(** X8.  The publication step answers True only after all of its sixteen
    calls succeeded, in this order: the remote, the push, the removal of
    the bot from the collaborators, the two calls of each of the six
    protected patterns, and the fetch of the target branch; and it logged
    no error. *)
Theorem finalize_new_flathub_repo_success
    (cloned : Clone) (remote : Repository)
    (repo_name token pr_branch target approved clone_path : string) (w : World) :
  let m := finalize_new_flathub_repo cloned remote repo_name token pr_branch
             target approved clone_path in
  result m w = Ret true ->
  (forall i, i < 16 -> faults w (i + clock w) = None)
  /\ calls (since w (after m w))
     = ([RemotesCreate "flathub"
           ("https://x-access-token:" +:+ token +:+ "@github.com/flathub/"
            +:+ repo_name);
         GitPush clone_path (pr_branch +:+ ":" +:+ target);
         RepoRemoveFromCollaborators (Repository_name remote) "flathubbot"]
        ++ protection_calls w (3 + clock w) repo_name protected_patterns
        ++ [RepoGetBranch (Repository_name remote) target])%list
  /\ error_logs (since w (after m w)) = [].
Proof. apply finalize_new_flathub_repo_run_true. Qed.

Lemma finalize_new_flathub_repo_success_witness :
  let m := finalize_new_flathub_repo {| clone_head_target := sha_a |}
             (repo_handle "org.example.App") "org.example.App" "tok" "topic"
             "master" sha_a "/tmp/clone" in
  (forall i, i < 16 -> faults idle_world (i + clock idle_world) = None)
  /\ calls (since idle_world (after m idle_world))
     = ([RemotesCreate "flathub"
           ("https://x-access-token:" +:+ "tok" +:+ "@github.com/flathub/"
            +:+ "org.example.App");
         GitPush "/tmp/clone" ("topic" +:+ ":" +:+ "master");
         RepoRemoveFromCollaborators
           (Repository_name (repo_handle "org.example.App")) "flathubbot"]
        ++ protection_calls idle_world (3 + clock idle_world) "org.example.App"
             protected_patterns
        ++ [RepoGetBranch (Repository_name (repo_handle "org.example.App"))
              "master"])%list
  /\ error_logs (since idle_world (after m idle_world)) = [].
Proof.
  intros m.
  exact (finalize_new_flathub_repo_success {| clone_head_target := sha_a |}
           (repo_handle "org.example.App") "org.example.App" "tok" "topic"
           "master" sha_a "/tmp/clone" idle_world eq_refl).
Defined.

(** ** Provisioning *)

(** X9.  A lookup that fails with any status of the service is taken for
    an absent repository: the failure is logged, at level ERROR unless
    the status is 404, and the creation is attempted next. *)
Theorem create_new_flathub_repo_lookup_failure
    (org : Organization) (name : string) (status : Z) (w : World) :
  faults w (clock w) = Some (GithubException status) ->
  let m := create_new_flathub_repo org name in
  exists message rest,
    since w (after m w)
    = Call (OrgGetRepo name)
      :: Log (if (status =? 404)%Z then INFO else ERROR) message
      :: Log INFO ("Creating repository " +:+ name)
      :: Call (OrgCreateRepo name)
      :: rest.
Proof.
  intros Hf m. unfold after.
  destruct (m w) as [r w1] eqn:E. cbn [snd].
  unfold m in E. revert E. provisioning_unfold. rewrite Hf. intros E.
  repeat run_case_in E w; run_simpl_in E; injection E as <- <-;
    try (exfalso; congruence);
    eexists _, _; trace_events; reflexivity.
Qed.

Lemma create_new_flathub_repo_lookup_failure_witness :
  let w := sample_world [] {[ "flathub"; "org.example.App" ]}
             (fun _ => sample_service "open" sha_a sha_a sha_a)
             (fails_at 0 (GithubException 502)) in
  let m := create_new_flathub_repo {| org_login := "flathub" |} "org.example.App" in
  exists message rest,
    since w (after m w)
    = Call (OrgGetRepo "org.example.App")
      :: Log (if (502 =? 404)%Z then INFO else ERROR) message
      :: Log INFO ("Creating repository " +:+ "org.example.App")
      :: Call (OrgCreateRepo "org.example.App")
      :: rest.
Proof.
  intros w.
  exact (create_new_flathub_repo_lookup_failure {| org_login := "flathub" |}
           "org.example.App" 502 w eq_refl).
Defined.

Lemma create_new_flathub_repo_run_Some
    (org : Organization) (name : string) (repo : Repository) (w : World) :
  let m := create_new_flathub_repo org name in
  result m w = Ret (Some repo) ->
  repo = repo_handle name
  /\ (name ∉ org_repos w)
  /\ org_repos (after m w) = {[ name ]} ∪ org_repos w
  /\ calls (since w (after m w))
     = [OrgGetRepo name; OrgCreateRepo name;
        RepoEdit name ("https://flathub.org/apps/details/" +:+ name) true]
  /\ exists before,
       since w (after m w)
       = (before
          ++ [Call (OrgCreateRepo name); Sleep 5;
              Call (RepoEdit name ("https://flathub.org/apps/details/" +:+ name)
                      true)])%list.
Proof.
  intros m. unfold result, after.
  destruct (m w) as [r w1] eqn:E. cbn [fst snd].
  unfold m in E. revert E. provisioning_unfold. intros E.
  repeat run_case_in E w; run_simpl_in E; injection E as <- <-; run_simpl;
    try (exfalso; congruence);
    intros [= <-]; trace_events;
    (split_and!; [done|done|done|done|]);
    by eexists [_; _; _].
Qed.

(** X10.  A repository is handed back only by the run that created it:
    the name was free before, it is taken afterwards, the repository
    handed back has that name, and the calls of the run are the lookup,
    the creation and the edit that sets the home page and the deletion of
    merged branches, with a wait of five seconds before the edit. *)
Theorem create_new_flathub_repo_success
    (org : Organization) (name : string) (repo : Repository) (w : World) :
  let m := create_new_flathub_repo org name in
  result m w = Ret (Some repo) ->
  repo = repo_handle name
  /\ (name ∉ org_repos w)
  /\ org_repos (after m w) = {[ name ]} ∪ org_repos w
  /\ calls (since w (after m w))
     = [OrgGetRepo name; OrgCreateRepo name;
        RepoEdit name ("https://flathub.org/apps/details/" +:+ name) true]
  /\ exists before,
       since w (after m w)
       = (before
          ++ [Call (OrgCreateRepo name); Sleep 5;
              Call (RepoEdit name ("https://flathub.org/apps/details/" +:+ name)
                      true)])%list.
Proof. apply create_new_flathub_repo_run_Some. Qed.

Lemma create_new_flathub_repo_success_witness :
  let name := "org.example.App" in
  let m := create_new_flathub_repo {| org_login := "flathub" |} name in
  repo_handle name = repo_handle name
  /\ (name ∉ org_repos idle_world)
  /\ org_repos (after m idle_world) = {[ name ]} ∪ org_repos idle_world
  /\ calls (since idle_world (after m idle_world))
     = [OrgGetRepo name; OrgCreateRepo name;
        RepoEdit name ("https://flathub.org/apps/details/" +:+ name) true]
  /\ exists before,
       since idle_world (after m idle_world)
       = (before
          ++ [Call (OrgCreateRepo name); Sleep 5;
              Call (RepoEdit name ("https://flathub.org/apps/details/" +:+ name)
                      true)])%list.
Proof.
  intros name m.
  exact (create_new_flathub_repo_success {| org_login := "flathub" |}
           name (repo_handle name) idle_world eq_refl).
Defined.

(** ** Runs that return *)

Lemma bind_Ret_inv {A B : Type} (m : M A) (f : A -> M B) (w w' : World) (b : B) :
  (m ≫= f) w = (Ret b, w') ->
  exists a w1, m w = (Ret a, w1) /\ f a w1 = (Ret b, w').
Proof.
  rewrite run_bind. destruct (m w) as [[a|e] w1]; [|done]. by exists a, w1.
Qed.

Lemma request_Ret_inv {A : Type} (c : api_call) (answer : Service -> A)
    (w w' : World) (a : A) :
  request c answer w = (Ret a, w') ->
  faults w (clock w) = None
  /\ a = answer (service w (clock w))
  /\ w' = tick (emit (Call c) w).
Proof. cbv [request]. destruct (faults w (clock w)); [done|]. by intros [= <- <-]. Qed.

Lemma log_inv (lvl : level) (message : string) (w w' : World) (r : outcome unit) :
  log lvl message w = (r, w') -> r = Ret tt /\ w' = emit (Log lvl message) w.
Proof. by intros [= <- <-]. Qed.

Lemma ret_inv {A : Type} (a : A) (w w' : World) (r : outcome A) :
  (mret a : M A) w = (r, w') -> r = Ret a /\ w' = w.
Proof. by intros [= <- <-]. Qed.

(** How a [try] statement came to its end: its body returned, or its
    body raised and the handler, if there is one for the exception, ran
    from there. *)
Lemma try_except_inv {A : Type} (body : M A) (handler : exn -> option (M A))
    (w w' : World) (r : outcome A) :
  try_except body handler w = (r, w') ->
  (exists a, body w = (Ret a, w') /\ r = Ret a)
  \/ (exists e w1,
        body w = (Raise e, w1)
        /\ match handler e with
           | Some h => h w1 = (r, w')
           | None => r = Raise e /\ w' = w1
           end).
Proof.
  cbv [try_except]. destruct (body w) as [[a|e] w1].
  - intros [= <- <-]. left. by exists a.
  - intros H. right. exists e, w1. split; [done|].
    destruct (handler e); [done|]. by injection H as <- <-.
Qed.

Lemma bind_Raise_inv {A B : Type} (m : M A) (f : A -> M B) (w w' : World) (e : exn) :
  (m ≫= f) w = (Raise e, w') ->
  m w = (Raise e, w')
  \/ exists a w1, m w = (Ret a, w1) /\ f a w1 = (Raise e, w').
Proof.
  rewrite run_bind. destruct (m w) as [[a|e'] w1].
  - intros H. right. by exists a, w1.
  - intros [= <- <-]. by left.
Qed.

Lemma request_Raise_inv {A : Type} (c : api_call) (answer : Service -> A)
    (w w' : World) (e : exn) :
  request c answer w = (Raise e, w') ->
  faults w (clock w) = Some e /\ w' = tick (emit (Call c) w).
Proof. cbv [request]. destruct (faults w (clock w)); [|done]. by intros [= <- <-]. Qed.

(** ** Runs from a known start *)

Lemma run_bind_Ret {A B : Type} (m : M A) (f : A -> M B) (w w1 : World) (a : A)
    (r : outcome B * World) :
  m w = (Ret a, w1) -> f a w1 = r -> (m ≫= f) w = r.
Proof. intros Hm Hf. by rewrite run_bind, Hm. Qed.

Lemma run_bind_Raise {A B : Type} (m : M A) (f : A -> M B) (w w1 : World) (e : exn) :
  m w = (Raise e, w1) -> (m ≫= f) w = (Raise e, w1).
Proof. intros Hm. by rewrite run_bind, Hm. Qed.

Lemma run_request_Ret {A : Type} (c : api_call) (answer : Service -> A) (w : World) :
  faults w (clock w) = None ->
  request c answer w = (Ret (answer (service w (clock w))), tick (emit (Call c) w)).
Proof. cbv [request]. by intros ->. Qed.

Lemma run_request_Raise {A : Type} (c : api_call) (answer : Service -> A)
    (w : World) (e : exn) :
  faults w (clock w) = Some e ->
  request c answer w = (Raise e, tick (emit (Call c) w)).
Proof. cbv [request]. by intros ->. Qed.

Lemma run_try_Ret {A : Type} (body : M A) (handler : exn -> option (M A))
    (w w1 : World) (a : A) :
  body w = (Ret a, w1) -> try_except body handler w = (Ret a, w1).
Proof. cbv [try_except]. by intros ->. Qed.

Lemma run_try_handled {A : Type} (body : M A) (handler : exn -> option (M A))
    (h : M A) (w w1 : World) (e : exn) (r : outcome A * World) :
  body w = (Raise e, w1) -> handler e = Some h -> h w1 = r ->
  try_except body handler w = r.
Proof. cbv [try_except]. by intros -> -> <-. Qed.

Lemma extends_refl (w : World) : extends w w.
Proof. exists []. by rewrite app_nil_r. Qed.

Lemma extends_trans (w1 w2 w3 : World) : extends w1 w2 -> extends w2 w3 -> extends w1 w3.
Proof. intros [e1 H1] [e2 H2]. exists (e1 ++ e2)%list. by rewrite H2, H1, app_assoc. Qed.

Lemma extends_since (w w' : World) :
  extends w w' -> trace w' = (trace w ++ since w w')%list.
Proof. intros [evs H]. by rewrite (since_app _ _ _ H). Qed.

Lemma since_trans (w1 w2 w3 : World) :
  extends w1 w2 -> extends w2 w3 ->
  since w1 w3 = (since w1 w2 ++ since w2 w3)%list.
Proof.
  intros H1%extends_since H2%extends_since. apply since_app.
  by rewrite H2, H1, app_assoc.
Qed.

Lemma calls_app (l k : list Event) : calls (l ++ k) = (calls l ++ calls k)%list.
Proof. apply omap_app. Qed.

Lemma error_logs_app (l k : list Event) :
  error_logs (l ++ k) = (error_logs l ++ error_logs k)%list.
Proof. apply omap_app. Qed.

(** A loop that returns made the calls of each of its turns, in the
    order of the list. *)
Lemma for_each_calls {A : Type} (c : A -> list api_call) (l : list A)
    (body : A -> M unit) :
  (forall x w1 w2, body x w1 = (Ret tt, w2) ->
     calls (since w1 w2) = c x /\ extends w1 w2) ->
  forall w w', for_each l body w = (Ret tt, w') ->
    calls (since w w') = l ≫= c /\ extends w w'.
Proof.
  intros Hbody. induction l as [|x l IH]; intros w w'.
  - intros [= <-]. by rewrite since_refl; split; [|apply extends_refl].
  - cbn [for_each]. intros (u & w1 & Hx & Hl)%bind_Ret_inv. destruct u.
    apply Hbody in Hx as [Hx Hext1]. apply IH in Hl as [Hl Hext2].
    split; [|by eapply extends_trans].
    by rewrite (since_trans w w1 w'), calls_app, Hx, Hl.
Qed.

(** ** Granting access *)

Lemma add_all_collaborators_run_true
    (org : Organization) (repo : Repository) (collaborators : list string)
    (w : World) :
  let name := Repository_name repo in
  let m := add_all_collaborators org repo collaborators in
  result m w = Ret true ->
  calls (since w (after m w))
  = (((fun user => RepoAddToCollaborators name user "push") <$> collaborators)
     ++ (teams_to_add name ≫=
           fun team => [OrgGetTeamBySlug team;
                        TeamUpdateTeamRepository team name "push"]))%list.
Proof.
  intros name m. unfold result, after.
  destruct (m w) as [r w'] eqn:E. cbn [fst snd]. intros ->.
  unfold m, add_all_collaborators in E. cbv [try_except] in E.
  match type of E with
  | context [match ?body w with _ => _ end] =>
      destruct (body w) as [[b|e] w1] eqn:Eb
  end.
  2: { destruct e; discriminate E. }
  injection E as -> ->.
  apply bind_Ret_inv in Eb as ([] & w1 & Husers & Eb).
  apply bind_Ret_inv in Eb as ([] & w2 & Hteams & Eb).
  injection Eb as <-.
  apply (for_each_calls (fun user => [RepoAddToCollaborators name user "push"]))
    in Husers as [Husers Hext1].
  2: { intros user wa wb. run_unfold. run_simpl.
       destruct (faults wa (clock wa)); [done|]. intros [= <-].
       split; [by trace_events|]. by eexists [_; _]; cbn; rewrite <- !app_assoc. }
  apply (for_each_calls
           (fun team => [OrgGetTeamBySlug team;
                         TeamUpdateTeamRepository team name "push"]))
    in Hteams as [Hteams Hext2].
  2: { intros team wa wb. run_unfold. run_simpl.
       destruct (faults wa (clock wa)); [done|]. run_simpl.
       destruct (faults wa (S (clock wa))); [done|]. intros [= <-].
       split; [by trace_events|].
       by eexists [_; _; _]; cbn; rewrite <- !app_assoc. }
  rewrite (since_trans w w1 w2 Hext1 Hext2), calls_app, Husers, Hteams.
  f_equal.
Qed.

(** X11.  The grant step answers True only after it granted push access
    to every collaborator of its list, in the order of the list, and then
    to every team the name of the repository calls for, each team being
    fetched by its slug first. *)
Theorem add_all_collaborators_success
    (org : Organization) (repo : Repository) (collaborators : list string)
    (w : World) :
  let name := Repository_name repo in
  let m := add_all_collaborators org repo collaborators in
  result m w = Ret true ->
  calls (since w (after m w))
  = (((fun user => RepoAddToCollaborators name user "push") <$> collaborators)
     ++ (teams_to_add name ≫=
           fun team => [OrgGetTeamBySlug team;
                        TeamUpdateTeamRepository team name "push"]))%list.
Proof. apply add_all_collaborators_run_true. Qed.

Lemma add_all_collaborators_success_witness :
  let repo := repo_handle "org.kde.kate" in
  let m := add_all_collaborators {| org_login := "flathub" |} repo ["bob"; "alice"] in
  calls (since idle_world (after m idle_world))
  = [RepoAddToCollaborators "org.kde.kate" "bob" "push";
     RepoAddToCollaborators "org.kde.kate" "alice" "push";
     OrgGetTeamBySlug "trusted-maintainers";
     TeamUpdateTeamRepository "trusted-maintainers" "org.kde.kate" "push";
     OrgGetTeamBySlug "KDE";
     TeamUpdateTeamRepository "KDE" "org.kde.kate" "push"].
Proof.
  intros repo m.
  exact (add_all_collaborators_success {| org_login := "flathub" |} repo
           ["bob"; "alice"] idle_world eq_refl).
Defined.

(** The call number [n] from here does not fail. *)
Ltac calm_at H n :=
  let E := fresh in
  pose proof (H n ltac:(simpl; lia)) as E; cbn [Nat.add] in E; rewrite E; clear E.

Lemma users_loop_first_failure (repo : string) (pre : list string) (user : string)
    (post : list string) (e : exn) (w : World) :
  (forall i, i < length pre -> faults w (i + clock w) = None) ->
  faults w (length pre + clock w) = Some e ->
  let m := for_each (pre ++ user :: post)
             (fun user =>
                log INFO ("Adding user " +:+ user +:+ " to collaborators");;
                request (RepoAddToCollaborators repo user "push") (fun _ => tt)) in
  result m w = Raise e
  /\ extends w (after m w)
  /\ calls (since w (after m w))
     = ((fun user => RepoAddToCollaborators repo user "push") <$> (pre ++ [user])%list)
  /\ error_logs (since w (after m w)) = [].
Proof.
  revert w. induction pre as [|x pre IH]; intros w Hcalm Hf m; unfold m.
  - cbn [app for_each]. unfold result, after. rewrite run_bind.
    revert Hf. cbn [length Nat.add]. run_unfold. run_simpl. intros ->. cbn [fst snd].
    split; [done|]. split; [by eexists [_; _]; cbn; rewrite <- !app_assoc|].
    by trace_events.
  - cbn [app for_each]. unfold result, after. rewrite run_bind.
    set (w1 := tick (emit (Call (RepoAddToCollaborators repo x "push"))
                       (emit (Log INFO ("Adding user " +:+ x
                                        +:+ " to collaborators")) w))).
    assert (Hb : (log INFO ("Adding user " +:+ x +:+ " to collaborators");;
                  request (RepoAddToCollaborators repo x "push") (fun _ => tt)) w
                 = (Ret tt, w1)).
    { run_unfold. run_simpl. by calm_at Hcalm 0. }
    rewrite Hb.
    assert (Hext : extends w w1)
      by (by eexists [_; _]; cbn; rewrite <- !app_assoc).
    assert (Hw1 : since w w1
                  = [Log INFO ("Adding user " +:+ x +:+ " to collaborators");
                     Call (RepoAddToCollaborators repo x "push")])
      by (by unfold w1; trace_events).
    destruct (IH w1) as (Hr & Hext' & Hc & He).
    { intros i Hi. replace (i + clock w1) with (S i + clock w) by (cbn; lia).
      apply Hcalm. simpl. lia. }
    { replace (length pre + clock w1) with (length (x :: pre) + clock w)
        by (cbn; lia). exact Hf. }
    unfold result, after in *. rewrite Hr.
    split; [done|]. split; [by eapply extends_trans|].
    rewrite (since_trans w w1 _ Hext Hext'), calls_app, error_logs_app, Hc, He, Hw1.
    done.
Qed.

(** X12.  When granting access to a collaborator fails with an error of
    the service, the grant step stops there and answers False: the
    collaborators before have their access, those behind it and the teams
    are not even tried, and the error is logged. *)
Theorem add_all_collaborators_user_refused
    (org : Organization) (repo : Repository)
    (pre : list string) (user : string) (post : list string) (status : Z)
    (w : World) :
  (forall i, i < length pre -> faults w (i + clock w) = None) ->
  faults w (length pre + clock w) = Some (GithubException status) ->
  let name := Repository_name repo in
  let m := add_all_collaborators org repo (pre ++ user :: post) in
  result m w = Ret false
  /\ calls (since w (after m w))
     = ((fun user => RepoAddToCollaborators name user "push") <$> (pre ++ [user])%list)
  /\ error_logs (since w (after m w))
     = ["Failed to set collaborators to GitHub repository: " +:+ pretty status].
Proof.
  intros Hcalm Hf name m.
  destruct (users_loop_first_failure name pre user post _ w Hcalm Hf)
    as (Hr & Hext & Hc & He).
  unfold result, after in *. unfold m, add_all_collaborators.
  cbv [try_except]. rewrite run_bind.
  fold name.
  match type of Hr with
  | (?loop w).1 = _ => destruct (loop w) as [r w1] eqn:Eloop
  end.
  cbn [fst snd] in *. subst r. run_unfold. cbn [fst snd].
  split; [done|].
  assert (Hext1 : extends w1 (emit (Log ERROR
            ("Failed to set collaborators to GitHub repository: "
             +:+ str_exn (GithubException status))) w1))
    by (by eexists [_]).
  rewrite (since_trans w w1 _ Hext Hext1), calls_app, error_logs_app, Hc, He.
  rewrite since_emit. cbn. by rewrite app_nil_r.
Qed.

Lemma add_all_collaborators_user_refused_witness :
  let w := sample_world [] ∅ (fun _ => sample_service "open" sha_a sha_a sha_a)
             (fails_at 1 (GithubException 404)) in
  let m := add_all_collaborators {| org_login := "flathub" |}
             (repo_handle "org.example.App") (["bob"] ++ "nobody" :: ["alice"]) in
  result m w = Ret false
  /\ calls (since w (after m w))
     = ((fun user => RepoAddToCollaborators "org.example.App" user "push")
          <$> (["bob"] ++ ["nobody"])%list)
  /\ error_logs (since w (after m w))
     = ["Failed to set collaborators to GitHub repository: " +:+ pretty 404%Z].
Proof.
  intros w.
  apply (add_all_collaborators_user_refused {| org_login := "flathub" |}
           (repo_handle "org.example.App") ["bob"] "nobody" ["alice"] 404 w).
  - intros i Hi. simpl in Hi. by replace i with 0 by lia.
  - reflexivity.
Defined.

(** ** Authorization *)

(** X13.  The commenter is authorized only as a member of the admins
    team or of the reviewers team; when the calls succeed the answer is
    exactly that membership, the reviewers team being asked only for a
    commenter who is not an admin, and a refusal is logged with the
    commenter rendered as the object is, NamedUser(login=...) with the
    login between double quotes. *)
Theorem is_authorized_commenter_membership
    (org : Organization) (user : NamedUser) (w : World) :
  let m := is_authorized_commenter org user in
  let login := NamedUser_login user in
  let admin := srv_is_member (service w (2 + clock w)) "admins" login in
  let reviewer := srv_is_member (service w (3 + clock w)) "reviewers" login in
  (result m w = Ret true -> admin = true \/ reviewer = true)
  /\ ((forall i, i < 4 -> faults w (i + clock w) = None) ->
      result m w = Ret (admin || reviewer)
      /\ calls (since w (after m w))
         = ([OrgGetTeamBySlug "admins"; OrgGetTeamBySlug "reviewers";
             TeamHasInMembers "admins" login]
            ++ if admin then [] else [TeamHasInMembers "reviewers" login])%list
      /\ error_logs (since w (after m w))
         = if admin || reviewer then []
           else ["GitHub comment author "
                 +:+ ("NamedUser(login=" +:+ String "034" login
                      +:+ String "034" ")")
                 +:+ " is not a reviewer or an admin"]).
Proof.
  intros m login admin reviewer. unfold m, is_authorized_commenter.
  subst admin reviewer. run_unfold. cbn [Team_slug Nat.add]. fold login. split.
  - (run_simpl; cbn [Team_slug]).
    destruct (faults w (clock w)); [done|]. (run_simpl; cbn [Team_slug]).
    destruct (faults w (S (clock w))); [done|]. (run_simpl; cbn [Team_slug]).
    destruct (faults w (S (S (clock w)))); [done|]. (run_simpl; cbn [Team_slug]).
    destruct (srv_is_member (service w (S (S (clock w)))) "admins" login);
      [by left|]. (run_simpl; cbn [Team_slug]).
    destruct (faults w (S (S (S (clock w))))). { done. } (run_simpl; cbn [Team_slug]).
    destruct (srv_is_member (service w (S (S (S (clock w))))) "reviewers" login);
      [by right|]. by cbn.
  - intros Hcalm. (run_simpl; cbn [Team_slug]).
    calm_at Hcalm 0. (run_simpl; cbn [Team_slug]).
    calm_at Hcalm 1. (run_simpl; cbn [Team_slug]).
    calm_at Hcalm 2. (run_simpl; cbn [Team_slug]).
    destruct (srv_is_member (service w (S (S (clock w)))) "admins" login);
      (run_simpl; cbn [Team_slug]).
    { split; [done|]. by trace_events. }
    calm_at Hcalm 3. (run_simpl; cbn [Team_slug]).
    destruct (srv_is_member (service w (S (S (S (clock w))))) "reviewers" login);
      (run_simpl; cbn [Team_slug]); (split; [done|]); by trace_events.
Qed.

Lemma is_authorized_commenter_membership_witness :
  let w := sample_world [] ∅
             (fun _ => {| srv_pull := sample_pull "open" sha_a;
                          srv_is_member := fun _ _ => false;
                          srv_branch := fun _ _ =>
                            {| branch_commit_sha := sha_a;
                               branch_protected := Some true |};
                          srv_issue_locked := fun _ => false;
                          srv_repo_id := fun _ => "R_1";
                          srv_fork_head := fun _ _ => sha_a |})
             (fun _ => None) in
  let m := is_authorized_commenter {| org_login := "flathub" |}
             {| NamedUser_login := "guest" |} in
  result m w = Ret false
  /\ calls (since w (after m w))
     = [OrgGetTeamBySlug "admins"; OrgGetTeamBySlug "reviewers";
        TeamHasInMembers "admins" "guest"; TeamHasInMembers "reviewers" "guest"]
  /\ error_logs (since w (after m w))
     = ["GitHub comment author "
        +:+ ("NamedUser(login=" +:+ String "034" "guest" +:+ String "034" ")")
        +:+ " is not a reviewer or an admin"].
Proof.
  intros w m.
  destruct (is_authorized_commenter_membership {| org_login := "flathub" |}
              {| NamedUser_login := "guest" |} w) as [_ H].
  apply H. done.
Defined.

(** ** Closure *)

Lemma close_pr_run_true (pr_obj : PullRequest) (repo : Repository) (w : World) :
  let m := close_pr pr_obj repo in
  let n := pr_number pr_obj in
  result m w = Ret true ->
  calls (since w (after m w))
  = ([PullSetLabels n "ready";
      PullCreateIssueComment n (close_comment repo);
      PullEdit n "closed";
      RepoGetIssue n]
     ++ match faults w (3 + clock w) with
        | Some _ => []
        | None =>
            if srv_issue_locked (service w (3 + clock w)) n then []
            else [IssueLock n "resolved"]
        end)%list.
Proof.
  intros m n. subst n. unfold result, after.
  destruct (m w) as [r w'] eqn:E. cbn [fst snd]. intros ->.
  unfold m, close_pr in E.
  apply try_except_inv in E as [(a & E & [= <-])|(e & w0 & _ & E)].
  2: { destruct e; try (by destruct E).
       apply bind_Ret_inv in E as (? & ? & _ & [[=] _]%ret_inv). }
  apply bind_Ret_inv in E as ([] & w1 & [_ H1]%log_inv & E).
  apply bind_Ret_inv in E as ([] & w2 & (F0 & _ & H2)%request_Ret_inv & E).
  apply bind_Ret_inv in E as ([] & w3 & (F1 & _ & H3)%request_Ret_inv & E).
  apply bind_Ret_inv in E as ([] & w4 & (F2 & _ & H4)%request_Ret_inv & E).
  apply bind_Ret_inv in E as (issue & w5 & Hissue & E).
  apply bind_Ret_inv in E as ([] & w6 & Hlock & [_ ->]%ret_inv).
  unfold get_issue_from_pr in Hissue.
  assert (Hw4 : faults w4 = faults w /\ service w4 = service w
                /\ clock w4 = S (S (S (clock w)))
                /\ trace w4
                   = (trace w
                      ++ [Log INFO "Closing the pull request";
                          Call (PullSetLabels (pr_number pr_obj) "ready");
                          Call (PullCreateIssueComment (pr_number pr_obj)
                                  (close_comment repo));
                          Call (PullEdit (pr_number pr_obj) "closed")])%list).
  { subst w4 w3 w2 w1. cbn [faults service clock trace emit tick].
    by rewrite <- !app_assoc. }
  clear H1 H2 H3 H4 F0 F1 F2. destruct Hw4 as (Hf & Hs & Hc & Ht).
  cbn [Nat.add].
  apply try_except_inv in Hissue
    as [(a & Hissue & [= <-])|(e & w0 & Hissue & Hhandler)].
  - apply bind_Ret_inv in Hissue
      as (i & w0 & (F3 & -> & H5)%request_Ret_inv & [[= ->] ->]%ret_inv).
    rewrite Hf, Hc in F3. rewrite F3.
    cbn [iss_locked iss_number] in Hlock. rewrite Hs, Hc in Hlock.
    destruct (srv_issue_locked (service w (S (S (S (clock w))))) (pr_number pr_obj));
      cbn [negb] in Hlock.
    + apply ret_inv in Hlock as [_ ->]. subst w0.
      erewrite since_app
        by (cbn [trace emit tick]; rewrite Ht, <- ?app_assoc; reflexivity).
      done.
    + apply request_Ret_inv in Hlock as (_ & _ & ->). subst w0.
      erewrite since_app
        by (cbn [trace emit tick]; rewrite Ht, <- ?app_assoc; reflexivity).
      done.
  - apply bind_Raise_inv in Hissue
      as [(F3 & ->)%request_Raise_inv|(i & w7 & _ & [[=] _]%ret_inv)].
    rewrite Hf, Hc in F3. rewrite F3.
    destruct e; try (by destruct Hhandler).
    apply bind_Ret_inv in Hhandler
      as ([] & w7 & [_ ->]%log_inv & [[= ->] ->]%ret_inv).
    apply ret_inv in Hlock as [_ ->].
    erewrite since_app
      by (cbn [trace emit tick]; rewrite Ht, <- ?app_assoc; reflexivity).
    done.
Qed.

(** X14.  The closure step answers True only after it labelled the
    review request, commented on it and closed it, in this order, and
    asked for its thread; the thread is locked next unless it could not
    be fetched or is locked already. *)
Theorem close_pr_success (pr_obj : PullRequest) (repo : Repository) (w : World) :
  let m := close_pr pr_obj repo in
  let n := pr_number pr_obj in
  result m w = Ret true ->
  calls (since w (after m w))
  = ([PullSetLabels n "ready";
      PullCreateIssueComment n (close_comment repo);
      PullEdit n "closed";
      RepoGetIssue n]
     ++ match faults w (3 + clock w) with
        | Some _ => []
        | None =>
            if srv_issue_locked (service w (3 + clock w)) n then []
            else [IssueLock n "resolved"]
        end)%list.
Proof. apply close_pr_run_true. Qed.

Lemma close_pr_success_witness :
  let pr_obj := sample_pull "open" sha_a 7 in
  let repo := repo_handle "org.example.App" in
  calls (since idle_world (after (close_pr pr_obj repo) idle_world))
  = [PullSetLabels 7 "ready";
     PullCreateIssueComment 7 (close_comment repo);
     PullEdit 7 "closed";
     RepoGetIssue 7;
     IssueLock 7 "resolved"].
Proof.
  intros pr_obj repo.
  exact (close_pr_success pr_obj repo idle_world eq_refl).
Defined.

(** X15.  A failure of the lock makes the closure step answer False when
    the review request is labelled, commented on and closed already. *)
Theorem close_pr_lock_refused
    (pr_obj : PullRequest) (repo : Repository) (status : Z) (w : World) :
  let m := close_pr pr_obj repo in
  let n := pr_number pr_obj in
  (forall i, i < 4 -> faults w (i + clock w) = None) ->
  srv_issue_locked (service w (3 + clock w)) n = false ->
  faults w (4 + clock w) = Some (GithubException status) ->
  result m w = Ret false
  /\ calls (since w (after m w))
     = [PullSetLabels n "ready";
        PullCreateIssueComment n (close_comment repo);
        PullEdit n "closed";
        RepoGetIssue n;
        IssueLock n "resolved"]
  /\ error_logs (since w (after m w))
     = ["Unexpected error from GitHub while closing PR: " +:+ pretty status].
Proof.
  intros m n Hcalm Hl Hf. subst n.
  pose proof (Hcalm 0 ltac:(lia)) as F0. pose proof (Hcalm 1 ltac:(lia)) as F1.
  pose proof (Hcalm 2 ltac:(lia)) as F2. pose proof (Hcalm 3 ltac:(lia)) as F3.
  cbn [Nat.add] in *.
  eassert (E : m w = (Ret false, _)).
  { unfold m, close_pr.
    eapply run_try_handled with (e := GithubException status);
      [|reflexivity|reflexivity].
    eapply run_bind_Ret; [reflexivity|].
    eapply run_bind_Ret; [by apply run_request_Ret|].
    eapply run_bind_Ret; [by apply run_request_Ret|].
    eapply run_bind_Ret; [by apply run_request_Ret|].
    eapply run_bind_Ret.
    { apply run_try_Ret. eapply run_bind_Ret; [by apply run_request_Ret|].
      reflexivity. }
    apply run_bind_Raise. cbn [iss_locked iss_number service clock emit tick].
    rewrite Hl. cbn [negb]. by apply run_request_Raise. }
  unfold result, after. rewrite E. cbn [fst snd].
  split; [done|]. by trace_events.
Qed.

Lemma close_pr_lock_refused_witness :
  let w := sample_world [] ∅ (fun _ => sample_service "open" sha_a sha_a sha_a)
             (fails_at 4 (GithubException 403)) in
  let pr_obj := sample_pull "open" sha_a 7 in
  let repo := repo_handle "org.example.App" in
  result (close_pr pr_obj repo) w = Ret false
  /\ calls (since w (after (close_pr pr_obj repo) w))
     = [PullSetLabels 7 "ready";
        PullCreateIssueComment 7 (close_comment repo);
        PullEdit 7 "closed";
        RepoGetIssue 7;
        IssueLock 7 "resolved"]
  /\ error_logs (since w (after (close_pr pr_obj repo) w))
     = ["Unexpected error from GitHub while closing PR: " +:+ pretty 403%Z].
Proof.
  intros w pr_obj repo.
  apply (close_pr_lock_refused pr_obj repo 403 w).
  - intros i Hi. do 4 (destruct i as [|i]; [reflexivity|]). lia.
  - reflexivity.
  - reflexivity.
Defined.

(** * The orchestrator *)

#[export] Instance frame_discipline (allowed : Event -> bool) :
  Discipline (frame allowed) (fun e => allowed e = true).
Proof.
  split.
  - split.
    + intros w. repeat split; try done. exists []. by rewrite app_nil_r.
    + intros w1 w2 w3 (T1 & P1 & O1 & S1 & M1 & L1 & e1 & H1 & G1)
        (T2 & P2 & O2 & S2 & M2 & L2 & e2 & H2 & G2).
      repeat split; try congruence.
      exists (e1 ++ e2)%list. rewrite H2, H1, app_assoc. split; [done|].
      by apply Forall_app.
  - intros e w He. repeat split; try done. exists [e]. split; [done|].
    by constructor.
  - intros w. repeat split; try done. exists []. cbn. by rewrite app_nil_r.
Qed.

Lemma frame_add_repo (allowed : Event -> bool) (name : string) (w : World) :
  frame allowed w (add_repo name w).
Proof. repeat split; try done. exists []. cbn. by rewrite app_nil_r. Qed.

Lemma frame_since (allowed : Event -> bool) (w w' : World) :
  frame allowed w w' -> Forall (fun e => allowed e = true) (since w w').
Proof.
  intros (_ & _ & _ & _ & _ & _ & evs & H & Hall). by rewrite (since_app _ _ _ H).
Qed.

Lemma frame_extends (allowed : Event -> bool) (w w' : World) :
  frame allowed w w' -> extends w w'.
Proof. intros (_ & _ & _ & _ & _ & _ & evs & H & _). by exists evs. Qed.

(** Steps of a structural proof in a frame. *)
Ltac solve_frame_steps :=
  solve [ repeat first
            [ apply steps_detect_appid_loop; done
            | apply steps_org_create_repo; [done|intros ?; apply frame_add_repo]
            | steps_structure
            | done ] ].

(** ** The temporary directory *)

Lemma cleans_up_steps {A : Type} (m : M A) :
  steps (frame outside_tmpdir) m -> cleans_up m.
Proof.
  intros Hm w. specialize (Hm w). split; [by eapply frame_extends|].
  left. by eapply frame_since.
Qed.

Lemma cleans_up_bind {A B : Type} (m : M A) (f : A -> M B) :
  steps (frame outside_tmpdir) m -> (forall a, cleans_up (f a)) ->
  cleans_up (m ≫= f).
Proof.
  intros Hm Hf w. specialize (Hm w). unfold after in *. rewrite run_bind.
  destruct (m w) as [[a|e] w1]; cbn [snd] in *.
  2: { split; [by eapply frame_extends|]. left. by eapply frame_since. }
  destruct (Hf a w1) as [Hext Htidy]. unfold after in *.
  pose proof (frame_extends _ _ _ Hm) as Hext1.
  split; [by eapply extends_trans|].
  rewrite (since_trans w w1 _ Hext1 Hext).
  pose proof (frame_since _ _ _ Hm) as Hq.
  destruct Htidy as [Hall|(path & before & inside & -> & Hb & Hi)].
  - left. by apply Forall_app.
  - right. exists path, (since w w1 ++ before)%list, inside.
    rewrite <- app_assoc. split; [done|]. split; [by apply Forall_app|done].
Qed.

Lemma cleans_up_with_tmpdir {A : Type} (body : string -> M A) :
  (forall path, steps (frame outside_tmpdir) (body path)) ->
  cleans_up (with_tmpdir body).
Proof.
  intros Hb w. unfold after, with_tmpdir.
  specialize (Hb (mkdtemp w) (emit (TmpdirCreated (mkdtemp w)) w)).
  unfold after in Hb.
  destruct (body _ _) as [r w1]; cbn [snd] in *.
  destruct Hb as (_ & _ & _ & _ & _ & _ & evs & Hevs & Hall).
  cbn [trace emit] in Hevs.
  assert (Ht : trace (emit (TmpdirRemoved (mkdtemp w)) w1)
               = (trace w ++ TmpdirCreated (mkdtemp w) :: evs
                    ++ [TmpdirRemoved (mkdtemp w)])%list).
  { cbn [trace emit]. by rewrite Hevs, <- !app_assoc. }
  split; [by eexists|]. rewrite (since_app _ _ _ Ht).
  right. by exists (mkdtemp w), [], evs.
Qed.

(** X16.  The temporary directory of a run is removed however the run
    ends: in the events of [main] either no temporary directory appears,
    or one is created once, and its removal is the last event of the
    run. *)
Theorem main_removes_tmpdir (w : World) : tidy (since w (after main w)).
Proof.
  assert (H : cleans_up main); [|apply H].
  program_unfold. unfold close_pr, get_issue_from_pr.
  repeat first
    [ apply cleans_up_with_tmpdir; intros ?; solve_frame_steps
    | apply cleans_up_bind; [solve_frame_steps|intros ?]
    | apply cleans_up_steps; solve_frame_steps
    | lazymatch goal with
      | |- cleans_up (if ?b then _ else _) => destruct b
      | |- cleans_up (match ?x with _ => _ end) => destruct x
      end ].
Qed.

(** ** Runs that end before anything is done *)

Section Halts.
Context (allowed : Event -> bool) (w0 : World).

Lemma halts_ret : halts allowed w0 (mret 1%Z).
Proof. intros w H. by split. Qed.

(** The continuation is entered with a value that [m] returned somewhere
    in the frame. *)
Lemma halts_bind_run {A : Type} (m : M A) (f : A -> M Z) :
  steps (frame allowed) m ->
  (forall a, (exists w, frame allowed w0 w /\ result m w = Ret a) ->
     halts allowed w0 (f a)) ->
  halts allowed w0 (m ≫= f).
Proof.
  intros Hm Hf w Hw. unfold result, after. rewrite run_bind.
  specialize (Hm w). specialize (Hf).
  assert (Hr : forall a, result m w = Ret a -> halts allowed w0 (f a)).
  { intros a Ha. apply Hf. by exists w. }
  unfold after, result in *.
  destruct (m w) as [[a|e] w1]; cbn [fst snd] in *.
  - apply (Hr a eq_refl). by etransitivity.
  - split; [done|]. by etransitivity.
Qed.

Lemma halts_bind {A : Type} (m : M A) (f : A -> M Z) :
  steps (frame allowed) m -> (forall a, halts allowed w0 (f a)) ->
  halts allowed w0 (m ≫= f).
Proof. intros Hm Hf. apply halts_bind_run; [done|]. intros a _. apply Hf. Qed.

Lemma halts_get_world (f : World -> M Z) :
  (forall w, frame allowed w0 w -> halts allowed w0 (f w)) ->
  halts allowed w0 (get_world ≫= f).
Proof. intros Hf w Hw. unfold result, after. rewrite run_bind. by apply Hf. Qed.
Lemma halts_with_tmpdir (body : string -> M Z) :
  (forall path, allowed (TmpdirCreated path) = true) ->
  (forall path, allowed (TmpdirRemoved path) = true) ->
  (forall path, halts allowed w0 (body path)) ->
  halts allowed w0 (with_tmpdir body).
Proof.
  intros Hc Hr Hb w Hw. unfold result, after, with_tmpdir.
  destruct (Hb (mkdtemp w) (emit (TmpdirCreated (mkdtemp w)) w)) as [He Hf].
  { etransitivity; [exact Hw|]. by apply discipline_emit. }
  unfold result, after in *.
  destruct (body _ _) as [r w1]; cbn [fst snd] in *.
  split; [done|]. etransitivity; [exact Hf|]. by apply discipline_emit.
Qed.
End Halts.

Lemma load_github_event_frame (allowed : Event -> bool) (w0 w : World) :
  frame allowed w0 w ->
  result load_github_event w = result load_github_event w0.
Proof.
  intros (_ & Hp & Ho & _). unfold load_github_event, result.
  rewrite !run_bind. cbv [get_world]. cbn [fst snd]. rewrite Hp, Ho.
  destruct (GITHUB_EVENT_PATH w0) as [path|]; [|done].
  destruct (Str.is_empty path); [done|].
  by destruct (open_event_file w0 path).
Qed.

Lemma pure_result_is_valid_event (event : GithubEvent) :
  pure_result (is_valid_event event).
Proof. unfold is_valid_event, subscript. repeat pure_result_structure. Qed.

Lemma pure_result_parse_merge_command (c : string) :
  pure_result (parse_merge_command c).
Proof. unfold parse_merge_command. repeat pure_result_structure. Qed.

Lemma subscript_Ret {A : Type} (key : string) (v : option A) (w : World) (a : A) :
  result (subscript key v) w = Ret a -> v = Some a.
Proof. destruct v; [by intros [= ->]|done]. Qed.

(** What [is_valid_event] accepts: the action is the creation of a
    comment, and the issue commented on is a review request. *)
Lemma is_valid_event_true (event : GithubEvent) (w : World) :
  result (is_valid_event event) w = Ret true
  <-> ev_action event = Some "created"
      /\ exists issue,
           ev_issue event = Some issue /\ issue_has_pull_request issue = true.
Proof.
  unfold is_valid_event, event_is_empty, subscript, result.
  destruct (ev_action event) as [action|] eqn:Ea.
  - cbn [negb]. rewrite run_bind. cbn [mret M_ret fst snd].
    case_bool_decide as Hc; cbn [negb].
    + subst action. destruct (ev_issue event) as [issue|] eqn:Ei.
      * rewrite run_bind. cbn [mret M_ret fst snd].
        destruct (issue_has_pull_request issue) eqn:Hp; cbn [negb].
        -- split; [|done]. intros _. split; [done|]. by exists issue.
        -- split; [done|]. intros (_ & i & [= <-] & Hi). congruence.
      * rewrite run_bind. cbn [raise fst snd].
        split; [done|]. by intros (_ & i & [=] & _).
    + split; [done|]. intros ([= ->] & _). done.
  - split.
    + destruct (ev_issue event), (ev_comment event), (ev_other_keys event);
        cbn; done.
    + by intros ([=] & _).
Qed.

(** X17.  When the token is unset or empty, or the action of the event
    is not [created], or its issue is absent or has no [pull_request]
    key, or the body of its comment does not match the command pattern,
    [main] ends with exit status 1 and has only written to its log: it
    has made no call. *)
Theorem main_acts_on_command_only (w : World) (event : GithubEvent) :
  result load_github_event w = Ret event ->
  nonempty (INPUT_TOKEN w) = None
  \/ ev_action event <> Some "created"
  \/ (forall issue, ev_issue event = Some issue ->
        issue_has_pull_request issue = false)
  \/ (forall comment, ev_comment event = Some comment ->
        Regex.command_pattern_search (comment_body comment) = None) ->
  exit_status (result main w) = 1%Z
  /\ Forall (fun e => is_log e = true) (since w (after main w)).
Proof.
  intros Hload Hcases.
  assert (H : halts is_log w main).
  2: { destruct (H w) as [Hexit Hframe]; [reflexivity|].
       split; [done|]. by eapply frame_since. }
  unfold main. apply halts_get_world. intros w1 (Htok & _).
  rewrite Htok. destruct (nonempty (INPUT_TOKEN w)) as [token|] eqn:Etok.
  2: { apply halts_bind; [solve_frame_steps|intros _; apply halts_ret]. }
  apply halts_bind_run; [unfold load_github_event; solve_frame_steps|].
  intros ev (w2 & Hw2 & Hev).
  rewrite (load_github_event_frame _ _ _ Hw2), Hload in Hev.
  injection Hev as <-.
  apply halts_bind_run; [unfold is_valid_event; solve_frame_steps|].
  intros valid (w3 & _ & Hvalid).
  destruct valid; cbn [negb]; [|apply halts_ret].
  apply is_valid_event_true in Hvalid as (Haction & issue & Hissue & Hpull).
  apply halts_bind_run; [solve_frame_steps|].
  intros comment (w4 & _ & Hcomment%subscript_Ret).
  apply halts_bind_run; [unfold parse_merge_command; solve_frame_steps|].
  intros [[branch sha] colbs] (w5 & _ & Hparse).
  destruct Hcases as [Hc|[Hc|[Hc|Hc]]]; [done|done|..].
  { rewrite (Hc issue Hissue) in Hpull. done. }
  rewrite (parse_merge_command_unmatched _ _ (Hc comment Hcomment)) in Hparse.
  injection Hparse as <- <- <-. apply halts_ret.
Qed.

Lemma main_acts_on_command_only_witness :
  let w := sample_world [] ∅ (fun _ => sample_service "open" sha_a sha_a sha_a)
             (fun _ => None) in
  let w' := {| INPUT_TOKEN := INPUT_TOKEN w;
               GITHUB_EVENT_PATH := GITHUB_EVENT_PATH w;
               open_event_file := fun _ => EventLoaded (sample_event "/merge please");
               mkdtemp := mkdtemp w; listdir := listdir w;
               org_repos := org_repos w; service := service w;
               faults := faults w; clock := 0; trace := [] |} in
  exit_status (result main w') = 1%Z
  /\ Forall (fun e => is_log e = true) (since w' (after main w')).
Proof.
  intros w w'.
  apply (main_acts_on_command_only w' (sample_event "/merge please")).
  - reflexivity.
  - right; right; right. intros comment [= <-]. reflexivity.
Defined.

(** ** An unauthorized commenter *)

Lemma is_authorized_commenter_true
    (org : Organization) (user : NamedUser) (w : World) :
  result (is_authorized_commenter org user) w = Ret true ->
  exists n team, srv_is_member (service w n) team (NamedUser_login user) = true.
Proof.
  unfold is_authorized_commenter. run_unfold. run_simpl.
  destruct (faults w (clock w)); [done|]. run_simpl; cbn [Team_slug].
  destruct (faults w (S (clock w))); [done|]. run_simpl; cbn [Team_slug].
  destruct (faults w (S (S (clock w)))); [done|]. run_simpl; cbn [Team_slug].
  destruct (srv_is_member (service w (S (S (clock w)))) "admins"
              (NamedUser_login user)) eqn:Ha; [by eauto|].
  run_simpl; cbn [Team_slug].
  destruct (faults w (S (S (S (clock w))))); [done|]. run_simpl; cbn [Team_slug].
  destruct (srv_is_member (service w (S (S (S (clock w))))) "reviewers"
              (NamedUser_login user)) eqn:Hr; [by eauto|]. by cbn.
Qed.

Lemma request_Ret_answer {A : Type} (c : api_call) (answer : Service -> A)
    (w : World) (a : A) :
  result (request c answer) w = Ret a -> a = answer (service w (clock w)).
Proof.
  unfold result. cbv [request]. destruct (faults w (clock w)); [done|].
  by intros [= <-].
Qed.

(** X18.  A commenter whom neither team counts among its members gets
    nothing done: [main] ends with exit status 1 after log lines and
    calls that only read; nothing is cloned, created, pushed, granted or
    written to the review request. *)
Theorem main_unauthorized_commenter
    (w : World) (event : GithubEvent) (comment : CommentInfo) :
  result load_github_event w = Ret event ->
  ev_comment event = Some comment ->
  (forall n team,
     srv_is_member (service w n) team (comment_user_login comment) = false) ->
  exit_status (result main w) = 1%Z
  /\ Forall (fun e => reads_only e = true) (since w (after main w)).
Proof.
  intros Hload Hcomment Hmember.
  assert (H : halts reads_only w main).
  2: { destruct (H w) as [Hexit Hframe]; [reflexivity|].
       split; [done|]. by eapply frame_since. }
  unfold main. apply halts_get_world. intros w1 _.
  destruct (nonempty (INPUT_TOKEN w1)) as [token|].
  2: { apply halts_bind; [solve_frame_steps|intros _; apply halts_ret]. }
  apply halts_bind_run; [unfold load_github_event; solve_frame_steps|].
  intros ev (w2 & Hw2 & Hev).
  rewrite (load_github_event_frame _ _ _ Hw2), Hload in Hev.
  injection Hev as <-.
  apply halts_bind; [unfold is_valid_event; solve_frame_steps|].
  intros valid. destruct valid; cbn [negb]; [|apply halts_ret].
  apply halts_bind_run; [solve_frame_steps|].
  intros c (w4 & _ & Hc%subscript_Ret).
  rewrite Hcomment in Hc. injection Hc as <-.
  apply halts_bind; [unfold parse_merge_command; solve_frame_steps|].
  intros [[branch sha] colbs].
  destruct (nonempty branch), (nonempty sha), colbs; try apply halts_ret.
  apply halts_bind; [solve_frame_steps|]. intros org.
  apply halts_bind; [unfold org_get_repo; solve_frame_steps|]. intros flathub.
  apply halts_bind_run; [solve_frame_steps|].
  intros author (w5 & _ & ->%request_Ret_answer).
  apply halts_bind; [solve_frame_steps|]. intros issue.
  apply halts_bind; [unfold repo_get_pull; solve_frame_steps|]. intros pr.
  apply halts_bind; [solve_frame_steps|]. intros pr_branch.
  apply halts_bind; [solve_frame_steps|]. intros fork_url.
  apply halts_bind_run.
  { unfold is_authorized_commenter, org_get_team_by_slug, has_in_members.
    solve_frame_steps. }
  intros authorized (w6 & (_ & _ & _ & Hs & _) & Hauth).
  destruct authorized; cbn [negb]; [|apply halts_ret].
  apply is_authorized_commenter_true in Hauth as (n & team & Hm).
  cbn [NamedUser_login] in Hm. rewrite Hs in Hm. by rewrite Hmember in Hm.
Qed.

Lemma main_unauthorized_commenter_witness :
  let srv := {| srv_pull := sample_pull "open" sha_a;
                srv_is_member := fun _ _ => false;
                srv_branch := fun _ _ =>
                  {| branch_commit_sha := sha_a; branch_protected := Some true |};
                srv_issue_locked := fun _ => false;
                srv_repo_id := fun _ => "R_1";
                srv_fork_head := fun _ _ => sha_a |} in
  let w := sample_world [] {[ "flathub" ]} (fun _ => srv) (fun _ => None) in
  exit_status (result main w) = 1%Z
  /\ Forall (fun e => reads_only e = true) (since w (after main w)).
Proof.
  intros srv w.
  by apply (main_unauthorized_commenter w (sample_event ("/merge head=" +:+ sha_a))
              {| comment_body := "/merge head=" +:+ sha_a;
                 comment_user_login := "rev" |}).
Defined.

(** ** What exit status 0 means *)

Section OnSuccess.
Context (Q : World -> Prop).

Lemma on_success_ret_1 (I : World -> Prop) : on_success I (mret 1%Z) Q.
Proof. by intros w _ [=]. Qed.

Lemma on_success_log_ret_1 (I : World -> Prop) (lvl : level) (message : string) :
  on_success I (log lvl message;; mret 1%Z) Q.
Proof. by intros w _ [=]. Qed.

Lemma on_success_ret_0 (I : World -> Prop) :
  (forall w, I w -> Q w) -> on_success I (mret 0%Z) Q.
Proof. intros H w Hw _. by apply H. Qed.

Lemma on_success_bind {A : Type} (I : World -> Prop) (I' : A -> World -> Prop)
    (m : M A) (f : A -> M Z) :
  (forall w a, I w -> result m w = Ret a -> I' a (after m w)) ->
  (forall a, on_success (I' a) (f a) Q) ->
  on_success I (m ≫= f) Q.
Proof.
  intros Hm Hf w Hw. specialize (Hm w). unfold result, after in *.
  rewrite run_bind. destruct (m w) as [[a|e] w1]; cbn [fst snd] in *; [|done].
  apply (Hf a). by apply Hm.
Qed.

(** A step in a frame that keeps the invariant. *)
Lemma on_success_frame_bind {A : Type} (allowed : Event -> bool)
    (I : World -> Prop) (m : M A) (f : A -> M Z) :
  (forall w w', I w -> frame allowed w w' -> I w') ->
  steps (frame allowed) m ->
  (forall a, on_success I (f a) Q) ->
  on_success I (m ≫= f) Q.
Proof.
  intros Hclosed Hm Hf. apply (on_success_bind I (fun _ => I)); [|done].
  intros w a Hw _. eapply Hclosed; [done|]. apply Hm.
Qed.

Lemma on_success_with_tmpdir (I : World -> Prop) (Q' : World -> Prop)
    (body : string -> M Z) :
  (forall w path, I w -> I (emit (TmpdirCreated path) w)) ->
  (forall path, on_success I (body path) Q') ->
  (forall w path, Q' w -> Q (emit (TmpdirRemoved path) w)) ->
  on_success I (with_tmpdir body) Q.
Proof.
  intros Hin Hb Hout w Hw. unfold result, after, with_tmpdir.
  specialize (Hb (mkdtemp w) (emit (TmpdirCreated (mkdtemp w)) w)).
  unfold result, after in Hb.
  destruct (body _ _) as [r w1]; cbn [fst snd] in *.
  intros ->. apply Hout, Hb; [by apply Hin|done].
Qed.
End OnSuccess.

(** ** Progress *)

Lemma protection_attempts_calls (evs : list Event) :
  protection_attempts evs
  = omap (fun c => match c with
                   | GqlAddBranchProtection _ pattern => Some pattern
                   | _ => None
                   end) (calls evs).
Proof.
  unfold protection_attempts, calls.
  induction evs as [|e evs IH]; [done|].
  destruct e as [| c | | |]; try destruct c; cbn; by rewrite ?IH.
Qed.

Lemma team_grants_calls (evs : list Event) :
  team_grants evs
  = omap (fun c => match c with
                   | TeamUpdateTeamRepository team _ permission =>
                       Some (team, permission)
                   | _ => None
                   end) (calls evs).
Proof.
  unfold team_grants, calls.
  induction evs as [|e evs IH]; [done|].
  destruct e as [| c | | |]; try destruct c; cbn; by rewrite ?IH.
Qed.

Lemma elem_of_calls (c : api_call) (evs : list Event) :
  c ∈ calls evs -> Call c ∈ evs.
Proof.
  induction evs as [|e evs IH]; [by intros ?%elem_of_nil|].
  destruct e as [| c' | | |]; cbn; rewrite ?elem_of_cons; try (by auto).
  intros [->|H]; auto.
Qed.

Lemma grants_nothing_attempts (evs : list Event) :
  Forall (fun e => grants_nothing e = true) evs ->
  protection_attempts evs = [] /\ team_grants evs = [].
Proof.
  induction 1 as [|e evs He _ [IH1 IH2]]; [done|].
  destruct e as [| [] | | |]; cbn in *; try done.
Qed.

Lemma progress_refl (w : World) : progress w w [] [] [].
Proof.
  split; [apply extends_refl|]. rewrite since_refl. by repeat split.
Qed.

Lemma progress_step (w0 w w' : World) (patterns patterns' patterns'' : list string)
    (teams teams' teams'' : list (string * string)) (marks : list Event) :
  progress w0 w patterns teams marks ->
  extends w w' ->
  protection_attempts (since w w') = patterns' ->
  team_grants (since w w') = teams' ->
  patterns'' = (patterns ++ patterns')%list ->
  teams'' = (teams ++ teams')%list ->
  progress w0 w' patterns'' teams'' marks.
Proof.
  intros (Hext & Hp & Ht & Hm) Hext' Hp' Ht' -> ->.
  split; [by eapply extends_trans|].
  rewrite (since_trans w0 w w' Hext Hext').
  unfold protection_attempts, team_grants in *. rewrite !omap_app.
  rewrite Hp, Ht, Hp', Ht'. repeat split.
  eapply Forall_impl; [exact Hm|]. intros e He. apply elem_of_app. by left.
Qed.

Lemma progress_frame (w0 w w' : World) (patterns : list string)
    (teams : list (string * string)) (marks : list Event) :
  progress w0 w patterns teams marks ->
  frame grants_nothing w w' ->
  progress w0 w' patterns teams marks.
Proof.
  intros Hp Hf.
  destruct (grants_nothing_attempts _ (frame_since _ _ _ Hf)) as [H1 H2].
  eapply progress_step; [exact Hp|by eapply frame_extends|exact H1|exact H2|..];
    by rewrite app_nil_r.
Qed.

Lemma progress_mark (w0 w w' : World) (patterns : list string)
    (teams : list (string * string)) (marks : list Event) (c : api_call) :
  progress w0 w' patterns teams marks ->
  extends w0 w -> extends w w' ->
  c ∈ calls (since w w') ->
  progress w0 w' patterns teams (Call c :: marks).
Proof.
  intros (Hext & Hp & Ht & Hm) Hext0 Hext' Hc. repeat split; try done.
  constructor; [|done].
  rewrite (since_trans w0 w w' Hext0 Hext'). apply elem_of_app. right.
  by apply elem_of_calls.
Qed.

Lemma team_grants_of_teams (repo : string) (teams : list string) :
  omap (fun c => match c with
                 | TeamUpdateTeamRepository team _ permission =>
                     Some (team, permission)
                 | _ => None
                 end)
    (teams ≫= fun team => [OrgGetTeamBySlug team;
                            TeamUpdateTeamRepository team repo "push"])
  = (fun t => (t, "push")) <$> teams.
Proof. induction teams as [|t teams IH]; [done|]. cbn. by rewrite <- IH. Qed.

Lemma no_grants_of_users (repo : string) (users : list string) :
  omap (fun c => match c with
                 | TeamUpdateTeamRepository team _ permission =>
                     Some (team, permission)
                 | _ => None
                 end)
    ((fun user => RepoAddToCollaborators repo user "push") <$> users)
  = []
  /\ omap (fun c => match c with
                    | GqlAddBranchProtection _ pattern => Some pattern
                    | _ => None
                    end)
       ((fun user => RepoAddToCollaborators repo user "push") <$> users)
     = [].
Proof. induction users as [|u users [IH1 IH2]]; [done|]. by cbn. Qed.

Lemma no_protection_of_teams (repo : string) (teams : list string) :
  omap (fun c => match c with
                 | GqlAddBranchProtection _ pattern => Some pattern
                 | _ => None
                 end)
    (teams ≫= fun team => [OrgGetTeamBySlug team;
                            TeamUpdateTeamRepository team repo "push"])
  = [].
Proof. induction teams as [|t teams IH]; [done|]. by cbn. Qed.

Lemma on_success_assume (Q : World -> Prop) (P : Prop) (I : World -> Prop) (m : M Z) :
  (P -> on_success I m Q) -> on_success (fun w => P /\ I w) m Q.
Proof. intros H w [HP HI]. by apply H. Qed.

Lemma steps_after {R : relation World} {A : Type} (m : M A) (w : World) :
  steps R m -> R w (after m w).
Proof. intros H. apply H. Qed.

Lemma on_success_with_tmpdir_at (Q : World -> Prop) (I Q' : World -> Prop)
    (body : string -> M Z) (path : string) :
  (forall w, I w -> mkdtemp w = path) ->
  (forall w, I w -> I (emit (TmpdirCreated path) w)) ->
  on_success I (body path) Q' ->
  (forall w, Q' w -> Q (emit (TmpdirRemoved path) w)) ->
  on_success I (with_tmpdir body) Q.
Proof.
  intros Hpath Hin Hb Hout w Hw. unfold result, after, with_tmpdir.
  rewrite (Hpath w Hw).
  specialize (Hb (emit (TmpdirCreated path) w)).
  unfold result, after in Hb.
  destruct (body _ _) as [r w1]; cbn [fst snd] in *.
  intros ->. apply Hout, Hb; [by apply Hin|done].
Qed.

Lemma nonempty_inv (s : option string) (x : string) :
  nonempty s = Some x -> s = Some x.
Proof.
  destruct s as [y|]; [|done]. cbn. destruct (Str.is_empty y); [done|].
  by intros [= ->].
Qed.

Lemma load_github_event_returns (w : World) :
  exists event, result load_github_event w = Ret event.
Proof.
  unfold load_github_event, result. rewrite run_bind. cbv [get_world].
  cbn [fst snd].
  destruct (GITHUB_EVENT_PATH w) as [path|]; [|by eexists].
  destruct (Str.is_empty path); [by eexists|].
  destruct (open_event_file w path); by eexists.
Qed.

(** ** Counting the calls of the first steps *)

Lemma clock_load_github_event (w : World) :
  clock (after load_github_event w) = clock w.
Proof.
  unfold load_github_event, after. rewrite run_bind. cbv [get_world].
  cbn [fst snd].
  destruct (GITHUB_EVENT_PATH w) as [path|]; [|done].
  destruct (Str.is_empty path); [done|].
  by destruct (open_event_file w path).
Qed.

Lemma clock_is_valid_event (event : GithubEvent) (w : World) :
  clock (after (is_valid_event event) w) = clock w.
Proof.
  unfold is_valid_event, subscript, after.
  destruct (event_is_empty event); [done|].
  destruct (ev_action event) as [action|]; [|done].
  rewrite run_bind. cbn [mret M_ret fst snd].
  destruct (negb _); [done|].
  destruct (ev_issue event) as [issue|]; [|done].
  rewrite run_bind. cbn [mret M_ret fst snd].
  by destruct (negb _).
Qed.

Lemma clock_parse_merge_command (c : string) (w : World) :
  clock (after (parse_merge_command c) w) = clock w.
Proof.
  unfold parse_merge_command, after.
  destruct (negb _); [done|].
  by destruct (Regex.command_pattern_search c) as [[[g1 g2] g3]|].
Qed.

Lemma after_subscript {A : Type} (key : string) (v : option A) (w : World) :
  after (subscript key v) w = w.
Proof. by destruct v. Qed.

Lemma after_request {A : Type} (c : api_call) (answer : Service -> A) (w : World) :
  after (request c answer) w = tick (emit (Call c) w).
Proof. unfold after. cbv [request]. by destruct (faults w (clock w)). Qed.

Lemma after_org_get_repo (org : Organization) (name : string) (w : World) :
  after (org_get_repo org name) w = tick (emit (Call (OrgGetRepo name)) w).
Proof.
  unfold org_get_repo, after. rewrite run_bind. cbv [request].
  destruct (faults w (clock w)); [done|]. cbn [fst snd].
  rewrite run_bind. cbv [get_world]. cbn [fst snd].
  by destruct (bool_decide _).
Qed.

Lemma at_call_frame (w0 w w' : World) (k : nat) :
  at_call w0 k w -> frame grants_nothing w w' -> clock w' = clock w ->
  at_call w0 k w'.
Proof. intros [Hf Hc] Hf' Hc'. split; [by etransitivity|congruence]. Qed.

Lemma at_call_call (w0 w : World) (k : nat) (c : api_call) :
  grants_nothing (Call c) = true ->
  at_call w0 k w -> at_call w0 (S k) (tick (emit (Call c) w)).
Proof.
  intros Hc [Hf Hk]. split.
  - etransitivity; [exact Hf|].
    etransitivity; [by apply discipline_emit|apply discipline_tick].
  - cbn [clock tick emit]. by rewrite Hk.
Qed.

Lemma progress_marks (w0 w w' : World) (patterns : list string)
    (teams : list (string * string)) (marks : list Event) (cs : list api_call) :
  progress w0 w' patterns teams marks ->
  extends w0 w -> extends w w' ->
  Forall (fun c => c ∈ calls (since w w')) cs ->
  progress w0 w' patterns teams ((Call <$> cs) ++ marks)%list.
Proof.
  intros (Hext & Hp & Ht & Hm) Hext0 Hext' Hcs. repeat split; try done.
  apply Forall_app. split; [|done]. apply Forall_fmap.
  eapply Forall_impl; [exact Hcs|]. intros c Hc. cbn.
  rewrite (since_trans w0 w w' Hext0 Hext'). apply elem_of_app. right.
  by apply elem_of_calls.
Qed.

(** A step that stays in the frame of the events that grant nothing. *)
Ltac quiet_bind :=
  lazymatch goal with
  | |- on_success ?I (_ ≫= _) ?Q =>
      apply (on_success_frame_bind Q grants_nothing I);
      [ let Hp := fresh in let Hf := fresh in
        intros ? ? Hp Hf;
        first [ exact (progress_frame _ _ _ _ _ _ Hp Hf)
              | exact (transitivity Hp Hf) ]
      | solve_frame_steps
      | intros ? ]
  end.

(** A step of the first part of the run, where calls are counted: one
    that only logs, and one that is a call. *)
Ltac logs_bind clock_lemma :=
  lazymatch goal with
  | |- on_success (at_call ?w0 ?k) (_ ≫= _) ?Q =>
      apply (on_success_bind Q (at_call w0 k) (fun _ => at_call w0 k));
      [ let Hat := fresh in
        intros ? ? Hat _; apply (at_call_frame _ _ _ _ Hat);
        [apply steps_after; solve_frame_steps|apply clock_lemma]
      | intros ? ]
  end.

Ltac call_bind after_lemma :=
  lazymatch goal with
  | |- on_success (at_call ?w0 ?k) (_ ≫= _) ?Q =>
      apply (on_success_bind Q (at_call w0 k) (fun _ => at_call w0 (S k)));
      [ let Hat := fresh in
        intros ? ? Hat _; rewrite after_lemma; by apply at_call_call
      | intros ? ]
  end.

Ltac on_success_end :=
  first [ apply on_success_ret_1 | apply on_success_log_ret_1 ].

(** X19.  Exit status 0 means that the whole promotion took place, for
    the request the run was started for: the event file holds a comment
    that parses to a branch, a commit and handles; the identifier is the
    one detected in the clone; the review request is the one the service
    returned, as the fourth call of the run, for the number of the
    event's issue.  The repository of that identifier was created by
    this run, the branch of the review request was pushed from the
    temporary directory to the branch of the command, the bot was
    removed from the collaborators, each of the six patterns was
    protected once and in order, the handles of the command and the
    author of the review request were granted push access, so were
    exactly the teams the identifier calls for, and that review request
    was closed. *)
Theorem main_exit_status_0 (w : World) :
  exit_status (result main w) = 0%Z ->
  exists event comment issue branch sha handles manifest_file appid pr_branch,
    result load_github_event w = Ret event
    /\ ev_comment event = Some comment
    /\ ev_issue event = Some issue
    /\ result (parse_merge_command (comment_body comment)) w
       = Ret (Some branch, Some sha, Some handles)
    /\ result (detect_appid (mkdtemp w)) w = Ret (Some manifest_file, Some appid)
    /\ let pr := srv_pull (service w (3 + clock w)) (issue_number issue) in
       let evs := since w (after main w) in
       (exists owner rest,
          Str.split ":" (pr_head_label pr) = owner :: pr_branch :: rest)
       /\ protection_attempts evs = protected_patterns
       /\ team_grants evs = ((fun t => (t, "push")) <$> teams_to_add appid)
       /\ Call (OrgCreateRepo appid) ∈ evs
       /\ Call (GitPush (mkdtemp w) (pr_branch +:+ ":" +:+ branch)) ∈ evs
       /\ Call (RepoRemoveFromCollaborators appid "flathubbot") ∈ evs
       /\ Forall (fun user => Call (RepoAddToCollaborators appid user "push") ∈ evs)
            (handles ++ [pr_user_login pr])%list
       /\ Call (PullEdit (pr_number pr) "closed") ∈ evs.
Proof.
  intros Hexit.
  assert (Hr : result main w = Ret 0%Z).
  { destruct (result main w) as [z|e]; cbn in Hexit; [by subst|done]. }
  clear Hexit.
  destruct (load_github_event_returns w) as [event Hload].
  set (Q := fun w' : World =>
         exists comment issue branch sha handles manifest_file appid pr_branch,
           ev_comment event = Some comment
           /\ ev_issue event = Some issue
           /\ result (parse_merge_command (comment_body comment)) w
              = Ret (Some branch, Some sha, Some handles)
           /\ result (detect_appid (mkdtemp w)) w
              = Ret (Some manifest_file, Some appid)
           /\ (exists owner rest,
                 Str.split ":"
                   (pr_head_label
                      (srv_pull (service w (3 + clock w)) (issue_number issue)))
                 = owner :: pr_branch :: rest)
           /\ progress w w' protected_patterns
                ((fun t => (t, "push")) <$> teams_to_add appid)
                (Call (PullEdit
                         (pr_number
                            (srv_pull (service w (3 + clock w))
                               (issue_number issue))) "closed")
                 :: (Call <$> ((fun user =>
                                  RepoAddToCollaborators appid user "push")
                               <$> (handles
                                    ++ [pr_user_login
                                          (srv_pull (service w (3 + clock w))
                                             (issue_number issue))])%list))
                 ++ [Call (RepoRemoveFromCollaborators appid "flathubbot");
                     Call (GitPush (mkdtemp w) (pr_branch +:+ ":" +:+ branch));
                     Call (OrgCreateRepo appid)])%list).
  assert (H : on_success (at_call w 0) main Q).
  2: { destruct (H w) as (comment & issue & branch & sha & handles & mf & appid
                          & pr_branch & Hc & Hi & Hparse & Hdetect & Hsplit
                          & _ & Hp & Ht & Hm); [|exact Hr|].
       { split; [reflexivity|done]. }
       exists event, comment, issue, branch, sha, handles, mf, appid, pr_branch.
       rewrite Forall_cons, Forall_app, !Forall_cons in Hm.
       destruct Hm as (Hedit & Husers & Hbot & Hpush & Hcreate & _).
       rewrite <- list_fmap_compose, Forall_fmap in Husers.
       by repeat split. }
  clear Hr. unfold main.
  (* the environment and the event *)
  logs_bind (fun w1 : World => eq_refl (clock w1)).
  destruct (nonempty (INPUT_TOKEN _)) as [token|]; [|on_success_end].
  apply (on_success_bind Q (at_call w 0)
           (fun ev w1 => ev = event /\ at_call w 0 w1)).
  { intros w1 ev Hat Hev. split.
    - rewrite (load_github_event_frame _ _ _ (proj1 Hat)), Hload in Hev.
      by injection Hev.
    - apply (at_call_frame _ _ _ _ Hat);
        [ apply steps_after; unfold load_github_event; solve_frame_steps
        | apply clock_load_github_event ]. }
  intros ev. cbv beta. apply on_success_assume. intros ->.
  unfold is_valid_event at 1.
  fold (is_valid_event event).
  apply (on_success_bind Q (at_call w 0) (fun _ => at_call w 0)).
  { intros w1 valid Hat _. apply (at_call_frame _ _ _ _ Hat);
      [ apply steps_after; unfold is_valid_event; solve_frame_steps
      | apply clock_is_valid_event ]. }
  intros valid. destruct valid; cbn [negb]; [|on_success_end].
  apply (on_success_bind Q (at_call w 0)
           (fun c w1 => ev_comment event = Some c /\ at_call w 0 w1)).
  { intros w1 c Hat Hc. split; [by eapply subscript_Ret|].
    by rewrite after_subscript. }
  intros comment. cbv beta. apply on_success_assume. intros Hcomment.
  (* the command *)
  apply (on_success_bind Q (at_call w 0)
           (fun p w1 =>
              result (parse_merge_command (comment_body comment)) w = Ret p
              /\ at_call w 0 w1)).
  { intros w1 p Hat Hp. split.
    - by rewrite (pure_result_parse_merge_command _ w w1).
    - apply (at_call_frame _ _ _ _ Hat);
        [ apply steps_after; unfold parse_merge_command; solve_frame_steps
        | apply clock_parse_merge_command ]. }
  intros [[branch sha] colbs]. cbv beta. apply on_success_assume. intros Hparse.
  destruct (nonempty branch) as [target|] eqn:Eb; [|on_success_end].
  destruct (nonempty sha) as [approved|] eqn:Es; [|on_success_end].
  destruct colbs as [colbs|]; [|on_success_end].
  apply nonempty_inv in Eb as ->. apply nonempty_inv in Es as ->.
  (* the review request *)
  call_bind @after_request. rename a0 into org.
  call_bind after_org_get_repo. rename a0 into flathub.
  call_bind @after_request.
  apply (on_success_bind Q (at_call w 3)
           (fun i w1 => ev_issue event = Some i /\ at_call w 3 w1)).
  { intros w1 i Hat Hi. split; [by eapply subscript_Ret|].
    by rewrite after_subscript. }
  intros issue. cbv beta. apply on_success_assume. intros Hissue.
  unfold repo_get_pull.
  apply (on_success_bind Q (at_call w 3)
           (fun pr w1 =>
              pr = srv_pull (service w (3 + clock w)) (issue_number issue)
              /\ frame grants_nothing w w1)).
  { intros w1 pr [Hf Hc] Hpr. split.
    - apply request_Ret_answer in Hpr. rewrite Hpr, Hc.
      destruct Hf as (_ & _ & _ & Hs & _). by rewrite Hs.
    - etransitivity; [exact Hf|]. apply steps_after. solve_frame_steps. }
  intros pr. cbv beta. apply on_success_assume. intros Hpr.
  apply (on_success_bind Q (frame grants_nothing w)
           (fun b w1 =>
              (exists owner rest,
                 Str.split ":" (pr_head_label pr) = owner :: b :: rest)
              /\ frame grants_nothing w w1)).
  { intros w1 b Hf Hb.
    destruct (Str.split ":" (pr_head_label pr)) as [|owner [|b' rest]];
      try done.
    injection Hb as <-. split; [by eauto|exact Hf]. }
  intros pr_branch. cbv beta. apply on_success_assume. intros Hsplit.
  quiet_bind.
  unfold is_authorized_commenter, org_get_team_by_slug, has_in_members.
  quiet_bind.
  match goal with |- context [negb ?b] => destruct b end; cbn [negb];
    [|on_success_end].
  (* the clone *)
  apply (on_success_with_tmpdir_at Q (frame grants_nothing w) Q _ (mkdtemp w)).
  { intros w1 Hf. apply Hf. }
  { intros w1 Hf. etransitivity; [exact Hf|]. by apply discipline_emit. }
  2: { intros w1 (c & i & b & s & h & mf & appid & pb & Hc & Hi & Hpa & Hd & Hs
                  & Hp).
       exists c, i, b, s, h, mf, appid, pb. split_and!; try done.
       eapply progress_frame; [exact Hp|]. by apply discipline_emit. }
  unfold clone_pr_fork, repo_get_pull. quiet_bind.
  match goal with |- on_success _ (match ?c with _ => _ end) _ => destruct c end;
    [|on_success_end].
  apply (on_success_bind Q (frame grants_nothing w)
           (fun d w1 =>
              result (detect_appid (mkdtemp w)) w = Ret d
              /\ frame grants_nothing w w1)).
  { intros w1 d Hf Hd. split.
    - rewrite <- Hd. apply detect_appid_reads_directory.
      destruct Hf as (_ & _ & _ & _ & _ & Hl & _). by rewrite Hl.
    - etransitivity; [exact Hf|]. apply steps_after.
      unfold detect_appid. solve_frame_steps. }
  intros [file id]. cbv beta. apply on_success_assume. intros Hdetect.
  cbn [fst snd].
  destruct (nonempty file) as [manifest_file|] eqn:Ef; [|on_success_end].
  destruct (nonempty id) as [appid|] eqn:Ei; [|on_success_end].
  apply nonempty_inv in Ef as ->. apply nonempty_inv in Ei as ->.
  (* provisioning *)
  apply (on_success_bind Q _
           (fun created w2 =>
              match created with
              | Some repo =>
                  repo = repo_handle appid
                  /\ progress w w2 [] [] [Call (OrgCreateRepo appid)]
              | None => True
              end)).
  { intros w1 created Hf0 Hrun. destruct created as [repo|]; [|done].
    pose proof (progress_frame _ _ _ _ _ _ (progress_refl w) Hf0) as Hp.
    destruct (create_new_flathub_repo_run_Some _ _ _ _ Hrun)
      as (-> & _ & _ & Hcalls & _).
    split; [done|].
    assert (Hf : frame grants_nothing w1
                   (after (create_new_flathub_repo org appid) w1)).
    { apply steps_after.
      unfold create_new_flathub_repo, repo_exists_in_org, get_repo_in_org,
        org_get_repo.
      solve_frame_steps. }
    eapply progress_mark;
      [ eapply progress_frame; [exact Hp|exact Hf]
      | apply Hp
      | by eapply frame_extends
      | clear -Hcalls; rewrite Hcalls; set_solver ]. }
  intros [repo|]; [|on_success_end].
  apply on_success_assume. intros ->.
  (* publication *)
  apply (on_success_bind Q _
           (fun (published : bool) w3 =>
              if published
              then progress w w3 protected_patterns []
                     [Call (RepoRemoveFromCollaborators appid "flathubbot");
                      Call (GitPush (mkdtemp w) (pr_branch +:+ ":" +:+ target));
                      Call (OrgCreateRepo appid)]
              else True)).
  { intros w2 published Hp Hrun. destruct published; [|done].
    destruct (finalize_new_flathub_repo_run_true _ _ _ _ _ _ _ _ _ Hrun)
      as (_ & Hcalls & _).
    match type of Hcalls with
    | calls (since w2 (after ?m w2)) = _ =>
        assert (Hext : extends w2 (after m w2))
    end.
    { apply steps_after.
      unfold finalize_new_flathub_repo, push_to_flathub_remote,
        set_protected_branch.
      solve_steps. }
    eapply progress_mark;
      [ eapply progress_mark;
          [ eapply progress_step; [exact Hp|exact Hext|..]
          | apply Hp | exact Hext | ]
      | apply Hp | exact Hext | ].
    - rewrite protection_attempts_calls, Hcalls. reflexivity.
    - rewrite team_grants_calls, Hcalls. reflexivity.
    - reflexivity.
    - reflexivity.
    - clear -Hcalls. rewrite Hcalls. set_solver.
    - clear -Hcalls. rewrite Hcalls. cbn [Repository_name repo_handle]. set_solver. }
  intros published. destruct published; cbn [negb]; [|on_success_end].
  (* access *)
  apply (on_success_bind Q _
           (fun (granted : bool) w4 =>
              if granted
              then progress w w4 protected_patterns
                     ((fun t => (t, "push")) <$> teams_to_add appid)
                     ((Call <$> ((fun user =>
                                    RepoAddToCollaborators appid user "push")
                                 <$> (colbs ++ [pr_user_login pr])%list))
                      ++ [Call (RepoRemoveFromCollaborators appid "flathubbot");
                          Call (GitPush (mkdtemp w)
                                  (pr_branch +:+ ":" +:+ target));
                          Call (OrgCreateRepo appid)])%list
              else True)).
  { intros w3 granted Hp Hrun. destruct granted; [|done].
    pose proof (add_all_collaborators_run_true _ _ _ _ Hrun) as Hcalls.
    cbn [Repository_name repo_handle] in Hcalls.
    match type of Hcalls with
    | calls (since w3 (after ?m w3)) = _ =>
        assert (Hext : extends w3 (after m w3))
    end.
    { apply steps_after.
      unfold add_all_collaborators, org_get_team_by_slug. solve_steps. }
    eapply progress_marks;
      [ eapply progress_step; [exact Hp|exact Hext|..]
      | apply Hp | exact Hext | ].
    - rewrite protection_attempts_calls, Hcalls, omap_app.
      rewrite (proj2 (no_grants_of_users _ _)), no_protection_of_teams.
      reflexivity.
    - rewrite team_grants_calls, Hcalls, omap_app.
      rewrite (proj1 (no_grants_of_users _ _)), team_grants_of_teams.
      reflexivity.
    - by rewrite app_nil_r.
    - reflexivity.
    - rewrite Hcalls. apply Forall_forall. intros call Hcall.
      apply elem_of_app. by left. }
  intros granted. destruct granted; cbn [negb]; [|on_success_end].
  quiet_bind.
  match goal with |- context [negb ?b] => destruct b end; cbn [negb];
    [|on_success_end].
  (* closure *)
  apply (on_success_bind Q _
           (fun (closed : bool) w5 =>
              if closed
              then progress w w5 protected_patterns
                     ((fun t => (t, "push")) <$> teams_to_add appid)
                     (Call (PullEdit (pr_number pr) "closed")
                      :: (Call <$> ((fun user =>
                                       RepoAddToCollaborators appid user "push")
                                    <$> (colbs ++ [pr_user_login pr])%list))
                      ++ [Call (RepoRemoveFromCollaborators appid "flathubbot");
                          Call (GitPush (mkdtemp w)
                                  (pr_branch +:+ ":" +:+ target));
                          Call (OrgCreateRepo appid)])%list
              else True)).
  { intros w4 closed Hp Hrun. destruct closed; [|done].
    pose proof (close_pr_run_true _ _ _ Hrun) as Hcalls.
    match type of Hcalls with
    | calls (since w4 (after ?m w4)) = _ =>
        assert (Hext : extends w4 (after m w4))
    end.
    { apply steps_after. unfold close_pr, get_issue_from_pr. solve_steps. }
    eapply progress_mark;
      [ eapply progress_step; [exact Hp|exact Hext|..]
      | apply Hp | exact Hext | ].
    - rewrite protection_attempts_calls, Hcalls.
      destruct (faults w4 _); [reflexivity|].
      by destruct (srv_issue_locked _ _).
    - rewrite team_grants_calls, Hcalls.
      destruct (faults w4 _); [reflexivity|].
      by destruct (srv_issue_locked _ _).
    - by rewrite app_nil_r.
    - by rewrite app_nil_r.
    - clear -Hcalls. rewrite Hcalls. set_solver. }
  intros closed. destruct closed; cbn [negb]; [|on_success_end].
  quiet_bind.
  match goal with |- context [negb ?b] => destruct b end; cbn [negb];
    [|on_success_end].
  apply on_success_ret_0. intros w6 Hp.
  exists comment, issue, target, approved, colbs, manifest_file, appid, pr_branch.
  rewrite <- Hpr. by split_and!.
Qed.

Lemma main_exit_status_0_witness :
  let w := sample_world
             [yaml_manifest_file "org.example.App.yml" "org.example.App"]
             {[ "flathub" ]}
             (fun n => sample_service
                         (if bool_decide (34 <= n) then "closed" else "open")
                         sha_a sha_a sha_a)
             (fun _ => None) in
  exists event comment issue branch sha handles manifest_file appid pr_branch,
    result load_github_event w = Ret event
    /\ ev_comment event = Some comment
    /\ ev_issue event = Some issue
    /\ result (parse_merge_command (comment_body comment)) w
       = Ret (Some branch, Some sha, Some handles)
    /\ result (detect_appid (mkdtemp w)) w = Ret (Some manifest_file, Some appid)
    /\ let pr := srv_pull (service w (3 + clock w)) (issue_number issue) in
       let evs := since w (after main w) in
       (exists owner rest,
          Str.split ":" (pr_head_label pr) = owner :: pr_branch :: rest)
       /\ protection_attempts evs = protected_patterns
       /\ team_grants evs = ((fun t => (t, "push")) <$> teams_to_add appid)
       /\ Call (OrgCreateRepo appid) ∈ evs
       /\ Call (GitPush (mkdtemp w) (pr_branch +:+ ":" +:+ branch)) ∈ evs
       /\ Call (RepoRemoveFromCollaborators appid "flathubbot") ∈ evs
       /\ Forall (fun user => Call (RepoAddToCollaborators appid user "push") ∈ evs)
            (handles ++ [pr_user_login pr])%list
       /\ Call (PullEdit (pr_number pr) "closed") ∈ evs.
Proof.
  intros w. apply (main_exit_status_0 w). by vm_compute.
Defined.

(** ** A head that is not the approved one *)

Lemma clone_pr_fork_Some
    (parent : Repository) (pr_id : Z)
    (fork_url pr_branch approved clone_path : string) (w : World) (c : Clone) :
  result (clone_pr_fork parent pr_id fork_url pr_branch approved clone_path) w
  = Ret (Some c) ->
  srv_fork_head (service w (clock w)) fork_url pr_branch = approved
  /\ pr_head_sha (srv_pull (service w (S (S (clock w)))) pr_id) = approved.
Proof.
  unfold clone_pr_fork. run_unfold. run_simpl.
  destruct (faults w (clock w)); [done|]. run_simpl.
  destruct (faults w (S (clock w))); [done|]. run_simpl.
  destruct (faults w (S (S (clock w)))); [done|]. run_simpl.
  cbn [clone_head_target].
  case_bool_decide; run_simpl; [|done].
  case_bool_decide; run_simpl; [|done].
  case_bool_decide; run_simpl; [|done].
  done.
Qed.

(** X20.  Code other than the approved commit is never promoted: when
    the comment approves a commit that the fork, or the review request,
    at no time has as its head, [main] ends with exit status 1 after
    reading and cloning only; no repository is created, nothing is
    pushed, granted or written to the review request. *)
Theorem main_unapproved_head
    (w : World) (event : GithubEvent) (comment : CommentInfo)
    (g1 : option string) (sha g3 : string) :
  result load_github_event w = Ret event ->
  ev_comment event = Some comment ->
  Regex.command_pattern_search (comment_body comment) = Some (g1, sha, g3) ->
  (forall n url branch, srv_fork_head (service w n) url branch <> sha)
  \/ (forall n number, pr_head_sha (srv_pull (service w n) number) <> sha) ->
  exit_status (result main w) = 1%Z
  /\ Forall (fun e => inspects_only e = true) (since w (after main w)).
Proof.
  intros Hload Hcomment Hsearch Hhead.
  assert (H : halts inspects_only w main).
  2: { destruct (H w) as [Hexit Hframe]; [reflexivity|].
       split; [done|]. by eapply frame_since. }
  unfold main. apply halts_get_world. intros w1 _.
  destruct (nonempty (INPUT_TOKEN w1)) as [token|].
  2: { apply halts_bind; [solve_frame_steps|intros _; apply halts_ret]. }
  apply halts_bind_run; [unfold load_github_event; solve_frame_steps|].
  intros ev (w2 & Hw2 & Hev).
  rewrite (load_github_event_frame _ _ _ Hw2), Hload in Hev.
  injection Hev as <-.
  apply halts_bind; [unfold is_valid_event; solve_frame_steps|].
  intros valid. destruct valid; cbn [negb]; [|apply halts_ret].
  apply halts_bind_run; [solve_frame_steps|].
  intros c (w4 & _ & Hc%subscript_Ret).
  rewrite Hcomment in Hc. injection Hc as <-.
  apply halts_bind_run; [unfold parse_merge_command; solve_frame_steps|].
  intros [[branch sha'] colbs] (w5 & _ & Hparse).
  rewrite (parse_merge_command_matched _ _ _ _ _ Hsearch) in Hparse.
  injection Hparse as <- <- <-.
  destruct (nonempty (Some _)) as [target|]; [|apply halts_ret].
  destruct (nonempty (Some sha)) as [approved|] eqn:Esha; [|apply halts_ret].
  apply nonempty_Some in Esha as ->.
  apply halts_bind; [solve_frame_steps|]. intros org.
  apply halts_bind; [unfold org_get_repo; solve_frame_steps|]. intros flathub.
  apply halts_bind; [solve_frame_steps|]. intros author.
  apply halts_bind; [solve_frame_steps|]. intros issue.
  apply halts_bind; [unfold repo_get_pull; solve_frame_steps|]. intros pr.
  apply halts_bind; [solve_frame_steps|]. intros pr_branch.
  apply halts_bind; [solve_frame_steps|]. intros fork_url.
  apply halts_bind.
  { unfold is_authorized_commenter, org_get_team_by_slug, has_in_members.
    solve_frame_steps. }
  intros authorized. destruct authorized; cbn [negb]; [|apply halts_ret].
  apply halts_with_tmpdir; [done|done|]. intros tmpdir.
  apply halts_bind_run; [unfold clone_pr_fork, repo_get_pull; solve_frame_steps|].
  intros cloned (w6 & (_ & _ & _ & Hs & _) & Hclone).
  destruct cloned as [cloned|]; [|apply halts_ret].
  apply clone_pr_fork_Some in Hclone as [Hfork Hpr]. rewrite Hs in Hfork, Hpr.
  by destruct Hhead as [Hh|Hh]; [destruct (Hh _ _ _ Hfork)|destruct (Hh _ _ Hpr)].
Qed.

Lemma main_unapproved_head_witness :
  let w := sample_world [] {[ "flathub" ]}
             (fun _ => sample_service "open" sha_b sha_a sha_a) (fun _ => None) in
  exit_status (result main w) = 1%Z
  /\ Forall (fun e => inspects_only e = true) (since w (after main w)).
Proof.
  intros w.
  apply (main_unapproved_head w (sample_event ("/merge head=" +:+ sha_a))
           {| comment_body := "/merge head=" +:+ sha_a;
              comment_user_login := "rev" |} None sha_a "").
  - reflexivity.
  - reflexivity.
  - reflexivity.
  - left. intros n url branch. discriminate.
Defined.

(** ** A mention that is too long *)

Lemma span_upto_take (n : nat) (f : ascii -> bool) (s : string) :
  Str.forallb f s = true -> Str.span_upto n f s = Str.take n s.
Proof.
  revert s. induction n as [|n IH]; intros [|c s]; simpl; try done.
  intros [-> Hs]%andb_prop. by rewrite IH.
Qed.

Lemma take_length (n : nat) (s : string) :
  n <= String.length s -> String.length (Str.take n s) = n.
Proof.
  revert s. induction n as [|n IH]; intros [|c s]; simpl; try lia.
  intros H. rewrite IH; lia.
Qed.

Lemma findall_handles_no_at (s : string) :
  Str.forallb Chars.is_handle_char s = true -> Regex.findall_handles 0 s = [].
Proof.
  induction s as [|c s IH]; [done|]. simpl.
  intros [Hc Hs]%andb_prop.
  assert (Hat : Chars.is_char "@" c = false)
    by (destruct c as [[] [] [] [] [] [] [] []]; done).
  rewrite Hat. by apply IH.
Qed.

Lemma forallb_drop (f : ascii -> bool) (n : nat) (s : string) :
  Str.forallb f s = true -> Str.forallb f (Str.drop n s) = true.
Proof.
  revert s. induction n as [|n IH]; intros [|c s]; simpl; try done.
  intros [_ Hs]%andb_prop. by apply IH.
Qed.

(** X21.  A mention longer than thirty-nine characters is not refused:
    its first thirty-nine characters are taken for the collaborator. *)
Theorem parse_merge_command_long_mention (sha handle : string) (w : World) :
  valid_sha sha = true ->
  Str.forallb Chars.is_handle_char handle = true ->
  39 < String.length handle ->
  result (parse_merge_command ("/merge head=" +:+ sha +:+ " @" +:+ handle)) w
  = Ret (Some "master", Some sha, Some [Str.take 39 handle]).
Proof.
  intros Hsha Hall Hlen.
  assert (Hdot : Str.forallb Chars.is_dot (" @" +:+ handle) = true).
  { rewrite forallb_append. cbn.
    apply (forallb_impl Chars.is_handle_char); [|done].
    intros c. destruct c as [[] [] [] [] [] [] [] []]; done. }
  pose proof (command_pattern_search_complete None sha (" @" +:+ handle) ""
                I Hsha Hdot (or_introl eq_refl)) as Hsearch.
  unfold format_command in Hsearch. cbn [mentions] in Hsearch.
  rewrite !append_nil_r, ?append_assoc in Hsearch.
  change ("/merge" +:+ "" +:+ " head=" +:+ sha +:+ " @" +:+ handle)
    with ("/merge head=" +:+ sha +:+ " @" +:+ handle) in Hsearch.
  rewrite (parse_merge_command_matched _ _ _ _ w Hsearch).
  do 3 f_equal.
  rewrite !append_cons, append_nil.
  change (Regex.findall_handles 0 (String " " (String "@" handle)))
    with (let m := Str.span_upto 39 Chars.is_handle_char handle in
          if Str.is_empty m then Regex.findall_handles 0 handle
          else m :: Regex.findall_handles (String.length m) handle).
  cbv zeta. rewrite (span_upto_take _ _ _ Hall).
  destruct (Str.take 39 handle) as [|c t] eqn:Et.
  { pose proof (take_length 39 handle ltac:(lia)) as Hl. by rewrite Et in Hl. }
  cbn [Str.is_empty]. rewrite <- Et. f_equal.
  rewrite (str_take_drop 39 handle) at 2.
  rewrite findall_handles_skip.
  apply findall_handles_no_at. by apply forallb_drop.
Qed.

Lemma parse_merge_command_long_mention_witness :
  result (parse_merge_command
            ("/merge head=" +:+ sha_a +:+ " @"
             +:+ "a-handle-of-forty-one-characters-in-total"))
         idle_world
  = Ret (Some "master", Some sha_a,
         Some [Str.take 39 "a-handle-of-forty-one-characters-in-total"]).
Proof.
  apply (parse_merge_command_long_mention sha_a
           "a-handle-of-forty-one-characters-in-total" idle_world);
    [reflexivity|reflexivity|simpl; lia].
Defined.
